(** * Calculator operations: a shallow embedding of [app/operations.py]

    The Python module defines ten arithmetic operation classes over
    [decimal.Decimal] operands and a factory that maps string keys to those
    classes.  This development embeds

    - the part of Python's [decimal] module the operations use (the default
      context, rounding to context precision, comparisons, [+], [-], [*],
      [/], [abs]);
    - the part of Python's [float] the operations use ([float(Decimal)],
      [Decimal(float)], [%], [//], [/], [pow]), over IEEE 754 binary64 as
      specified by [SpecFloat];
    - the operation classes, one module per class, and [OperationFactory].

    Exceptions are values: a computation returns [Ok v] or [Raise e]. *)

From Stdlib Require Import ZArith NArith QArith Qabs Qpower Lia Lqa Bool Ascii String List.
From Stdlib Require Import Floats.SpecFloat.
From stdpp Require Import gmap strings.

#[local] Open Scope Z_scope.

(** ** Exceptions and results *)

(** The exception classes the module can raise.  [ValidationError] is the
    application's own ([app.exceptions]); the three decimal signals are the
    ones the default context traps.  The message of an exception raised by
    the interpreter itself is the one CPython 3.12 gives. *)
Inductive exception : Type :=
  | ValidationError (msg : string)
  | TypeError (msg : string)
  | ValueError (msg : string)
  | ZeroDivisionError (msg : string)
  | OverflowError (msg : string)
  | InvalidOperation
  | DivisionByZero
  | Overflow.

Inductive result (A : Type) : Type :=
  | Ok (v : A)
  | Raise (e : exception).

Arguments Ok {A} v.
Arguments Raise {A} e.

#[global] Instance result_ret : MRet result := fun A v => Ok v.
#[global] Instance result_bind : MBind result := fun A B k r =>
  match r with
  | Ok v => k v
  | Raise e => Raise e
  end.

Definition succeeds {A : Type} (r : result A) : Prop := exists v, r = Ok v.

(** ** Decimal numbers *)

(** A [decimal.Decimal]: sign (true is negative), coefficient and exponent
    of a finite number, or one of the special values.  A NaN carries its
    diagnostic payload; payload 0 is the empty payload. *)
Inductive Decimal : Type :=
  | Finite (sign : bool) (coeff : N) (exp : Z)
  | Infinity (sign : bool)
  | NaN (sign : bool) (payload : N)
  | sNaN (sign : bool) (payload : N).

(** The default context of the [decimal] module, which the module never
    changes: 28 digits, ROUND_HALF_EVEN, exponents from -999999 to 999999,
    and the traps InvalidOperation, DivisionByZero and Overflow.  The
    other signals only set flags, which the module never reads. *)
Module Context.
Definition prec : Z := 28.
Definition Emax : Z := 999999.
Definition Emin : Z := -999999.
Definition Etiny : Z := Emin - prec + 1.
Definition Etop : Z := Emax - prec + 1.
End Context.

(** [len(str(n))] for a coefficient [n >= 0]. *)
Fixpoint ndigits_fuel (fuel : nat) (n : Z) : Z :=
  match fuel with
  | O => 1
  | S fuel' => if n <? 10 then 1 else 1 + ndigits_fuel fuel' (n / 10)
  end.

Definition ndigits (n : Z) : Z := ndigits_fuel (Z.to_nat (Z.log2 n)) n.

(** The signed integer a sign and a coefficient stand for. *)
Definition signed (s : bool) (c : Z) : Z := if s then - c else c.

Module Dec.

Import Context.

Definition zero : Decimal := Finite false 0 0.
Definition hundred : Decimal := Finite false 100 0.

Definition is_nan (d : Decimal) : bool :=
  match d with NaN _ _ | sNaN _ _ => true | _ => false end.

Definition is_finite (d : Decimal) : bool :=
  match d with Finite _ _ _ => true | _ => false end.

(** [_fix_nan]: a payload longer than the precision keeps its low digits. *)
Definition fix_nan (d : Decimal) : Decimal :=
  match d with
  | NaN s p => NaN s (Z.to_N (Z.of_N p mod 10 ^ prec))
  | sNaN s p => sNaN s (Z.to_N (Z.of_N p mod 10 ^ prec))
  | _ => d
  end.

(** ROUND_HALF_EVEN on a coefficient [c] that loses its [k] low digits:
    does the kept part go up by one? *)
Definition round_half_even_up (c k : Z) : bool :=
  let q := c / 10 ^ k in
  let r := c mod 10 ^ k in
  (10 ^ k <? 2 * r) || ((10 ^ k =? 2 * r) && Z.odd q).

(** [Decimal._fix]: round to the context precision and keep the exponent
    in range.  A zero has its exponent clamped; a coefficient with too
    many digits is rounded; a result above Emax signals Overflow, which
    is trapped. *)
Definition _fix (d : Decimal) : result Decimal :=
  match d with
  | Finite s c e =>
      let c := Z.of_N c in
      if c =? 0 then Ok (Finite s 0 (Z.min (Z.max e Etiny) Emax))
      else
        let exp_min := ndigits c + e - prec in
        if Etop <? exp_min then Raise Overflow
        else
          let exp_min := Z.max exp_min Etiny in
          if e <? exp_min then
            let k := exp_min - e in
            let q := c / 10 ^ k in
            if round_half_even_up c k then
              let coeff := q + 1 in
              if prec <? ndigits coeff then
                if Etop <? exp_min + 1 then Raise Overflow
                else Ok (Finite s (Z.to_N (coeff / 10)) (exp_min + 1))
              else Ok (Finite s (Z.to_N coeff) exp_min)
            else Ok (Finite s (Z.to_N q) exp_min)
          else Ok d
  | Infinity _ => Ok d
  | _ => Ok (fix_nan d)
  end.

(** [_check_nans]: a signaling NaN operand raises InvalidOperation (the
    trap is set); otherwise the first quiet NaN operand is the result. *)
Definition check_nans (a b : Decimal) : result (option Decimal) :=
  match a, b with
  | sNaN _ _, _ | _, sNaN _ _ => Raise InvalidOperation
  | NaN _ _, _ => Ok (Some (fix_nan a))
  | _, NaN _ _ => Ok (Some (fix_nan b))
  | _, _ => Ok None
  end.

(** [_isinfinity]: 1 for +Infinity, -1 for -Infinity, 0 otherwise. *)
Definition isinfinity (d : Decimal) : Z :=
  match d with
  | Infinity s => if s then -1 else 1
  | _ => 0
  end.

(** [_cmp], on operands that are not NaN: the order of the values.  Two
    finite numbers are compared at their common smaller exponent. *)
Definition _cmp (a b : Decimal) : comparison :=
  match a, b with
  | Finite s1 c1 e1, Finite s2 c2 e2 =>
      let e := Z.min e1 e2 in
      signed s1 (Z.of_N c1 * 10 ^ (e1 - e)) ?= signed s2 (Z.of_N c2 * 10 ^ (e2 - e))
  | _, _ => isinfinity a ?= isinfinity b
  end.

(** [a == b]: a signaling NaN raises, a quiet NaN compares unequal. *)
Definition eq (a b : Decimal) : result bool :=
  n ← check_nans a b;
  match n with
  | Some _ => Ok false
  | None => Ok (match _cmp a b with Eq => true | _ => false end)
  end.

(** [a < b]: an ordering comparison raises InvalidOperation on any NaN. *)
Definition lt (a b : Decimal) : result bool :=
  if is_nan a || is_nan b then Raise InvalidOperation
  else Ok (match _cmp a b with Lt => true | _ => false end).

Definition copy_negate (d : Decimal) : Decimal :=
  match d with
  | Finite s c e => Finite (negb s) c e
  | Infinity s => Infinity (negb s)
  | NaN s p => NaN (negb s) p
  | sNaN s p => sNaN (negb s) p
  end.

Definition copy_abs (d : Decimal) : Decimal :=
  match d with
  | Finite _ c e => Finite false c e
  | Infinity _ => Infinity false
  | NaN _ p => NaN false p
  | sNaN _ p => sNaN false p
  end.

(** [a + b]: the exact sum at the smaller exponent, then [_fix].  A zero
    sum is negative only when both operands are. *)
Definition add (a b : Decimal) : result Decimal :=
  match a, b with
  | sNaN _ _, _ | _, sNaN _ _ => Raise InvalidOperation
  | NaN _ _, _ => Ok (fix_nan a)
  | _, NaN _ _ => Ok (fix_nan b)
  | Infinity s1, Infinity s2 =>
      if xorb s1 s2 then Raise InvalidOperation else Ok a
  | Infinity _, Finite _ _ _ => Ok a
  | Finite _ _ _, Infinity _ => Ok b
  | Finite s1 c1 e1, Finite s2 c2 e2 =>
      let e := Z.min e1 e2 in
      let z := signed s1 (Z.of_N c1 * 10 ^ (e1 - e))
               + signed s2 (Z.of_N c2 * 10 ^ (e2 - e)) in
      if z =? 0 then _fix (Finite (s1 && s2) 0 e)
      else _fix (Finite (z <? 0) (Z.to_N (Z.abs z)) e)
  end.

(** [a - b] is [a + b.copy_negate()] once the NaNs are dealt with. *)
Definition sub (a b : Decimal) : result Decimal :=
  n ← check_nans a b;
  match n with
  | Some r => Ok r
  | None => add a (copy_negate b)
  end.

(** [a * b]: the exact product, then [_fix]. *)
Definition mul (a b : Decimal) : result Decimal :=
  match a, b with
  | sNaN _ _, _ | _, sNaN _ _ => Raise InvalidOperation
  | NaN _ _, _ => Ok (fix_nan a)
  | _, NaN _ _ => Ok (fix_nan b)
  | Infinity s1, Infinity s2 => Ok (Infinity (xorb s1 s2))
  | Infinity s1, Finite s2 c2 _ =>
      if (c2 =? 0)%N then Raise InvalidOperation else Ok (Infinity (xorb s1 s2))
  | Finite s1 c1 _, Infinity s2 =>
      if (c1 =? 0)%N then Raise InvalidOperation else Ok (Infinity (xorb s1 s2))
  | Finite s1 c1 e1, Finite s2 c2 e2 =>
      _fix (Finite (xorb s1 s2) (c1 * c2)%N (e1 + e2))
  end.

(** The loop of an exact division that brings the exponent as close to
    the ideal one as the trailing zeros of the coefficient allow. *)
Fixpoint strip_zeros (fuel : nat) (coeff exp ideal_exp : Z) : Z * Z :=
  match fuel with
  | O => (coeff, exp)
  | S fuel' =>
      if (exp <? ideal_exp) && (coeff mod 10 =? 0)
      then strip_zeros fuel' (coeff / 10) (exp + 1) ideal_exp
      else (coeff, exp)
  end.

(** The coefficient and exponent of [c1 * 10^e1 / (c2 * 10^e2)], both
    coefficients positive: [prec + 1] or [prec + 2] digits of quotient,
    the last one made sticky when the division is inexact. *)
Definition div_core (c1 e1 c2 e2 : Z) : Z * Z :=
  let shift := ndigits c2 - ndigits c1 + prec + 1 in
  let exp := e1 - e2 - shift in
  let '(coeff, remainder) :=
    if 0 <=? shift then Z.div_eucl (c1 * 10 ^ shift) c2
    else Z.div_eucl c1 (c2 * 10 ^ (- shift)) in
  if remainder =? 0
  then strip_zeros (Z.to_nat (e1 - e2 - exp)) coeff exp (e1 - e2)
  else (if coeff mod 5 =? 0 then coeff + 1 else coeff, exp).

(** [a / b]. *)
Definition truediv (a b : Decimal) : result Decimal :=
  match a, b with
  | sNaN _ _, _ | _, sNaN _ _ => Raise InvalidOperation
  | NaN _ _, _ => Ok (fix_nan a)
  | _, NaN _ _ => Ok (fix_nan b)
  | Infinity _, Infinity _ => Raise InvalidOperation
  | Infinity s1, Finite s2 _ _ => Ok (Infinity (xorb s1 s2))
  | Finite s1 _ _, Infinity s2 => Ok (Finite (xorb s1 s2) 0 Etiny)
  | Finite s1 c1 e1, Finite s2 c2 e2 =>
      if (c2 =? 0)%N then
        if (c1 =? 0)%N then Raise InvalidOperation else Raise DivisionByZero
      else if (c1 =? 0)%N then _fix (Finite (xorb s1 s2) 0 (e1 - e2))
      else
        let '(coeff, exp) := div_core (Z.of_N c1) e1 (Z.of_N c2) e2 in
        _fix (Finite (xorb s1 s2) (Z.to_N coeff) exp)
  end.

(** [abs(a)]: [__neg__] of a negative operand, [__pos__] of any other;
    either way a number loses its sign and is rounded. *)
Definition abs (a : Decimal) : result Decimal :=
  match a with
  | sNaN _ _ => Raise InvalidOperation
  | NaN _ _ => Ok (fix_nan a)
  | _ => _fix (copy_abs a)
  end.

End Dec.

(** ** Binary floating point *)

(** A Python [float] is an IEEE 754 binary64 number; [SpecFloat] specifies
    its arithmetic.  Every float built here is in canonical form (the
    constructors below round through [binary_round_aux]). *)
Abbreviation float := spec_float.

(** What the built-in [pow] can return on two floats. *)
Inductive pyobject : Type :=
  | PyFloat (x : float)
  | PyComplex (re im : float).

(** The platform's C library is not part of the program: [c_pow x y] is
    the value of C [pow] with the [errno] it leaves, called only on finite
    [x > 0], [x <> 1] and finite [y <> 0]; [complex_pow x y] is Python's
    complex power of two reals, called only on finite [x < 0] and finite,
    non-integral [y], and is either a complex number or [None] when the
    power is out of range (an OverflowError). *)
Class Libm : Type := {
  c_pow : float -> float -> float * Z;
  complex_pow : float -> float -> option (float * float)
}.

Definition ERANGE : Z := 34.

Module Float.

Definition prec : Z := 53.
Definition emax : Z := 1024.

Definition add : float -> float -> float := SFadd prec emax.
Definition sub : float -> float -> float := SFsub prec emax.
Definition div : float -> float -> float := SFdiv prec emax.
Definition eqb : float -> float -> bool := SFeqb.
Definition ltb : float -> float -> bool := SFltb.
Definition opp : float -> float := SFopp.
Definition fabs : float -> float := SFabs.

(** The float nearest to [m * 2^e]. *)
Definition of_scaled (m e : Z) : float := binary_normalize prec emax m e false.

Definition zero : float := S754_zero false.
Definition half : float := of_scaled 1 (-1).
Definition one : float := of_scaled 1 0.
Definition two : float := of_scaled 2 0.

Definition is_nan (x : float) : bool :=
  match x with S754_nan => true | _ => false end.

Definition is_infinity (x : float) : bool :=
  match x with S754_infinity _ => true | _ => false end.

(** The truth value of a C double: anything but a zero, a NaN included. *)
Definition nonzero (x : float) : bool := negb (eqb x zero).

(** The sign bit.  [SpecFloat] gives NaN no sign; it counts as clear. *)
Definition signbit (x : float) : bool :=
  match x with
  | S754_zero s | S754_infinity s | S754_finite s _ _ => s
  | S754_nan => false
  end.

(** C [copysign], for the only first argument the code uses: a zero. *)
Definition copysign_zero (y : float) : float := S754_zero (signbit y).

(** C [fmod]: the remainder of the truncated quotient, exact, with the
    sign of [x]. *)
Definition fmod (x y : float) : float :=
  match x, y with
  | S754_nan, _ | _, S754_nan => S754_nan
  | S754_infinity _, _ => S754_nan
  | _, S754_zero _ => S754_nan
  | _, S754_infinity _ => x
  | S754_zero _, _ => x
  | S754_finite sx mx ex, S754_finite _ my ey =>
      let e := Z.min ex ey in
      let X := Zpos mx * 2 ^ (ex - e) in
      let Y := Zpos my * 2 ^ (ey - e) in
      binary_normalize prec emax (signed sx (X mod Y)) e sx
  end.

(** C [floor]: exact. *)
Definition floor (x : float) : float :=
  match x with
  | S754_finite s m e =>
      if 0 <=? e then x
      else binary_normalize prec emax (signed s (Zpos m) / 2 ^ (- e)) 0 s
  | _ => x
  end.

(** [DOUBLE_IS_ODD_INTEGER(x)]: [fmod(fabs(x), 2.0) == 1.0]. *)
Definition is_odd_integer (x : float) : bool := eqb (fmod (fabs x) two) one.

(** [float(d)], that is [float(str(d))]: the float nearest to the
    decimal, ties to even; a signaling NaN cannot be converted. *)
Definition of_decimal (d : Decimal) : result float :=
  match d with
  | Finite s c e =>
      match c with
      | N0 => Ok (S754_zero s)
      | Npos p =>
          if 0 <=? e
          then Ok (binary_normalize prec emax (signed s (Zpos p * 10 ^ e)) 0 s)
          else
            let '(mz, ez, lz) :=
              SFdiv_core_binary prec emax (Zpos p) 0 (10 ^ (- e)) 0 in
            Ok (binary_round_aux prec emax s mz ez lz)
      end
  | Infinity s => Ok (S754_infinity s)
  | NaN _ _ => Ok S754_nan
  | sNaN _ _ => Raise (ValueError "cannot convert signaling NaN to float")
  end.

(** The number of trailing zero bits of a mantissa. *)
Fixpoint trailing_zeros (m : positive) : Z :=
  match m with
  | xO m' => 1 + trailing_zeros m'
  | _ => 0
  end.

(** [Decimal.from_float]: the exact value.  [as_integer_ratio] gives
    [n / 2^k] in lowest terms; the decimal is [n * 5^k] at exponent
    [-k]. *)
Definition to_decimal (x : float) : Decimal :=
  match x with
  | S754_zero s => Finite s 0 0
  | S754_infinity s => Infinity s
  | S754_nan => NaN false 0
  | S754_finite s m e =>
      if 0 <=? e then Finite s (Z.to_N (Zpos m * 2 ^ e)) 0
      else
        let t := Z.min (trailing_zeros m) (- e) in
        let n := Zpos m / 2 ^ t in
        let k := - e - t in
        Finite s (Z.to_N (n * 5 ^ k)) (- k)
  end.

(** [x % y] on floats ([float_rem]): the remainder takes the sign of the
    divisor. *)
Definition rem (vx wx : float) : result float :=
  if eqb wx zero then Raise (ZeroDivisionError "float modulo")
  else
    let mod_ := fmod vx wx in
    if nonzero mod_ then
      if xorb (ltb wx zero) (ltb mod_ zero) then Ok (add mod_ wx) else Ok mod_
    else Ok (copysign_zero wx).

(** [x // y] on floats ([float_floor_div] over [_float_div_mod]). *)
Definition floor_div (vx wx : float) : result float :=
  if eqb wx zero then Raise (ZeroDivisionError "float floor division by zero")
  else
    let mod_ := fmod vx wx in
    let div_ := div (sub vx mod_) wx in
    let div_ :=
      if nonzero mod_ && xorb (ltb wx zero) (ltb mod_ zero)
      then sub div_ one else div_ in
    if nonzero div_ then
      let floordiv := floor div_ in
      if ltb half (sub div_ floordiv) then Ok (add floordiv one) else Ok floordiv
    else Ok (copysign_zero (div vx wx)).

(** [x / y] on floats ([float_div]). *)
Definition true_div (vx wx : float) : result float :=
  if eqb wx zero then Raise (ZeroDivisionError "float division by zero")
  else Ok (div vx wx).

(** [_Py_ADJUST_ERANGE1]: an infinite result is a range error; a range
    error with a zero result (underflow) is none. *)
Definition adjust_erange1 (ix : float) (errno : Z) : Z :=
  if errno =? 0 then (if is_infinity ix then ERANGE else 0)
  else if (errno =? ERANGE) && eqb ix zero then 0
  else errno.

(** [pow(x, y)] on floats ([float_pow]): the special cases are settled
    before the C library is asked; a negative base with a non-integral
    exponent goes to the complex power. *)
Definition pow `{Libm} (iv iw : float) : result pyobject :=
  if eqb iw zero then Ok (PyFloat one)
  else if is_nan iv then Ok (PyFloat iv)
  else if is_nan iw then Ok (PyFloat (if eqb iv one then one else iw))
  else if is_infinity iw then
    let iv := fabs iv in
    if eqb iv one then Ok (PyFloat one)
    else if Bool.eqb (ltb zero iw) (ltb one iv) then Ok (PyFloat (fabs iw))
    else Ok (PyFloat zero)
  else if is_infinity iv then
    let iw_is_odd := is_odd_integer iw in
    if ltb zero iw then Ok (PyFloat (if iw_is_odd then iv else fabs iv))
    else Ok (PyFloat (if iw_is_odd then copysign_zero iv else zero))
  else if eqb iv zero then
    let iw_is_odd := is_odd_integer iw in
    if ltb iw zero
    then Raise (ZeroDivisionError "0.0 cannot be raised to a negative power")
    else Ok (PyFloat (if iw_is_odd then iv else zero))
  else if ltb iv zero && negb (eqb iw (floor iw)) then
    match complex_pow iv iw with
    | Some (re, im) => Ok (PyComplex re im)
    | None => Raise (OverflowError "complex exponentiation")
    end
  else
    let negate_result := ltb iv zero && is_odd_integer iw in
    let iv := if ltb iv zero then opp iv else iv in
    if eqb iv one then Ok (PyFloat (if negate_result then opp one else one))
    else
      let '(ix, errno) := c_pow iv iw in
      let errno := adjust_erange1 ix errno in
      let ix := if negate_result then opp ix else ix in
      if errno =? 0 then Ok (PyFloat ix)
      else if errno =? ERANGE
      then Raise (OverflowError "(34, 'Numerical result out of range')")
      else Raise (ValueError "(33, 'Numerical argument out of domain')").

End Float.

(** [Decimal(value)] on what [pow] returned: a float converts exactly, a
    complex number does not convert. *)
Definition Decimal_new (value : pyobject) : result Decimal :=
  match value with
  | PyFloat x => Ok (Float.to_decimal x)
  | PyComplex _ _ =>
      Raise (TypeError "conversion from complex to Decimal is not supported")
  end.

(** ** The operation classes *)

(** Each class of [operations.py] is a module with the methods the class
    defines; a method the class inherits is the base class's. *)

Module Operation.
(** The base [validate_operands] accepts every pair of operands. *)
Definition validate_operands (a b : Decimal) : result unit := Ok tt.
End Operation.

Module Addition.
Definition validate_operands := Operation.validate_operands.
Definition execute (a b : Decimal) : result Decimal :=
  validate_operands a b;; Dec.add a b.
End Addition.

Module Subtraction.
Definition validate_operands := Operation.validate_operands.
Definition execute (a b : Decimal) : result Decimal :=
  validate_operands a b;; Dec.sub a b.
End Subtraction.

Module Multiplication.
Definition validate_operands := Operation.validate_operands.
Definition execute (a b : Decimal) : result Decimal :=
  validate_operands a b;; Dec.mul a b.
End Multiplication.

Module Division.
Definition validate_operands (a b : Decimal) : result unit :=
  Operation.validate_operands a b;;
  z ← Dec.eq b Dec.zero;
  if z : bool then Raise (ValidationError "Division by zero is not allowed")
  else Ok tt.
Definition execute (a b : Decimal) : result Decimal :=
  validate_operands a b;; Dec.truediv a b.
End Division.

Module Power.
Definition validate_operands (a b : Decimal) : result unit :=
  Operation.validate_operands a b;;
  n ← Dec.lt b Dec.zero;
  if n : bool then Raise (ValidationError "Negative exponents not supported")
  else Ok tt.
Definition execute `{Libm} (a b : Decimal) : result Decimal :=
  validate_operands a b;;
  x ← Float.of_decimal a;
  y ← Float.of_decimal b;
  r ← Float.pow x y;
  Decimal_new r.
End Power.

Module Root.
Definition validate_operands (a b : Decimal) : result unit :=
  Operation.validate_operands a b;;
  n ← Dec.lt a Dec.zero;
  if n : bool
  then Raise (ValidationError "Cannot calculate root of negative number")
  else
    z ← Dec.eq b Dec.zero;
    if z : bool then Raise (ValidationError "Zero root is undefined")
    else Ok tt.
Definition execute `{Libm} (a b : Decimal) : result Decimal :=
  validate_operands a b;;
  x ← Float.of_decimal a;
  y ← Float.of_decimal b;
  y' ← Float.true_div Float.one y;
  r ← Float.pow x y';
  Decimal_new r.
End Root.

Module Modulus.
Definition validate_operands (a b : Decimal) : result unit :=
  Operation.validate_operands a b;;
  z ← Dec.eq b Dec.zero;
  if z : bool then Raise (ValidationError "Division by zero is not allowed")
  else Ok tt.
Definition execute (a b : Decimal) : result Decimal :=
  validate_operands a b;;
  x ← Float.of_decimal a;
  y ← Float.of_decimal b;
  result ← Float.rem x y;
  Ok (Float.to_decimal result).
End Modulus.

Module IntegerDivision.
Definition validate_operands (a b : Decimal) : result unit :=
  Operation.validate_operands a b;;
  z ← Dec.eq b Dec.zero;
  if z : bool then Raise (ValidationError "Division by zero is not allowed")
  else Ok tt.
Definition execute (a b : Decimal) : result Decimal :=
  validate_operands a b;;
  x ← Float.of_decimal a;
  y ← Float.of_decimal b;
  result ← Float.floor_div x y;
  Ok (Float.to_decimal result).
End IntegerDivision.

Module Percentage.
Definition validate_operands (a b : Decimal) : result unit :=
  Operation.validate_operands a b;;
  z ← Dec.eq b Dec.zero;
  if z : bool then Raise (ValidationError "Division by zero is not allowed")
  else Ok tt.
Definition execute (a b : Decimal) : result Decimal :=
  validate_operands a b;;
  q ← Dec.truediv a b;
  Dec.mul q Dec.hundred.
End Percentage.

Module AbsoluteDifference.
Definition validate_operands := Operation.validate_operands.
Definition execute (a b : Decimal) : result Decimal :=
  validate_operands a b;;
  d ← Dec.sub a b;
  Dec.abs d.
End AbsoluteDifference.

(** ** The factory *)

(** The ten classes of the module. *)
Inductive variant : Type :=
  | Addition | Subtraction | Multiplication | Division | Power | Root
  | Modulus | IntegerDivision | Percentage | AbsoluteDifference.

(** A class object, as far as the factory looks at it: one of the ten
    classes, the abstract base [Operation] itself, or a class defined
    elsewhere, which may or may not inherit from [Operation] and may or may
    not leave [execute] abstract. *)
Inductive py_class : Type :=
  | OperationClass (v : variant)
  | OperationABC
  | UserClass (name : string) (inherits_operation abstract : bool).

(** An object, known by its class. *)
Inductive instance : Type := Instance (cls : py_class).

(** [issubclass(cls, Operation)]. *)
Definition issubclass_Operation (cls : py_class) : bool :=
  match cls with
  | OperationClass _ | OperationABC => true
  | UserClass _ inherits _ => inherits
  end.

(** [cls()]: a class with an abstract method cannot be instantiated. *)
Definition instantiate (cls : py_class) : result instance :=
  match cls with
  | OperationClass _ => Ok (Instance cls)
  | OperationABC =>
      Raise (TypeError "Can't instantiate abstract class Operation with abstract method execute")
  | UserClass name _ abstract =>
      if abstract
      then Raise (TypeError ("Can't instantiate abstract class " +:+ name +:+ " with abstract method execute"))
      else Ok (Instance cls)
  end.

(** [str.lower] on a string of code points below 256, which is what a
    [string] holds here: the letters A-Z and the capital letters of
    Latin-1 (U+00C0-U+00DE but the multiplication sign U+00D7) move 32 up,
    every other character stays. *)
Definition char_lower (c : ascii) : ascii :=
  let n := N_of_ascii c in
  if ((65 <=? n) && (n <=? 90) || (192 <=? n) && (n <=? 222) && negb (n =? 215))%N
  then ascii_of_N (n + 32) else c.

Fixpoint lower (s : string) : string :=
  match s with
  | EmptyString => EmptyString
  | String c s' => String (char_lower c) (lower s')
  end.

Module OperationFactory.

(** The class attribute [_operations] as the module initialises it. *)
Definition _operations : gmap string py_class :=
  <["add" := OperationClass Addition]>
  (<["subtract" := OperationClass Subtraction]>
  (<["multiply" := OperationClass Multiplication]>
  (<["divide" := OperationClass Division]>
  (<["power" := OperationClass Power]>
  (<["root" := OperationClass Root]>
  (<["modulus" := OperationClass Modulus]>
  (<["integer_division" := OperationClass IntegerDivision]>
  (<["percentage" := OperationClass Percentage]>
  (<["absolute_difference" := OperationClass AbsoluteDifference]> ∅))))))))).

(** [register_operation] runs on the current mapping and leaves a
    mapping behind, whether it returns or raises. *)
Definition register_operation (ops : gmap string py_class)
    (name : string) (operation_class : py_class)
  : result unit * gmap string py_class :=
  if negb (issubclass_Operation operation_class)
  then (Raise (TypeError "Operation class must inherit from Operation"), ops)
  else (Ok tt, <[lower name := operation_class]> ops).

(** [create_operation] only reads the mapping. *)
Definition create_operation (ops : gmap string py_class)
    (operation_type : string) : result instance :=
  match ops !! lower operation_type with
  | None => Raise (ValueError ("Unknown operation: " +:+ operation_type))
  | Some operation_class => instantiate operation_class
  end.

End OperationFactory.

(** A method call [operation.execute(a, b)] on an instance of one of the
    ten classes. *)
Definition execute `{Libm} (v : variant) (a b : Decimal) : result Decimal :=
  match v with
  | Addition => Addition.execute a b
  | Subtraction => Subtraction.execute a b
  | Multiplication => Multiplication.execute a b
  | Division => Division.execute a b
  | Power => Power.execute a b
  | Root => Root.execute a b
  | Modulus => Modulus.execute a b
  | IntegerDivision => IntegerDivision.execute a b
  | Percentage => Percentage.execute a b
  | AbsoluteDifference => AbsoluteDifference.execute a b
  end.

(** ** Notions the statements use *)

(** *** Decimals as numbers *)

(** The rational number a finite Decimal stands for (0 for a special
    value, which stands for none). *)
Definition value (d : Decimal) : Q :=
  match d with
  | Finite s c e => inject_Z (signed s (Z.of_N c)) * inject_Z 10 ^ e
  | _ => 0
  end.

(** [Decimal.adjusted()]: the exponent of the leading digit. *)
Definition adjusted (d : Decimal) : Z :=
  match d with
  | Finite _ c e => ndigits (Z.of_N c) + e - 1
  | _ => 0
  end.

(** [d.as_tuple().exponent] of a finite Decimal: the unit of its last
    digit is [10 ^ exponent d]. *)
Definition exponent (d : Decimal) : Z :=
  match d with
  | Finite _ _ e => e
  | _ => 0
  end.

(** A finite Decimal the context holds as it is: at most [prec] digits,
    an exponent from Etiny up, the leading digit at most at Emax.  [_fix]
    leaves such a number alone. *)
Definition in_context (d : Decimal) : Prop :=
  match d with
  | Finite _ c e =>
      Context.Etiny <= e /\
      if (c =? 0)%N then e <= Context.Emax
      else ndigits (Z.of_N c) <= Context.prec
           /\ ndigits (Z.of_N c) + e - 1 <= Context.Emax
  | _ => False
  end.

(** The coefficient [_fix] keeps when [c] loses its [k] low digits. *)
Definition rounded (c k : Z) : Z :=
  c / 10 ^ k + (if Dec.round_half_even_up c k then 1 else 0).

(** The absolute value of the exact difference of two finite Decimals, at
    the smaller of their exponents. *)
Definition exact_abs_difference (a b : Decimal) : Decimal :=
  match a, b with
  | Finite s1 c1 e1, Finite s2 c2 e2 =>
      let e := Z.min e1 e2 in
      Finite false
        (Z.to_N (Z.abs (signed s1 (Z.of_N c1 * 10 ^ (e1 - e))
                        - signed s2 (Z.of_N c2 * 10 ^ (e2 - e))))) e
  | _, _ => NaN false 0
  end.

(** The floor of the exact quotient of two finite decimals, and the
    remainder that goes with it, in units [10^e] of the smaller exponent
    [e]: what the specification asks of IntegerDivision and Modulus. *)
Definition exact_floor_quotient (a b : Decimal) : option Z :=
  match a, b with
  | Finite s1 c1 e1, Finite s2 c2 e2 =>
      let e := Z.min e1 e2 in
      Some (signed s1 (Z.of_N c1 * 10 ^ (e1 - e))
            / signed s2 (Z.of_N c2 * 10 ^ (e2 - e)))
  | _, _ => None
  end.

Definition exact_floored_remainder (a b : Decimal) : option Decimal :=
  match a, b with
  | Finite s1 c1 e1, Finite s2 c2 e2 =>
      let e := Z.min e1 e2 in
      let r := signed s1 (Z.of_N c1 * 10 ^ (e1 - e))
               mod signed s2 (Z.of_N c2 * 10 ^ (e2 - e)) in
      Some (Finite (r <? 0) (Z.to_N (Z.abs r)) e)
  | _, _ => None
  end.

(** *** Conditions on operands *)

(** What [d < 0] says when it does not raise: [d] is a number below zero,
    or [d] is a number at or above zero. *)
Definition negative (d : Decimal) : Prop := Dec.lt d Dec.zero = Ok true.
Definition nonnegative (d : Decimal) : Prop := Dec.lt d Dec.zero = Ok false.

(** [d == 0] holds: [d] is a zero. *)
Definition is_zero (d : Decimal) : Prop := Dec.eq d Dec.zero = Ok true.

(** Is the exception the application's ValidationError? *)
Definition is_validation_error (e : exception) : bool :=
  match e with ValidationError _ => true | _ => false end.

(** *** The C library *)

(** The C library reports no range or domain error for [pow(x, y)]: the
    [errno] it leaves, as [float_pow] reads it, is 0. *)
Definition pow_in_range `{Libm} (x y : float) : Prop :=
  Float.adjust_erange1 (fst (c_pow x y)) (snd (c_pow x y)) = 0.

(** A stand-in for the C library, for running the operations: [pow] by
    repeated multiplication when the exponent is a whole number from 1 to
    64 (exact whenever the power fits a double), a domain error
    elsewhere; the complex power returns the complex zero. *)
Fixpoint float_power_nat (x : float) (n : nat) : float :=
  match n with
  | O => Float.one
  | S n' => SFmul Float.prec Float.emax x (float_power_nat x n')
  end.

Definition whole_exponent (y : float) : option nat :=
  match y with
  | S754_finite false m e =>
      let n := Zpos m * 2 ^ e in
      if (0 <=? e) && (n <=? 64) then Some (Z.to_nat n)
      else if (e <? 0) && (Zpos m mod 2 ^ (- e) =? 0) && (Zpos m / 2 ^ (- e) <=? 64)
      then Some (Z.to_nat (Zpos m / 2 ^ (- e)))
      else None
  | _ => None
  end.

Definition sample_libm : Libm := {|
  c_pow x y :=
    match whole_exponent y with
    | Some n => (float_power_nat x n, 0)
    | None => (S754_nan, 33)
    end;
  complex_pow _ _ := Some (Float.zero, Float.zero)
|}.

(** *** The factory's mapping *)



(** Two strings that differ at most in the case of their letters. *)
Definition same_letters (s k : string) : Prop := lower s = lower k.

(** A class that can be instantiated: it leaves no method abstract. *)
Definition is_concrete (cls : py_class) : bool :=
  match cls with
  | OperationClass _ => true
  | OperationABC => false
  | UserClass _ _ abstract => negb abstract
  end.

(** *** Test cases *)

(** A valid case of [tests/test_operations.py]: [execute] on the operands,
    then [==] against the expected Decimal, as the tests compare. *)
Definition test_valid `{Libm} (v : variant) (a b expected : Decimal) : result bool :=
  r ← execute v a b; Dec.eq r expected.

Definition D (s : bool) (c : N) (e : Z) : Decimal := Finite s c e.

(** ** Names of classes *)

(** [cls.__name__]. *)
Definition __name__ (cls : py_class) : string :=
  match cls with
  | OperationClass Addition => "Addition"
  | OperationClass Subtraction => "Subtraction"
  | OperationClass Multiplication => "Multiplication"
  | OperationClass Division => "Division"
  | OperationClass Power => "Power"
  | OperationClass Root => "Root"
  | OperationClass Modulus => "Modulus"
  | OperationClass IntegerDivision => "IntegerDivision"
  | OperationClass Percentage => "Percentage"
  | OperationClass AbsoluteDifference => "AbsoluteDifference"
  | OperationABC => "Operation"
  | UserClass name _ _ => name
  end.

(** [Operation.__str__], which no class of the module overrides: the name
    of the instance's class. *)
Definition __str__ (self : instance) : string :=
  match self with Instance cls => __name__ cls end.

(** ** Floats as numbers *)

(** The rational number a finite float stands for (0 for an infinity or
    a NaN, which stand for none). *)
Definition float_value (x : float) : Q :=
  match x with
  | S754_finite s m e => inject_Z (signed s (Zpos m)) * inject_Z 2 ^ e
  | _ => 0
  end.

(** ** Whole numbers *)

(** [Decimal(n)] for an [int]. *)
Definition Decimal_of_Z (n : Z) : Decimal := Finite (n <? 0) (Z.to_N (Z.abs n)) 0.

(** The binary64 float of a whole number [z] other than 0 of magnitude
    below [2^53]: the mantissa is [|z|] shifted to 53 bits. *)
Definition whole_float (z : Z) : float :=
  S754_finite (z <? 0)
    (Z.to_pos (Z.abs z * 2 ^ (Float.prec - Zdigits2 z)))
    (Zdigits2 z - Float.prec).

(** ** Method calls *)

(** A method call [operation.validate_operands(a, b)] on an instance of
    one of the ten classes. *)
Definition validate_operands (v : variant) (a b : Decimal) : result unit :=
  match v with
  | Addition => Addition.validate_operands a b
  | Subtraction => Subtraction.validate_operands a b
  | Multiplication => Multiplication.validate_operands a b
  | Division => Division.validate_operands a b
  | Power => Power.validate_operands a b
  | Root => Root.validate_operands a b
  | Modulus => Modulus.validate_operands a b
  | IntegerDivision => IntegerDivision.validate_operands a b
  | Percentage => Percentage.validate_operands a b
  | AbsoluteDifference => AbsoluteDifference.validate_operands a b
  end.
(** * Properties *)

Import Context.

(** ** The module's own test cases *)

(** The valid cases of [tests/test_operations.py] that need no fractional
    power, run on the embedding with [test_valid]. *)

Example test_addition :
  forallb (fun '(a, b, expected) =>
             match @test_valid sample_libm Addition a b expected with
             | Ok true => true | _ => false end)
    [ (D false 5 0, D false 3 0, D false 8 0);
      (D true 5 0, D true 3 0, D true 8 0);
      (D true 5 0, D false 3 0, D true 2 0);
      (D false 5 0, D true 5 0, D false 0 0);
      (D false 55 (-1), D false 33 (-1), D false 88 (-1));
      (D false 1 10, D false 1 10, D false 20000000000 0) ] = true.
Proof. vm_compute. reflexivity. Qed.

Example test_subtraction :
  forallb (fun '(a, b, expected) =>
             match @test_valid sample_libm Subtraction a b expected with
             | Ok true => true | _ => false end)
    [ (D false 5 0, D false 3 0, D false 2 0);
      (D true 5 0, D true 3 0, D true 2 0);
      (D true 5 0, D false 3 0, D true 8 0);
      (D false 5 0, D false 5 0, D false 0 0);
      (D false 55 (-1), D false 33 (-1), D false 22 (-1));
      (D false 1 10, D false 1 9, D false 9000000000 0) ] = true.
Proof. vm_compute. reflexivity. Qed.

Example test_multiplication :
  forallb (fun '(a, b, expected) =>
             match @test_valid sample_libm Multiplication a b expected with
             | Ok true => true | _ => false end)
    [ (D false 5 0, D false 3 0, D false 15 0);
      (D true 5 0, D true 3 0, D false 15 0);
      (D true 5 0, D false 3 0, D true 15 0);
      (D false 5 0, D false 0 0, D false 0 0);
      (D false 55 (-1), D false 33 (-1), D false 1815 (-2));
      (D false 1 5, D false 1 5, D false 10000000000 0) ] = true.
Proof. vm_compute. reflexivity. Qed.

Example test_division :
  forallb (fun '(a, b, expected) =>
             match @test_valid sample_libm Division a b expected with
             | Ok true => true | _ => false end)
    [ (D false 6 0, D false 2 0, D false 3 0);
      (D true 6 0, D true 2 0, D false 3 0);
      (D true 6 0, D false 2 0, D true 3 0);
      (D false 55 (-1), D false 2 0, D false 275 (-2));
      (D false 0 0, D false 5 0, D false 0 0) ] = true.
Proof. vm_compute. reflexivity. Qed.

Example test_power :
  forallb (fun '(a, b, expected) =>
             match @test_valid sample_libm Power a b expected with
             | Ok true => true | _ => false end)
    [ (D false 2 0, D false 3 0, D false 8 0);
      (D false 5 0, D false 0 0, D false 1 0);
      (D false 5 0, D false 1 0, D false 5 0);
      (D false 25 (-1), D false 2 0, D false 625 (-2));
      (D false 0 0, D false 5 0, D false 0 0) ] = true.
Proof. vm_compute. reflexivity. Qed.

Example test_modulus :
  forallb (fun '(a, b, expected) =>
             match @test_valid sample_libm Modulus a b expected with
             | Ok true => true | _ => false end)
    [ (D false 10 0, D false 3 0, D false 1 0);
      (D false 10 0, D true 3 0, D true 2 0);
      (D true 10 0, D false 3 0, D false 2 0);
      (D false 55 (-1), D false 2 0, D false 15 (-1));
      (D false 10 0, D false 10 0, D false 0 0) ] = true.
Proof. vm_compute. reflexivity. Qed.

Example test_integer_division :
  forallb (fun '(a, b, expected) =>
             match @test_valid sample_libm IntegerDivision a b expected with
             | Ok true => true | _ => false end)
    [ (D false 10 0, D false 3 0, D false 3 0);
      (D true 10 0, D false 3 0, D true 4 0);
      (D false 10 0, D true 3 0, D true 4 0);
      (D false 78 (-1), D false 25 (-1), D false 3 0);
      (D false 45 (-1), D false 2 0, D false 2 0) ] = true.
Proof. vm_compute. reflexivity. Qed.

Example test_percentage :
  forallb (fun '(a, b, expected) =>
             match @test_valid sample_libm Percentage a b expected with
             | Ok true => true | _ => false end)
    [ (D false 50 0, D false 100 0, D false 50 0);
      (D false 25 0, D false 125 (-1), D false 200 0);
      (D false 1 0, D false 10 0, D false 10 0);
      (D false 10 0, D false 1 0, D false 1000 0);
      (D false 1 0, D false 3 0, D false 3333333333333333333333333333 (-26)) ] = true.
Proof. vm_compute. reflexivity. Qed.

Example test_absolute_difference :
  forallb (fun '(a, b, expected) =>
             match @test_valid sample_libm AbsoluteDifference a b expected with
             | Ok true => true | _ => false end)
    [ (D false 10 0, D false 5 0, D false 5 0);
      (D false 5 0, D false 10 0, D false 5 0);
      (D true 10 0, D true 5 0, D false 5 0);
      (D false 10 0, D true 5 0, D false 15 0);
      (D false 75 (-1), D false 75 (-1), D false 0 0);
      (D false 43 (-1), D false 51 (-1), D false 8 (-1)) ] = true.
Proof. vm_compute. reflexivity. Qed.

(** ** Counting digits *)

Lemma ndigits_fuel_pos fuel n : 1 <= ndigits_fuel fuel n.
Proof.
  revert n. induction fuel as [|fuel IH]; intros n; simpl; [lia|].
  destruct (n <? 10); [lia|]. specialize (IH (n / 10)). lia.
Qed.

Lemma ndigits_fuel_spec fuel n :
  0 < n < 2 ^ (Z.of_nat fuel + 1) ->
  10 ^ (ndigits_fuel fuel n - 1) <= n < 10 ^ ndigits_fuel fuel n.
Proof.
  revert n. induction fuel as [|fuel IH]; intros n Hn.
  - simpl in *. lia.
  - cbn [ndigits_fuel]. destruct (Z.ltb_spec n 10) as [Hlt|Hge].
    + simpl. lia.
    + assert (Hpow : 2 ^ (Z.of_nat (S fuel) + 1) = 2 * 2 ^ (Z.of_nat fuel + 1)).
      { rewrite <- Z.pow_succ_r by lia. f_equal. lia. }
      assert (Hq : 0 < n / 10 < 2 ^ (Z.of_nat fuel + 1)).
      { pose proof (Z.div_mod n 10 ltac:(lia)).
        pose proof (Z.mod_pos_bound n 10 ltac:(lia)). lia. }
      specialize (IH _ Hq).
      pose proof (ndigits_fuel_pos fuel (n / 10)) as Hpos.
      set (d := ndigits_fuel fuel (n / 10)) in *.
      replace (1 + d - 1) with (Z.succ (d - 1)) by lia.
      replace (1 + d) with (Z.succ d) by lia.
      rewrite !Z.pow_succ_r by lia.
      pose proof (Z.div_mod n 10 ltac:(lia)).
      pose proof (Z.mod_pos_bound n 10 ltac:(lia)). lia.
Qed.

Lemma ndigits_pos n : 1 <= ndigits n.
Proof. apply ndigits_fuel_pos. Qed.

Lemma ndigits_spec n : 0 < n -> 10 ^ (ndigits n - 1) <= n < 10 ^ ndigits n.
Proof.
  intros Hn. apply ndigits_fuel_spec. split; [lia|].
  rewrite Z2Nat.id by apply Z.log2_nonneg.
  replace (Z.log2 n + 1) with (Z.succ (Z.log2 n)) by lia.
  now apply Z.log2_spec.
Qed.

Lemma ndigits_le n k : 0 < n < 10 ^ k -> ndigits n <= k.
Proof.
  intros [Hn Hk]. destruct (Z.le_gt_cases (ndigits n) k) as [|Hgt]; [assumption|].
  pose proof (ndigits_spec n Hn) as [Hlo _].
  assert (0 <= k).
  { destruct (Z.le_gt_cases 0 k); [assumption|]. rewrite Z.pow_neg_r in Hk; lia. }
  pose proof (Z.pow_le_mono_r 10 k (ndigits n - 1) ltac:(lia) ltac:(lia)). lia.
Qed.

Lemma ndigits_ge n k : 10 ^ (k - 1) <= n -> 0 < n -> k <= ndigits n.
Proof.
  intros Hk Hn. destruct (Z.le_gt_cases k (ndigits n)) as [|Hgt]; [assumption|].
  pose proof (ndigits_spec n Hn) as [_ Hhi]. pose proof (ndigits_pos n).
  pose proof (Z.pow_le_mono_r 10 (ndigits n) (k - 1) ltac:(lia) ltac:(lia)). lia.
Qed.

Lemma ndigits_zero : ndigits 0 = 1.
Proof. reflexivity. Qed.

(** ** Rounding to the context *)

Lemma context_values :
  prec = 28 /\ Emax = 999999 /\ Etiny = -1000026 /\ Etop = 999972.
Proof. repeat split. Qed.

Lemma div_pow10_bound c k nd p :
  0 <= c < 10 ^ nd -> 0 <= k -> 0 <= p -> nd - k <= p -> c / 10 ^ k < 10 ^ p.
Proof.
  intros [Hc0 Hc] Hk Hp Hnd.
  apply Z.div_lt_upper_bound; [apply Z.pow_pos_nonneg; lia|].
  rewrite <- Z.pow_add_r by lia.
  destruct (Z.le_gt_cases 0 nd).
  - pose proof (Z.pow_le_mono_r 10 nd (k + p) ltac:(lia) ltac:(lia)). lia.
  - rewrite Z.pow_neg_r in Hc; lia.
Qed.

Lemma in_context_intro s (c e : Z) :
  0 <= c < 10 ^ prec -> Etiny <= e -> e <= Etop ->
  in_context (Finite s (Z.to_N c) e).
Proof.
  intros [Hc0 Hc] He1 He2. pose proof context_values as (Hp & HM & Ht & HT).
  simpl. split; [assumption|].
  destruct (N.eqb_spec (Z.to_N c) 0) as [Hz|Hnz]; [lia|].
  rewrite Z2N.id by lia.
  assert (ndigits c <= prec) by (apply ndigits_le; lia).
  lia.
Qed.

Lemma fix_in_context d : in_context d -> Dec._fix d = Ok d.
Proof.
  destruct d as [s c e| | |]; simpl; try contradiction.
  intros [He H]. pose proof context_values as (Hp & HM & Ht & HT).
  destruct (N.eqb_spec c 0) as [->|Hnz].
  - simpl. f_equal. f_equal. lia.
  - destruct H as [Hd Ha].
    destruct (Z.eqb_spec (Z.of_N c) 0) as [|_]; [lia|].
    destruct (Z.ltb_spec Etop (ndigits (Z.of_N c) + e - prec)); [lia|].
    destruct (Z.ltb_spec e (Z.max (ndigits (Z.of_N c) + e - prec) Etiny)); [lia|].
    reflexivity.
Qed.

(** The outcome of [_fix] on a finite number: Overflow, or a number of the
    same sign that the context holds. *)
Lemma fix_finite s c e :
  Dec._fix (Finite s c e) = Raise Overflow \/
  exists c' e', Dec._fix (Finite s c e) = Ok (Finite s c' e')
                /\ in_context (Finite s c' e').
Proof.
  pose proof context_values as (Hp & HM & Ht & HT).
  unfold Dec._fix. cbv zeta.
  destruct (Z.eqb_spec (Z.of_N c) 0) as [Hz|Hnz].
  { right. exists 0%N, (Z.min (Z.max e Etiny) Emax). split; [reflexivity|].
    simpl. lia. }
  set (nd := ndigits (Z.of_N c)).
  destruct (Z.ltb_spec Etop (nd + e - prec)) as [|Hov]; [now left|].
  remember (Z.max (nd + e - prec) Etiny) as exp_min eqn:Hexp.
  assert (Hnd : nd = ndigits (Z.of_N c)) by reflexivity. clearbody nd.
  destruct (Z.ltb_spec e exp_min) as [Hround|Hkeep].
  2:{ right. exists c, e. split; [reflexivity|]. simpl.
      destruct (N.eqb_spec c 0); [lia|]. rewrite <- Hnd. lia. }
  assert (Hc : 0 < Z.of_N c < 10 ^ nd).
  { subst nd. pose proof (ndigits_spec (Z.of_N c)). lia. }
  assert (Hq : 0 <= Z.of_N c / 10 ^ (exp_min - e) < 10 ^ prec).
  { split; [apply Z.div_pos; [lia|apply Z.pow_pos_nonneg; lia]|].
    apply (div_pow10_bound _ _ nd); lia. }
  remember (Z.of_N c / 10 ^ (exp_min - e)) as q eqn:Hqdef.
  destruct (Dec.round_half_even_up (Z.of_N c) (exp_min - e)).
  - destruct (Z.ltb_spec prec (ndigits (q + 1))) as [Hgrow|Hfit].
    + destruct (Z.ltb_spec Etop (exp_min + 1)); [now left|].
      right. exists (Z.to_N ((q + 1) / 10)), (exp_min + 1). split; [reflexivity|].
      apply in_context_intro; try lia.
      split; [apply Z.div_pos; lia|].
      apply Z.div_lt_upper_bound; [lia|].
      assert (10 ^ prec <= 10 * 10 ^ prec) by lia. lia.
    + right. exists (Z.to_N (q + 1)), exp_min. split; [reflexivity|].
      simpl. split; [lia|].
      destruct (N.eqb_spec (Z.to_N (q + 1)) 0); [lia|].
      rewrite Z2N.id by lia. lia.
  - right. exists (Z.to_N q), exp_min. split; [reflexivity|].
    apply in_context_intro; lia.
Qed.

Lemma fix_idempotent d d' :
  Dec.is_finite d = true -> Dec._fix d = Ok d' -> Dec._fix d' = Ok d'.
Proof.
  destruct d as [s c e| | |]; try discriminate. intros _ H.
  destruct (fix_finite s c e) as [Hov|(c' & e' & Heq & Hin)]; [congruence|].
  rewrite Heq in H. injection H as <-. now apply fix_in_context.
Qed.

(** The sign plays no part in rounding. *)
Lemma fix_sign s s' c e c' e' :
  Dec._fix (Finite s c e) = Ok (Finite s c' e') ->
  Dec._fix (Finite s' c e) = Ok (Finite s' c' e').
Proof.
  unfold Dec._fix. cbv zeta.
  repeat match goal with
         | |- context [if ?b then _ else _] => destruct b
         end; intros H; try discriminate; injection H as <- <-; reflexivity.
Qed.

Lemma fix_sign_overflow s s' c e :
  Dec._fix (Finite s c e) = Raise Overflow ->
  Dec._fix (Finite s' c e) = Raise Overflow.
Proof.
  unfold Dec._fix. cbv zeta.
  repeat match goal with
         | |- context [if ?b then _ else _] => destruct b
         end; intros H; try discriminate; reflexivity.
Qed.

(** A number whose leading digit is below Emax does not overflow. *)
Lemma fix_succeeds s c e :
  (c = 0%N \/ ndigits (Z.of_N c) + e <= Emax) -> succeeds (Dec._fix (Finite s c e)).
Proof.
  pose proof context_values as (Hp & HM & Ht & HT).
  intros Hc. unfold Dec._fix. cbv zeta.
  destruct (Z.eqb_spec (Z.of_N c) 0) as [Hz|Hnz]; [eexists; reflexivity|].
  destruct Hc as [Hc|Hc]; [lia|].
  destruct (Z.ltb_spec Etop (ndigits (Z.of_N c) + e - prec)); [lia|].
  match goal with |- context [e <? ?x] => destruct (Z.ltb_spec e x) end;
    [|eexists; reflexivity].
  destruct (Dec.round_half_even_up _ _); [|eexists; reflexivity].
  match goal with |- context [prec <? ?x] => destruct (Z.ltb_spec prec x) end;
    [|eexists; reflexivity].
  match goal with |- context [Etop <? ?x] => destruct (Z.ltb_spec Etop x) as [Hov|] end;
    [|eexists; reflexivity].
  lia.
Qed.

(** ** Sums, differences and products *)

Lemma signed_negb s c : signed (negb s) c = - signed s c.
Proof. destruct s; simpl; lia. Qed.

Lemma signed_abs s c : 0 <= c -> Z.abs (signed s c) = c.
Proof. destruct s; simpl; lia. Qed.

Lemma aligned_bound c e' e :
  0 <= c -> e <= e' -> c * 10 ^ (e' - e) < 10 ^ (ndigits c + e' - e).
Proof.
  intros Hc He. pose proof (ndigits_pos c).
  replace (ndigits c + e' - e) with (ndigits c + (e' - e)) by lia.
  rewrite Z.pow_add_r by lia.
  assert (0 < 10 ^ (e' - e)) by (apply Z.pow_pos_nonneg; lia).
  assert (c < 10 ^ ndigits c).
  { destruct (Z.eq_dec c 0) as [->|]; [apply Z.pow_pos_nonneg; lia|].
    apply ndigits_spec. lia. }
  nia.
Qed.

(** What [a + b] is on two finite numbers. *)
Lemma add_finite s1 c1 e1 s2 c2 e2 :
  let e := Z.min e1 e2 in
  let z := signed s1 (Z.of_N c1 * 10 ^ (e1 - e))
           + signed s2 (Z.of_N c2 * 10 ^ (e2 - e)) in
  Dec.add (Finite s1 c1 e1) (Finite s2 c2 e2)
  = if z =? 0 then Dec._fix (Finite (s1 && s2) 0 e)
    else Dec._fix (Finite (z <? 0) (Z.to_N (Z.abs z)) e).
Proof. reflexivity. Qed.

Lemma add_finite_outcome a b :
  Dec.is_finite a = true -> Dec.is_finite b = true ->
  Dec.add a b = Raise Overflow \/
  exists r, Dec.add a b = Ok r /\ in_context r.
Proof.
  destruct a as [s1 c1 e1| | |], b as [s2 c2 e2| | |]; try discriminate.
  intros _ _. rewrite add_finite. cbv zeta.
  match goal with |- context [if ?c then _ else _] => destruct c end;
    match goal with |- context [Dec._fix (Finite ?s ?c ?e)] =>
      destruct (fix_finite s c e) as [->|(c' & e' & -> & Hin)] end;
    eauto.
Qed.

Lemma add_small s1 c1 e1 s2 c2 e2 K :
  ndigits (Z.of_N c1) + e1 <= K -> ndigits (Z.of_N c2) + e2 <= K -> K < Emax ->
  succeeds (Dec.add (Finite s1 c1 e1) (Finite s2 c2 e2)).
Proof.
  intros H1 H2 HK. rewrite add_finite. cbv zeta.
  set (e := Z.min e1 e2).
  pose proof (aligned_bound (Z.of_N c1) e1 e ltac:(lia) ltac:(lia)) as HA.
  pose proof (aligned_bound (Z.of_N c2) e2 e ltac:(lia) ltac:(lia)) as HB.
  remember (Z.of_N c1 * 10 ^ (e1 - e)) as A.
  remember (Z.of_N c2 * 10 ^ (e2 - e)) as B.
  assert (0 <= A) by (subst A; apply Z.mul_nonneg_nonneg; [lia|apply Z.pow_nonneg; lia]).
  assert (0 <= B) by (subst B; apply Z.mul_nonneg_nonneg; [lia|apply Z.pow_nonneg; lia]).
  destruct (Z.eqb_spec (signed s1 A + signed s2 B) 0) as [|Hnz];
    apply fix_succeeds; [now left|right].
  rewrite Z2N.id by lia.
  assert (Hle : 10 ^ (ndigits (Z.of_N c1) + e1 - e) <= 10 ^ (K - e))
    by (apply Z.pow_le_mono_r; lia).
  assert (Hle' : 10 ^ (ndigits (Z.of_N c2) + e2 - e) <= 10 ^ (K - e))
    by (apply Z.pow_le_mono_r; lia).
  assert (Hz : 0 < Z.abs (signed s1 A + signed s2 B) < 10 ^ (K - e + 1)).
  { pose proof (ndigits_pos (Z.of_N c1)).
    rewrite Z.pow_add_r by lia. destruct s1, s2; simpl in *; lia. }
  pose proof (ndigits_le _ _ Hz). lia.
Qed.

Lemma mul_small s1 c1 e1 s2 c2 e2 :
  ndigits (Z.of_N c1) + e1 + (ndigits (Z.of_N c2) + e2) <= Emax ->
  succeeds (Dec.mul (Finite s1 c1 e1) (Finite s2 c2 e2)).
Proof.
  intros H. simpl. apply fix_succeeds.
  destruct (N.eq_dec (c1 * c2)%N 0%N) as [|Hnz]; [now left|right].
  assert (Hc1 : 0 < Z.of_N c1) by (destruct c1; [contradiction|lia]).
  assert (Hc2 : 0 < Z.of_N c2) by (destruct c2; [rewrite N.mul_0_r in Hnz; contradiction|lia]).
  pose proof (ndigits_spec _ Hc1) as [_ Hu1].
  pose proof (ndigits_spec _ Hc2) as [_ Hu2].
  pose proof (ndigits_pos (Z.of_N c1)). pose proof (ndigits_pos (Z.of_N c2)).
  assert (Hp : 0 < Z.of_N (c1 * c2)%N < 10 ^ (ndigits (Z.of_N c1) + ndigits (Z.of_N c2))).
  { rewrite Z.pow_add_r by lia. rewrite N2Z.inj_mul. nia. }
  pose proof (ndigits_le _ _ Hp). lia.
Qed.

Lemma fix_raise d e : Dec._fix d = Raise e -> e = Overflow.
Proof.
  destruct d as [s c n| | |]; try discriminate.
  destruct (fix_finite s c n) as [->|(c' & e' & -> & _)]; congruence.
Qed.

Lemma in_context_copy_abs d : in_context d -> in_context (Dec.copy_abs d).
Proof. destruct d; simpl; auto. Qed.

Lemma in_context_finite d : in_context d -> Dec.is_finite d = true.
Proof. destruct d; simpl; tauto. Qed.

Lemma add_raise a b e :
  Dec.add a b = Raise e ->
  e = Overflow /\ Dec.is_finite a = true /\ Dec.is_finite b = true
  \/ e = InvalidOperation /\ (Dec.is_finite a = false \/ Dec.is_finite b = false).
Proof.
  destruct a as [s1 c1 e1|s1|s1 p1|s1 p1], b as [s2 c2 e2|s2|s2 p2|s2 p2];
    try (cbn; discriminate);
    try (cbn; intros [= <-]; right; split; [reflexivity|auto]).
  - rewrite add_finite. cbv zeta.
    destruct (_ =? 0); intros H%fix_raise; auto.
  - cbn. destruct (xorb s1 s2); [|discriminate].
    intros [= <-]. right. auto.
Qed.

Lemma sub_finite a b :
  Dec.is_finite a = true -> Dec.is_finite b = true ->
  Dec.sub a b = Dec.add a (Dec.copy_negate b).
Proof.
  destruct a as [s1 c1 e1| | |], b as [s2 c2 e2| | |]; try discriminate.
  reflexivity.
Qed.

Lemma sub_raise a b e :
  Dec.sub a b = Raise e ->
  e = Overflow /\ Dec.is_finite a = true /\ Dec.is_finite b = true
  \/ e = InvalidOperation /\ (Dec.is_finite a = false \/ Dec.is_finite b = false).
Proof.
  destruct a as [s1 c1 e1|s1|s1 p1|s1 p1], b as [s2 c2 e2|s2|s2 p2|s2 p2];
    try (cbn; discriminate);
    try (cbn; intros [= <-]; right; split; [reflexivity|auto]).
  - rewrite sub_finite by reflexivity. intros H%add_raise. exact H.
  - unfold Dec.sub. cbn. destruct (xorb s1 (negb s2)); [|discriminate].
    intros [= <-]. right. auto.
Qed.

Lemma mul_raise a b e :
  Dec.mul a b = Raise e ->
  e = Overflow /\ Dec.is_finite a = true /\ Dec.is_finite b = true
  \/ e = InvalidOperation /\ (Dec.is_finite a = false \/ Dec.is_finite b = false).
Proof.
  destruct a as [s1 c1 e1|s1|s1 p1|s1 p1], b as [s2 c2 e2|s2|s2 p2|s2 p2];
    try (cbn; discriminate);
    try (cbn; intros [= <-]; right; split; [reflexivity|auto]).
  - unfold Dec.mul. intros H%fix_raise; auto.
  - cbn. destruct (c1 =? 0)%N; [|discriminate]. intros [= <-]. right. auto.
  - cbn. destruct (c2 =? 0)%N; [|discriminate]. intros [= <-]. right. auto.
Qed.

Lemma abs_raise a e :
  Dec.abs a = Raise e ->
  e = Overflow /\ Dec.is_finite a = true
  \/ e = InvalidOperation /\ Dec.is_finite a = false.
Proof.
  destruct a as [s c n|s|s p|s p]; try (cbn; discriminate).
  - unfold Dec.abs. intros H%fix_raise. auto.
  - cbn. intros [= <-]. auto.
Qed.

Lemma sub_finite_ok a b r :
  Dec.is_finite a = true -> Dec.is_finite b = true ->
  Dec.sub a b = Ok r -> in_context r.
Proof.
  intros Ha Hb. rewrite sub_finite by assumption.
  destruct b as [s2 c2 e2| | |]; try discriminate. cbn [Dec.copy_negate].
  destruct (add_finite_outcome a (Finite (negb s2) c2 e2) Ha eq_refl)
    as [->|(r' & -> & Hin)]; [discriminate|].
  now intros [= <-].
Qed.

Lemma abs_in_context r : in_context r -> Dec.abs r = Ok (Dec.copy_abs r).
Proof.
  intros H. pose proof (in_context_copy_abs _ H) as H'.
  destruct r; try contradiction. now apply fix_in_context.
Qed.

Lemma sub_finite_result a b r :
  Dec.sub a b = Ok r -> Dec.is_finite r = true ->
  Dec.is_finite a = true /\ Dec.is_finite b = true.
Proof.
  destruct a as [s1 c1 e1|s1|s1 p1|s1 p1], b as [s2 c2 e2|s2|s2 p2|s2 p2];
    try (cbn; discriminate); try (cbn; intros [= <-]; discriminate).
  - auto.
  - cbn. destruct (xorb s1 (negb s2)); [discriminate|]. intros [= <-]. discriminate.
Qed.

Lemma absolute_difference_raise a b e :
  AbsoluteDifference.execute a b = Raise e ->
  e = Overflow /\ Dec.is_finite a = true /\ Dec.is_finite b = true
  \/ e = InvalidOperation /\ (Dec.is_finite a = false \/ Dec.is_finite b = false).
Proof.
  unfold AbsoluteDifference.execute.
  cbn [mbind result_bind AbsoluteDifference.validate_operands Operation.validate_operands].
  destruct (Dec.sub a b) as [r|e'] eqn:Hsub; cbn [mbind result_bind].
  - intros [[-> Hr]|[-> Hr]]%abs_raise.
    + left. split; [reflexivity|]. now apply (sub_finite_result a b r).
    + right. split; [reflexivity|].
      destruct (Dec.is_finite a) eqn:Ha; [|now left].
      destruct (Dec.is_finite b) eqn:Hb; [|now right].
      pose proof (sub_finite_ok a b r Ha Hb Hsub) as Hin%in_context_finite.
      congruence.
  - intros [= <-]. now apply sub_raise.
Qed.

(** ** Values *)

Lemma ten_nonzero : ~ (inject_Z 10 == 0)%Q.
Proof. discriminate. Qed.

(** Writing a number at a smaller exponent does not change its value. *)
Lemma value_aligned s (c e' e : Z) :
  e <= e' ->
  (inject_Z (signed s (c * 10 ^ (e' - e))) * inject_Z 10 ^ e
   == inject_Z (signed s c) * inject_Z 10 ^ e')%Q.
Proof.
  intros He.
  replace e' with ((e' - e) + e) at 2 by lia.
  rewrite Qpower_plus by apply ten_nonzero.
  rewrite <- (Zpower_Qpower 10 (e' - e)) by lia.
  destruct s; simpl signed.
  - rewrite !inject_Z_opp, inject_Z_mult. ring.
  - rewrite inject_Z_mult. ring.
Qed.

Lemma value_exact_abs_difference a b :
  Dec.is_finite a = true -> Dec.is_finite b = true ->
  (value (exact_abs_difference a b) == Qabs (value a - value b))%Q.
Proof.
  destruct a as [s1 c1 e1| | |], b as [s2 c2 e2| | |]; try discriminate.
  intros _ _. unfold exact_abs_difference, value. cbv zeta.
  set (e := Z.min e1 e2).
  rewrite <- (value_aligned s1 (Z.of_N c1) e1 e) by lia.
  rewrite <- (value_aligned s2 (Z.of_N c2) e2 e) by lia.
  set (A := signed s1 (Z.of_N c1 * 10 ^ (e1 - e))).
  set (B := signed s2 (Z.of_N c2 * 10 ^ (e2 - e))).
  rewrite Z2N.id by lia. cbn [signed].
  assert (Hd : (inject_Z A * inject_Z 10 ^ e - inject_Z B * inject_Z 10 ^ e
                == inject_Z (A - B) * inject_Z 10 ^ e)%Q).
  { unfold Z.sub. rewrite inject_Z_plus, inject_Z_opp. ring. }
  rewrite Hd, Qabs_Qmult.
  rewrite (Qabs_pos (inject_Z 10 ^ e)) by (apply Qlt_le_weak, Qpower_0_lt; reflexivity).
  reflexivity.
Qed.

(** ** AbsoluteDifference *)

Lemma fix_then_abs s c e :
  (x ← Dec._fix (Finite s c e); Dec.abs x) = Dec._fix (Finite false c e).
Proof.
  destruct (fix_finite s c e) as [H|(c' & e' & H & Hin)].
  - rewrite H, (fix_sign_overflow s false c e H). reflexivity.
  - rewrite H, (fix_sign s false c e c' e' H). cbn [mbind result_bind].
    now rewrite (abs_in_context _ Hin).
Qed.

Lemma absolute_difference_rounds a b :
  Dec.is_finite a = true -> Dec.is_finite b = true ->
  AbsoluteDifference.execute a b = Dec._fix (exact_abs_difference a b).
Proof.
  destruct a as [s1 c1 e1| | |], b as [s2 c2 e2| | |]; try discriminate.
  intros _ _. unfold AbsoluteDifference.execute.
  cbn [mbind result_bind AbsoluteDifference.validate_operands Operation.validate_operands].
  rewrite sub_finite by reflexivity. cbn [Dec.copy_negate].
  rewrite add_finite. cbv zeta. unfold exact_abs_difference. cbv zeta.
  rewrite signed_negb. rewrite Z.add_opp_r.
  destruct (Z.eqb_spec (signed s1 (Z.of_N c1 * 10 ^ (e1 - Z.min e1 e2))
                        - signed s2 (Z.of_N c2 * 10 ^ (e2 - Z.min e1 e2))) 0) as [->|_].
  - apply fix_then_abs.
  - apply fix_then_abs.
Qed.

Lemma abs_not_negative a r : Dec.abs a = Ok r -> ~ negative r.
Proof.
  unfold negative.
  destruct a as [s c e|s|s p|s p]; try (cbn; discriminate).
  - unfold Dec.abs. cbn [Dec.copy_abs].
    destruct (fix_finite false c e) as [->|(c' & e' & -> & _)]; [discriminate|].
    intros [= <-]. unfold Dec.lt, Dec.zero. cbn [Dec.is_nan orb Dec._cmp signed].
    rewrite Z.mul_0_l.
    assert (0 <= Z.of_N c' * 10 ^ (e' - Z.min e' 0)).
    { apply Z.mul_nonneg_nonneg; [lia|apply Z.pow_nonneg; lia]. }
    destruct (Z.compare_spec (Z.of_N c' * 10 ^ (e' - Z.min e' 0)) 0); try discriminate; lia.
  - cbn. intros [= <-]. discriminate.
  - cbn. intros [= <-]. discriminate.
Qed.

Lemma absolute_difference_not_negative a b r :
  AbsoluteDifference.execute a b = Ok r -> ~ negative r.
Proof.
  unfold AbsoluteDifference.execute.
  cbn [mbind result_bind AbsoluteDifference.validate_operands Operation.validate_operands].
  destruct (Dec.sub a b) as [d|]; cbn [mbind result_bind]; [|discriminate].
  apply abs_not_negative.
Qed.

(** ** Validation against a zero divisor *)

Lemma eq_zero_of_zero (s : bool) (e : Z) :
  Dec.eq (Finite s 0 e) Dec.zero = Ok true.
Proof. destruct s; reflexivity. Qed.

(** C1.  For Division, Modulus, IntegerDivision and Percentage, and for
    every first operand [a] (a number, an infinity or a NaN), [execute]
    on [a] and a zero of any sign and exponent raises the ValidationError
    "Division by zero is not allowed", so no result is produced. *)
Theorem zero_divisor_rejected (a : Decimal) (s : bool) (e : Z) :
  let err := Raise (ValidationError "Division by zero is not allowed") in
  Division.execute a (Finite s 0 e) = err /\
  Modulus.execute a (Finite s 0 e) = err /\
  IntegerDivision.execute a (Finite s 0 e) = err /\
  Percentage.execute a (Finite s 0 e) = err.
Proof.
  unfold Division.execute, Modulus.execute, IntegerDivision.execute,
    Percentage.execute, Division.validate_operands, Modulus.validate_operands,
    IntegerDivision.validate_operands, Percentage.validate_operands.
  cbn [mbind result_bind Operation.validate_operands].
  rewrite eq_zero_of_zero. repeat split.
Qed.

Lemma succeeds_bind {A B} (r : result A) (k : A -> result B) v :
  r = Ok v -> succeeds (k v) -> succeeds (x ← r; k x).
Proof. intros -> H. exact H. Qed.

Lemma sub_small s1 c1 e1 s2 c2 e2 K :
  ndigits (Z.of_N c1) + e1 <= K -> ndigits (Z.of_N c2) + e2 <= K -> K < Emax ->
  succeeds (Dec.sub (Finite s1 c1 e1) (Finite s2 c2 e2)).
Proof.
  intros. rewrite sub_finite by reflexivity. now apply (add_small _ _ _ _ _ _ K).
Qed.

(** C8 (amended).  Addition, Subtraction, Multiplication and
    AbsoluteDifference have no validation rule and never raise a
    ValidationError: [execute] fails only by a signal the decimal context
    traps, Overflow on two numbers whose rounded result is beyond Emax,
    InvalidOperation on a signaling NaN or an undefined operation on an
    infinity.  On two numbers below [10^499999] in magnitude, zero and
    negative ones included, it returns a result. *)
Theorem unvalidated_variants_outcomes (f : Decimal -> Decimal -> result Decimal) :
  List.In f [Addition.execute; Subtraction.execute; Multiplication.execute;
             AbsoluteDifference.execute] ->
  forall a b,
    (forall e, f a b = Raise e ->
       e = Overflow /\ Dec.is_finite a = true /\ Dec.is_finite b = true
       \/ e = InvalidOperation
          /\ (Dec.is_finite a = false \/ Dec.is_finite b = false)) /\
    (Dec.is_finite a = true -> Dec.is_finite b = true ->
     adjusted a < 499999 -> adjusted b < 499999 -> succeeds (f a b)).
Proof.
  pose proof context_values as (Hp & HM & Ht & HT).
  intros Hf a b. simpl in Hf.
  destruct Hf as [<-|[<-|[<-|[<-|[]]]]]; (split; [intros e|intros Ha Hb Haa Hab]).
  - apply add_raise.
  - destruct a as [s1 c1 e1| | |], b as [s2 c2 e2| | |]; try discriminate.
    simpl in Haa, Hab. apply (add_small _ _ _ _ _ _ 499999); lia.
  - apply sub_raise.
  - destruct a as [s1 c1 e1| | |], b as [s2 c2 e2| | |]; try discriminate.
    simpl in Haa, Hab. apply (sub_small _ _ _ _ _ _ 499999); lia.
  - apply mul_raise.
  - destruct a as [s1 c1 e1| | |], b as [s2 c2 e2| | |]; try discriminate.
    simpl in Haa, Hab. apply mul_small; lia.
  - apply absolute_difference_raise.
  - unfold AbsoluteDifference.execute.
    cbn [mbind result_bind AbsoluteDifference.validate_operands Operation.validate_operands].
    assert (Hs : succeeds (Dec.sub a b)).
    { destruct a as [s1 c1 e1| | |], b as [s2 c2 e2| | |]; try discriminate.
      simpl in Haa, Hab. apply (sub_small _ _ _ _ _ _ 499999); lia. }
    destruct Hs as [r Hr]. apply (succeeds_bind _ _ r Hr).
    pose proof (sub_finite_ok a b r Ha Hb Hr) as Hin.
    rewrite (abs_in_context r Hin). now eexists.
Qed.

Lemma unvalidated_variants_outcomes_witness :
  succeeds (Multiplication.execute (Finite true 3 0) (Finite false 0 0)).
Proof.
  apply (unvalidated_variants_outcomes Multiplication.execute
           ltac:(simpl; tauto) (Finite true 3 0) (Finite false 0 0));
    reflexivity.
Defined.

(** Against C8 as stated: a product of two finite operands that is beyond
    the largest exponent of the context raises Overflow, and the
    difference of two equal infinities raises InvalidOperation. *)
Lemma unvalidated_variants_can_fail :
  Multiplication.execute (Finite false 1 999999) (Finite false 10 0) = Raise Overflow /\
  Subtraction.execute (Infinity false) (Infinity false) = Raise InvalidOperation.
Proof. split; reflexivity. Qed.

(** C6 (amended).  AbsoluteDifference returns a result that is never
    negative.  On two numbers it is the absolute value of the exact
    difference rounded by the context (28 digits, half to even): exactly
    [|a - b|] whenever that has at most 28 digits and an exponent the
    context holds, as for 4.3 and 5.1, which give 0.8. *)
Theorem absolute_difference_rounded (a b : Decimal) :
  (forall r, AbsoluteDifference.execute a b = Ok r -> ~ negative r) /\
  (Dec.is_finite a = true -> Dec.is_finite b = true ->
   AbsoluteDifference.execute a b = Dec._fix (exact_abs_difference a b) /\
   (value (exact_abs_difference a b) == Qabs (value a - value b))%Q /\
   (in_context (exact_abs_difference a b) ->
    AbsoluteDifference.execute a b = Ok (exact_abs_difference a b))).
Proof.
  split; [intros r; apply absolute_difference_not_negative|].
  intros Ha Hb. split; [|split].
  - now apply absolute_difference_rounds.
  - now apply value_exact_abs_difference.
  - intros Hin. rewrite absolute_difference_rounds by assumption.
    now apply fix_in_context.
Qed.

Lemma absolute_difference_rounded_witness :
  AbsoluteDifference.execute (Finite false 43 (-1)) (Finite false 51 (-1))
  = Ok (Finite false 8 (-1)).
Proof.
  apply (proj2 (absolute_difference_rounded (Finite false 43 (-1)) (Finite false 51 (-1)))
           eq_refl eq_refl).
  vm_compute. intuition discriminate.
Defined.

(** Against C6 as stated: the difference of [1E+29] and [1] has 29 digits
    and is rounded to [1.000000000000000000000000000E+29], which is not
    [|a - b|]. *)
Lemma absolute_difference_inexact :
  AbsoluteDifference.execute (Finite false 1 29) (Finite false 1 0)
    = Ok (Finite false 1000000000000000000000000000 2) /\
  ~ (value (Finite false 1000000000000000000000000000 2)
     == Qabs (value (Finite false 1 29) - value (Finite false 1 0)))%Q.
Proof. split; [reflexivity|]. vm_compute. discriminate. Qed.

(** ** Power and Root *)

Ltac run := cbn [mbind result_bind mret result_ret Operation.validate_operands].

(** What [d < 0] and [d == 0] say. *)
Lemma lt_zero_cases d :
  (negative d /\ Dec.is_nan d = false)
  \/ (nonnegative d /\ Dec.is_nan d = false)
  \/ (Dec.lt d Dec.zero = Raise InvalidOperation /\ Dec.is_nan d = true).
Proof.
  unfold negative, nonnegative, Dec.lt.
  destruct d as [s c e|s|s p|s p]; cbn [Dec.is_nan orb Dec.zero]; auto;
    destruct (Dec._cmp _ _); auto.
Qed.

Lemma nonnegative_sign s c e :
  nonnegative (Finite s c e) -> s = false \/ c = 0%N.
Proof.
  unfold nonnegative, Dec.lt, Dec.zero. cbn [Dec.is_nan orb Dec._cmp signed].
  rewrite Z.mul_0_l. destruct s; [|auto]. cbn [signed].
  destruct (N.eq_dec c 0%N) as [|Hc]; [auto|].
  assert (0 < Z.of_N c * 10 ^ (e - Z.min e 0)).
  { apply Z.mul_pos_pos; [lia|apply Z.pow_pos_nonneg; lia]. }
  destruct (Z.compare_spec (- (Z.of_N c * 10 ^ (e - Z.min e 0))) 0); try lia.
  discriminate.
Qed.

Lemma round_aux_not_negative m e l :
  Float.ltb (binary_round_aux Float.prec Float.emax false m e l) Float.zero = false.
Proof.
  unfold binary_round_aux.
  destruct (shr_fexp _ _ _ _ _) as [mrs' e'].
  destruct (shr_fexp _ _ _ _ _) as [mrs'' e''].
  destruct (shr_m mrs''); [reflexivity| |reflexivity].
  destruct (e'' <=? _); reflexivity.
Qed.

Lemma normalize_not_negative m e :
  0 <= m ->
  Float.ltb (binary_normalize Float.prec Float.emax m e false) Float.zero = false.
Proof.
  intros Hm. destruct m as [|p|p]; [reflexivity| |lia].
  unfold binary_normalize, binary_round.
  destruct (shl_align _ _ _). apply round_aux_not_negative.
Qed.

(** The float of a number that is not below zero is not below zero. *)
Lemma of_decimal_not_negative d x :
  nonnegative d -> Float.of_decimal d = Ok x -> Float.ltb x Float.zero = false.
Proof.
  destruct d as [s c e|s|s p|s p]; try discriminate.
  - intros Hd%nonnegative_sign. unfold Float.of_decimal.
    destruct c as [|p]; [intros [= <-]; now destruct s|].
    destruct Hd as [->|]; [|discriminate].
    destruct (0 <=? e).
    + intros [= <-]. apply normalize_not_negative. cbn [signed].
      apply Z.mul_nonneg_nonneg; [lia|apply Z.pow_nonneg; lia].
    + destruct (SFdiv_core_binary _ _ _ _ _ _) as [[mz ez] lz].
      intros [= <-]. apply round_aux_not_negative.
  - unfold nonnegative. destruct s; [discriminate|]. now intros _ [= <-].
Qed.

(** With a base that is not below zero, [pow] returns a float unless the
    base is zero and the exponent below zero, or the C library reports an
    error. *)
Lemma pow_returns_float `{Libm} x y :
  Float.ltb x Float.zero = false ->
  Float.eqb x Float.zero = false \/ Float.ltb y Float.zero = false ->
  pow_in_range x y ->
  exists z, Float.pow x y = Ok (PyFloat z).
Proof.
  intros Hx Hy Hr. unfold Float.pow.
  destruct (Float.eqb y Float.zero); [eauto|].
  destruct (Float.is_nan x); [eauto|].
  destruct (Float.is_nan y); [eauto|].
  destruct (Float.is_infinity y).
  { cbv zeta. destruct (Float.eqb _ Float.one); [eauto|].
    destruct (Bool.eqb _ _); eauto. }
  destruct (Float.is_infinity x).
  { cbv zeta. destruct (Float.ltb Float.zero y); eauto. }
  destruct (Float.eqb x Float.zero) eqn:Hx0.
  { cbv zeta. destruct Hy as [Hy|Hy]; [discriminate|rewrite Hy; eauto]. }
  rewrite Hx. cbn [andb]. cbv zeta.
  destruct (Float.eqb x Float.one); [eauto|].
  unfold pow_in_range in Hr. destruct (c_pow x y) as [ix errno].
  cbn [fst snd] in Hr. rewrite Hr. cbn. eauto.
Qed.

Lemma power_validate_cases a b :
  negative b /\ Power.validate_operands a b
                = Raise (ValidationError "Negative exponents not supported")
  \/ nonnegative b /\ Power.validate_operands a b = Ok tt
  \/ Dec.lt b Dec.zero = Raise InvalidOperation
     /\ Power.validate_operands a b = Raise InvalidOperation.
Proof.
  unfold Power.validate_operands. run.
  destruct (lt_zero_cases b) as [[H _]|[[H _]|[H Hn]]]; rewrite H; run; auto.
Qed.

(** The float part of Power and Root never raises a ValidationError. *)
Lemma of_decimal_raise d e :
  Float.of_decimal d = Raise e -> is_validation_error e = false.
Proof.
  destruct d as [s c n|s|s p|s p]; cbn; try discriminate.
  - destruct c; [discriminate|]. destruct (0 <=? n); [discriminate|].
    destruct (SFdiv_core_binary _ _ _ _ _ _) as [[? ?] ?]. discriminate.
  - now intros [= <-].
Qed.

Lemma pow_raise `{Libm} x y e :
  Float.pow x y = Raise e -> is_validation_error e = false.
Proof.
  unfold Float.pow.
  repeat match goal with
         | |- context [if ?b then _ else _] => destruct b
         | |- context [complex_pow ?u ?v] => destruct (complex_pow u v) as [[? ?]|]
         | |- context [c_pow ?u ?v] => destruct (c_pow u v)
         | _ => progress cbv zeta
         end; intros [= <-]; reflexivity.
Qed.

Lemma true_div_raise x y e :
  Float.true_div x y = Raise e -> is_validation_error e = false.
Proof. unfold Float.true_div. destruct (Float.eqb y Float.zero); now intros [= <-]. Qed.

Lemma Decimal_new_raise v e :
  Decimal_new v = Raise e -> is_validation_error e = false.
Proof. destruct v; now intros [= <-]. Qed.

Lemma power_float_part_raise `{Libm} a b e :
  (x ← Float.of_decimal a; y ← Float.of_decimal b; r ← Float.pow x y; Decimal_new r)
  = Raise e -> is_validation_error e = false.
Proof.
  destruct (Float.of_decimal a) as [x|] eqn:Ha; run;
    [|intros [= <-]; eapply of_decimal_raise; eauto].
  destruct (Float.of_decimal b) as [y|] eqn:Hb; run;
    [|intros [= <-]; eapply of_decimal_raise; eauto].
  destruct (Float.pow x y) as [r|] eqn:Hp; run;
    [|intros [= <-]; eapply pow_raise; eauto].
  apply Decimal_new_raise.
Qed.




Lemma eq_zero_cases d :
  is_zero d \/ Dec.eq d Dec.zero = Ok false
  \/ Dec.eq d Dec.zero = Raise InvalidOperation.
Proof.
  unfold is_zero, Dec.eq.
  destruct d as [s c e|s|s p|s p]; cbn [Dec.check_nans Dec.zero]; run; auto;
    destruct (Dec._cmp _ _); auto.
Qed.

Lemma root_validate_cases a b :
  negative a /\ Root.validate_operands a b
                = Raise (ValidationError "Cannot calculate root of negative number")
  \/ nonnegative a /\ is_zero b
     /\ Root.validate_operands a b = Raise (ValidationError "Zero root is undefined")
  \/ nonnegative a /\ Dec.eq b Dec.zero = Ok false
     /\ Root.validate_operands a b = Ok tt
  \/ ~ negative a /\ ~ (nonnegative a /\ Dec.eq b Dec.zero <> Raise InvalidOperation)
     /\ Root.validate_operands a b = Raise InvalidOperation.
Proof.
  unfold Root.validate_operands. run.
  destruct (lt_zero_cases a) as [[H _]|[[H _]|[H _]]]; rewrite H; run.
  - now left.
  - destruct (eq_zero_cases b) as [Hb|[Hb|Hb]]; rewrite Hb; run.
    + right. left. auto.
    + right. right. left. auto.
    + right. right. right. unfold negative. rewrite H.
      split; [discriminate|]. split; [|reflexivity]. intros [_ Hne]. now apply Hne.
  - right. right. right. unfold negative, nonnegative. rewrite H.
    split; [discriminate|]. split; [|reflexivity]. intros [? _]. discriminate.
Qed.

Lemma reciprocal_not_negative y :
  Float.eqb y Float.zero = false ->
  Float.ltb y Float.zero = false ->
  Float.ltb (Float.div Float.one y) Float.zero = false.
Proof.
  destruct y as [s|s| |s m e].
  - discriminate.
  - destruct s; [discriminate|reflexivity].
  - reflexivity.
  - destruct s; [discriminate|]. intros _ _.
    change Float.one with (S754_finite false 4503599627370496 (-52)).
    unfold Float.div, SFdiv.
    destruct (SFdiv_core_binary _ _ _ _ _ _) as [[mz ez] lz].
    apply round_aux_not_negative.
Qed.

Lemma root_float_part_raise `{Libm} a b e :
  (x ← Float.of_decimal a; y ← Float.of_decimal b;
   y' ← Float.true_div Float.one y; r ← Float.pow x y'; Decimal_new r)
  = Raise e -> is_validation_error e = false.
Proof.
  destruct (Float.of_decimal a) as [x|] eqn:Ha; run;
    [|intros [= <-]; eapply of_decimal_raise; eauto].
  destruct (Float.of_decimal b) as [y|] eqn:Hb; run;
    [|intros [= <-]; eapply of_decimal_raise; eauto].
  destruct (Float.true_div Float.one y) as [y'|] eqn:Hd; run;
    [|intros [= <-]; eapply true_div_raise; eauto].
  destruct (Float.pow x y') as [r|] eqn:Hp; run;
    [|intros [= <-]; eapply pow_raise; eauto].
  apply Decimal_new_raise.
Qed.

(** C3 (amended).  Root.execute raises the ValidationError "Cannot
    calculate root of negative number" exactly when [a < 0], "Zero root is
    undefined" exactly when [a >= 0] and [b == 0], and no other
    ValidationError.  With [a >= 0] and [b != 0] validation passes; the
    root is then computed on floats, and a result is returned whenever
    [float(b)] is not zero, [float(a)] is not zero or [b >= 0], and the C
    library reports no range error for [pow(float(a), 1 / float(b))]. *)
Theorem root_outcomes `{Libm} (a b : Decimal) :
  (negative a <->
   Root.execute a b
   = Raise (ValidationError "Cannot calculate root of negative number")) /\
  (nonnegative a /\ is_zero b <->
   Root.execute a b = Raise (ValidationError "Zero root is undefined")) /\
  (forall msg, Root.execute a b = Raise (ValidationError msg) ->
     negative a \/ nonnegative a /\ is_zero b) /\
  (nonnegative a -> Dec.eq b Dec.zero = Ok false ->
   forall x y, Float.of_decimal a = Ok x -> Float.of_decimal b = Ok y ->
     Float.eqb y Float.zero = false ->
     Float.eqb x Float.zero = false \/ nonnegative b ->
     pow_in_range x (Float.div Float.one y) ->
     succeeds (Root.execute a b)).
Proof.
  unfold Root.execute.
  destruct (root_validate_cases a b)
    as [[Ha Hv]|[(Ha & Hb & Hv)|[(Ha & Hb & Hv)|(Ha & Hb & Hv)]]]; rewrite Hv; run.
  - assert (~ nonnegative a) by (unfold nonnegative, negative in *; congruence).
    repeat split; try tauto; try discriminate.
  - assert (~ negative a) by (unfold nonnegative, negative in *; congruence).
    repeat split; try tauto; try discriminate.
    unfold is_zero in Hb. congruence.
  - assert (~ negative a) by (unfold nonnegative, negative in *; congruence).
    assert (~ is_zero b) by (unfold is_zero; congruence).
    split; [|split; [|split]].
    + split; [tauto|]. intros Hr%root_float_part_raise. discriminate.
    + split; [tauto|]. intros Hr%root_float_part_raise. discriminate.
    + intros msg Hr%root_float_part_raise. discriminate.
    + intros _ _ x y Hx Hy Hy0 Hxb Hr. rewrite Hx, Hy. run.
      unfold Float.true_div. rewrite Hy0. run.
      destruct (pow_returns_float x (Float.div Float.one y)) as [z Hz].
      * exact (of_decimal_not_negative a x Ha Hx).
      * destruct Hxb as [Hx0|Hnb]; [now left|right].
        apply reciprocal_not_negative; [assumption|].
        exact (of_decimal_not_negative b y Hnb Hy).
      * assumption.
      * rewrite Hz. run. now eexists.
  - split; [|split; [|split]].
    + split; [tauto|discriminate].
    + split; [|discriminate]. intros [Hn Hz]. exfalso. apply Hb.
      split; [assumption|]. unfold is_zero in Hz. congruence.
    + discriminate.
    + intros Hn Hz. exfalso. apply Hb. split; [assumption|congruence].
Qed.

Lemma root_outcomes_witness :
  succeeds (@Root.execute sample_libm (Finite false 4 0) (Finite false 1 0)).
Proof.
  apply (proj2 (proj2 (proj2 (@root_outcomes sample_libm (Finite false 4 0) (Finite false 1 0))))
           eq_refl eq_refl
           (S754_finite false 4503599627370496 (-50))
           (S754_finite false 4503599627370496 (-52))
           eq_refl eq_refl eq_refl (or_introl eq_refl) eq_refl).
Defined.

(** Against C3 as stated: 0 is not negative and -2 is not zero, yet the
    float power of zero to -0.5 is a ZeroDivisionError; and 1E-400 is not
    zero, yet its float is, so that the reciprocal is a ZeroDivisionError.
    Either way [execute] fails, whatever the C library. *)
Lemma root_fails_on_valid_operands :
  nonnegative (Finite false 0 0) /\
  Dec.eq (Finite true 2 0) Dec.zero = Ok false /\
  (forall L : Libm,
     @Root.execute L (Finite false 0 0) (Finite true 2 0)
     = Raise (ZeroDivisionError "0.0 cannot be raised to a negative power")) /\
  nonnegative (Finite false 4 0) /\
  Dec.eq (Finite false 1 (-400)) Dec.zero = Ok false /\
  (forall L : Libm,
     @Root.execute L (Finite false 4 0) (Finite false 1 (-400))
     = Raise (ZeroDivisionError "float division by zero")).
Proof. repeat split; intros; vm_compute; reflexivity. Qed.

(** ** Division *)

(** Rounding moves a coefficient by at most half a unit of the digit it
    stops at. *)
Lemma rounded_error c k :
  0 <= c -> 0 <= k -> 2 * Z.abs (rounded c k * 10 ^ k - c) <= 10 ^ k.
Proof.
  intros Hc Hk. unfold rounded, Dec.round_half_even_up.
  assert (Hp : 0 < 10 ^ k) by (apply Z.pow_pos_nonneg; lia).
  pose proof (Z.div_mod c (10 ^ k) ltac:(lia)) as Hdm.
  pose proof (Z.mod_pos_bound c (10 ^ k) Hp) as Hr.
  remember (c / 10 ^ k) as q. remember (c mod 10 ^ k) as r.
  remember (10 ^ k) as P.
  destruct (Z.ltb_spec P (2 * r)); cbn [orb]; [nia|].
  destruct (Z.eqb_spec P (2 * r)); cbn [andb]; [destruct (Z.odd q)|]; nia.
Qed.

(** A coefficient that is not a multiple of 5 marks a value [N / D]
    strictly within one unit of it: rounding the coefficient then rounds
    the value, to within half a unit of the digit it stops at. *)
Lemma rounded_sticky_error c k N D :
  0 <= c -> 1 <= k -> 0 < D -> c mod 5 <> 0 ->
  (c - 1) * D < N < (c + 1) * D ->
  2 * Z.abs (rounded c k * 10 ^ k * D - N) <= 10 ^ k * D.
Proof.
  intros Hc Hk HD H5 HN. unfold rounded, Dec.round_half_even_up.
  assert (Hp : 10 ^ k = 10 * 10 ^ (k - 1)).
  { rewrite <- Z.pow_succ_r by lia. f_equal. lia. }
  assert (Hp' : 0 < 10 ^ (k - 1)) by (apply Z.pow_pos_nonneg; lia).
  pose proof (Z.div_mod c (10 ^ k) ltac:(lia)) as Hdm.
  pose proof (Z.mod_pos_bound c (10 ^ k) ltac:(lia)) as Hr.
  remember (c / 10 ^ k) as q. remember (c mod 10 ^ k) as r.
  assert (Hr5 : r mod 5 <> 0).
  { intros Hz. apply H5. rewrite Hdm, Hp.
    replace (10 * 10 ^ (k - 1) * q + r) with (r + (2 * 10 ^ (k - 1) * q) * 5) by lia.
    now rewrite Z.mod_add by lia. }
  remember (10 ^ (k - 1)) as P'. rewrite Hp in *. clear Hp.
  assert (Hne : r <> 5 * P').
  { intros ->. apply Hr5. rewrite Z.mul_comm. apply Z.mod_mul. lia. }
  assert (Hr1 : 1 <= r).
  { destruct (Z.eq_dec r 0) as [->|]; [now rewrite Z.mod_0_l in Hr5 by lia|lia]. }
  subst c.
  assert (HrD : r * D < 10 * P' * D) by nia.
  destruct (Z.ltb_spec (10 * P') (2 * r)); cbn [orb].
  - assert (H1 : (5 * P' + 1) * D <= r * D) by nia.
    lia.
  - destruct (Z.eqb_spec (10 * P') (2 * r)); [lia|]. cbn [andb].
    assert (H1 : r * D <= (5 * P' - 1) * D) by nia.
    assert (H2 : 1 * D <= r * D) by nia.
    lia.
Qed.

(** What [_fix] returns for a nonzero coefficient: the number itself, or
    its coefficient rounded at some digit. *)
Lemma fix_rounds s c e c' e' :
  (0 < c)%N ->
  Dec._fix (Finite s c e) = Ok (Finite s c' e') ->
  (c' = c /\ e' = e /\ ndigits (Z.of_N c) <= prec) \/
  exists k, k = Z.max (ndigits (Z.of_N c) + e - prec) Etiny - e /\
    1 <= k /\ e + k <= e' /\
    Z.of_N c' * 10 ^ (e' - e) = rounded (Z.of_N c) k * 10 ^ k.
Proof.
  pose proof context_values as (Hp & HM & Ht & HT).
  intros Hc. unfold Dec._fix. cbv zeta.
  destruct (Z.eqb_spec (Z.of_N c) 0) as [|_]; [lia|].
  remember (ndigits (Z.of_N c)) as nd eqn:Hnd.
  destruct (Z.ltb_spec Etop (nd + e - prec)); [discriminate|].
  remember (Z.max (nd + e - prec) Etiny) as exp_min eqn:Hexp.
  destruct (Z.ltb_spec e exp_min) as [Hround|Hkeep].
  2:{ intros [= <- <-]. left. split; [reflexivity|]. split; [reflexivity|]. lia. }
  assert (Hcb : 0 < Z.of_N c < 10 ^ nd).
  { subst nd. pose proof (ndigits_spec (Z.of_N c)). lia. }
  assert (Hq : 0 <= Z.of_N c / 10 ^ (exp_min - e) < 10 ^ prec).
  { split; [apply Z.div_pos; [lia|apply Z.pow_pos_nonneg; lia]|].
    apply (div_pow10_bound _ _ nd); lia. }
  remember (Z.of_N c / 10 ^ (exp_min - e)) as q eqn:Hqdef.
  destruct (Dec.round_half_even_up (Z.of_N c) (exp_min - e)) eqn:Hup.
  - destruct (Z.ltb_spec prec (ndigits (q + 1))) as [Hgrow|Hfit].
    + destruct (Z.ltb_spec Etop (exp_min + 1)); [discriminate|].
      intros [= <- <-]. right. exists (exp_min - e). split; [lia|]. split; [lia|]. split; [lia|].
      unfold rounded. rewrite Hup, <- Hqdef.
      assert (Hq1 : q + 1 = 10 ^ prec).
      { pose proof (ndigits_spec (q + 1) ltac:(lia)) as [Hlo _].
        pose proof (Z.pow_le_mono_r 10 prec (ndigits (q + 1) - 1) ltac:(lia) ltac:(lia)).
        lia. }
      rewrite Hq1.
      replace (exp_min + 1 - e) with (Z.succ (exp_min - e)) by lia.
      rewrite Z.pow_succ_r by lia.
      assert (Hd : 10 ^ prec / 10 * 10 = 10 ^ prec) by (rewrite Hp; reflexivity).
      rewrite Z2N.id by (apply Z.div_pos; lia).
      rewrite <- Hd at 2. ring.
    + intros [= <- <-]. right. exists (exp_min - e). split; [lia|]. split; [lia|]. split; [lia|].
      unfold rounded. rewrite Hup, <- Hqdef.
      rewrite Z2N.id by lia. reflexivity.
  - intros [= <- <-]. right. exists (exp_min - e). split; [lia|]. split; [lia|]. split; [lia|].
    unfold rounded. rewrite Hup, <- Hqdef.
    rewrite Z2N.id by lia. f_equal. lia.
Qed.

Lemma ndigits_unique n d :
  0 < n -> 10 ^ (d - 1) <= n < 10 ^ d -> ndigits n = d.
Proof.
  intros Hn [Hlo Hhi].
  pose proof (ndigits_le n d ltac:(lia)). pose proof (ndigits_ge n d Hlo Hn). lia.
Qed.

Lemma ndigits_mul_pow10 c j :
  0 < c -> 0 <= j -> ndigits (c * 10 ^ j) = ndigits c + j.
Proof.
  intros Hc Hj. pose proof (ndigits_spec c Hc) as [Hlo Hhi].
  pose proof (ndigits_pos c).
  assert (Hp : 0 < 10 ^ j) by (apply Z.pow_pos_nonneg; lia).
  apply ndigits_unique; [nia|].
  replace (ndigits c + j - 1) with ((ndigits c - 1) + j) by lia.
  rewrite !Z.pow_add_r by lia. nia.
Qed.

(** Stripping trailing zeros keeps the value, and stops at the ideal
    exponent. *)
Lemma strip_zeros_spec fuel coeff exp ideal :
  0 < coeff ->
  let '(c', e') := Dec.strip_zeros fuel coeff exp ideal in
  0 < c' /\ exp <= e' /\ c' * 10 ^ (e' - exp) = coeff.
Proof.
  revert coeff exp. induction fuel as [|fuel IH]; intros coeff exp Hc; cbn [Dec.strip_zeros].
  - rewrite Z.sub_diag. cbn. lia.
  - destruct (Z.ltb_spec exp ideal) as [Hlt|]; cbn [andb].
    2:{ rewrite Z.sub_diag. cbn. lia. }
    destruct (Z.eqb_spec (coeff mod 10) 0) as [Hm|].
    2:{ rewrite Z.sub_diag. cbn. lia. }
    pose proof (Z.div_mod coeff 10 ltac:(lia)) as Hdm.
    specialize (IH (coeff / 10) (exp + 1) ltac:(lia)).
    destruct (Dec.strip_zeros fuel (coeff / 10) (exp + 1) ideal) as [c' e'].
    destruct IH as (Hc' & He' & Hv). split; [assumption|]. split; [lia|].
    replace (e' - exp) with (Z.succ (e' - (exp + 1))) by lia.
    rewrite Z.pow_succ_r by lia. lia.
Qed.

(** The quotient digits [div_core] produces: either the exact quotient,
    or a coefficient at the working exponent that is no multiple of 5 and
    within one unit of the quotient. *)
Lemma div_core_spec c1 e1 c2 e2 :
  0 < c1 -> 0 < c2 ->
  let shift := ndigits c2 - ndigits c1 + prec + 1 in
  let exp0 := e1 - e2 - shift in
  let N := c1 * 10 ^ Z.max shift 0 in
  let D := c2 * 10 ^ Z.max (- shift) 0 in
  let '(coeff, exp) := Dec.div_core c1 e1 c2 e2 in
  0 < D /\ D * 10 ^ prec <= N /\ 0 < coeff /\ exp0 <= exp /\
  ndigits coeff + exp <= prec + 2 + exp0 /\
  (coeff * 10 ^ (exp - exp0) * D = N
   \/ exp = exp0 /\ 10 ^ prec <= coeff /\ coeff mod 5 <> 0
      /\ (coeff - 1) * D < N < (coeff + 1) * D /\ N mod D <> 0).
Proof.
  pose proof context_values as (Hp & _).
  intros Hc1 Hc2. cbv zeta. unfold Dec.div_core.
  pose proof (ndigits_spec c1 Hc1) as [Hlo1 Hhi1].
  pose proof (ndigits_spec c2 Hc2) as [Hlo2 Hhi2].
  pose proof (ndigits_pos c1) as Hn1. pose proof (ndigits_pos c2) as Hn2.
  remember (ndigits c1) as nd1. remember (ndigits c2) as nd2.
  remember (nd2 - nd1 + prec + 1) as shift eqn:Hshift.
  remember (Z.max shift 0) as sp. remember (Z.max (- shift) 0) as sn.
  assert (Hsp : 0 <= sp) by lia. assert (Hsn : 0 <= sn) by lia.
  assert (Hss : sp - sn = shift) by lia.
  assert (Hdiv :
    (if 0 <=? shift then Z.div_eucl (c1 * 10 ^ shift) c2
     else Z.div_eucl c1 (c2 * 10 ^ (- shift)))
    = Z.div_eucl (c1 * 10 ^ sp) (c2 * 10 ^ sn)).
  { destruct (Z.leb_spec 0 shift).
    - replace sp with shift by lia. replace sn with 0 by lia.
      now rewrite Z.pow_0_r, Z.mul_1_r.
    - replace sp with 0 by lia. replace sn with (- shift) by lia.
      now rewrite Z.pow_0_r, Z.mul_1_r. }
  rewrite Hdiv. clear Hdiv.
  assert (Hpsp : 0 < 10 ^ sp) by (apply Z.pow_pos_nonneg; lia).
  assert (Hpsn : 0 < 10 ^ sn) by (apply Z.pow_pos_nonneg; lia).
  remember (c1 * 10 ^ sp) as N. remember (c2 * 10 ^ sn) as D.
  assert (HD : 0 < D) by nia.
  assert (HlowN : D * 10 ^ prec <= N).
  { assert (H1 : D * 10 ^ prec < 10 ^ (nd2 + sn + prec)).
    { rewrite !Z.pow_add_r by lia.
      assert (0 < 10 ^ prec) by (apply Z.pow_pos_nonneg; lia). nia. }
    assert (H2 : 10 ^ (nd1 - 1 + sp) <= N).
    { rewrite Z.pow_add_r by lia. nia. }
    replace (nd2 + sn + prec) with (nd1 - 1 + sp) in H1 by lia. lia. }
  assert (HhighN : N < D * 10 ^ (prec + 2)).
  { assert (H1 : N < 10 ^ (nd1 + sp)).
    { rewrite Z.pow_add_r by lia. nia. }
    assert (H2 : 10 ^ (nd2 - 1 + sn + (prec + 2)) <= D * 10 ^ (prec + 2)).
    { rewrite !Z.pow_add_r by lia.
      assert (0 < 10 ^ (prec + 2)) by (apply Z.pow_pos_nonneg; lia). nia. }
    replace (nd2 - 1 + sn + (prec + 2)) with (nd1 + sp) in H2 by lia. lia. }
  pose proof (Z_div_mod N D ltac:(lia)) as Hdm.
  destruct (Z.div_eucl N D) as [Q R]. destruct Hdm as [HNQ HR].
  assert (HQlo : 10 ^ prec <= Q) by nia.
  assert (HQhi : Q < 10 ^ (prec + 2)) by nia.
  assert (HQpos : 0 < Q).
  { assert (0 < 10 ^ prec) by (apply Z.pow_pos_nonneg; lia). lia. }
  destruct (Z.eqb_spec R 0) as [HR0|HR0].
  - pose proof (strip_zeros_spec
                  (Z.to_nat (e1 - e2 - (e1 - e2 - shift))) Q (e1 - e2 - shift) (e1 - e2) HQpos)
      as Hs.
    destruct (Dec.strip_zeros _ _ _ _) as [c' e'].
    destruct Hs as (Hc' & He' & Hv).
    split; [assumption|]. split; [assumption|].
    split; [assumption|]. split; [assumption|]. split.
    + assert (ndigits Q <= prec + 2) by (apply ndigits_le; lia).
      rewrite <- Hv in H. rewrite ndigits_mul_pow10 in H by lia. lia.
    + left. rewrite Hv. nia.
  - assert (HRm : N mod D <> 0).
    { rewrite HNQ, Z.add_comm, Z.mul_comm, Z.mod_add, Z.mod_small by lia. assumption. }
    split; [assumption|]. split; [assumption|].
    split; [destruct (Q mod 5 =? 0); lia|]. split; [lia|]. split.
    + assert (ndigits (if Q mod 5 =? 0 then Q + 1 else Q) <= prec + 2).
      { apply ndigits_le.
        assert (H10 : 10 ^ (prec + 2) = 5 * (2 * 10 ^ (prec + 1))).
        { replace (prec + 2) with (Z.succ (prec + 1)) by lia.
          rewrite Z.pow_succ_r by lia. lia. }
        destruct (Z.eqb_spec (Q mod 5) 0) as [H5|]; [|lia].
        pose proof (Z.div_mod Q 5 ltac:(lia)) as HQ5.
        rewrite H10 in *. remember (2 * 10 ^ (prec + 1)) as M. lia. }
      lia.
    + right. split; [reflexivity|].
      destruct (Z.eqb_spec (Q mod 5) 0) as [H5|H5].
      * split; [lia|]. split; [|split; [nia|assumption]].
        replace (Q + 1) with (1 + (Q / 5) * 5).
        -- rewrite Z.mod_add by lia. discriminate.
        -- pose proof (Z.div_mod Q 5 ltac:(lia)). lia.
      * split; [lia|]. split; [assumption|split; [nia|assumption]].
Qed.

(** The quotient of two nonzero numbers is within half a unit of the last
    digit kept of the exact quotient [N / D * 10^exp0]. *)
Lemma truediv_finite_error s1 c1 e1 s2 c2 e2 r :
  (0 < c1)%N -> (0 < c2)%N ->
  Dec.truediv (Finite s1 c1 e1) (Finite s2 c2 e2) = Ok r ->
  let shift := ndigits (Z.of_N c2) - ndigits (Z.of_N c1) + prec + 1 in
  let exp0 := e1 - e2 - shift in
  let N := Z.of_N c1 * 10 ^ Z.max shift 0 in
  let D := Z.of_N c2 * 10 ^ Z.max (- shift) 0 in
  exists c' e', r = Finite (xorb s1 s2) c' e' /\ in_context r /\ exp0 <= e' /\ 0 < D /\
    2 * Z.abs (Z.of_N c' * 10 ^ (e' - exp0) * D - N) <= 10 ^ (e' - exp0) * D.
Proof.
  intros Hc1 Hc2. unfold Dec.truediv.
  destruct (N.eqb_spec c2 0) as [|_]; [lia|].
  destruct (N.eqb_spec c1 0) as [|_]; [lia|].
  pose proof (div_core_spec (Z.of_N c1) e1 (Z.of_N c2) e2 ltac:(lia) ltac:(lia)) as Hd.
  cbv zeta in Hd |- *.
  destruct (Dec.div_core _ _ _ _) as [coeff exp].
  remember (ndigits (Z.of_N c2) - ndigits (Z.of_N c1) + prec + 1) as shift.
  remember (e1 - e2 - shift) as exp0.
  remember (Z.of_N c1 * 10 ^ Z.max shift 0) as N.
  remember (Z.of_N c2 * 10 ^ Z.max (- shift) 0) as D.
  destruct Hd as (HD & _ & Hcoeff & Hexp & Hnd & Hq).
  destruct (fix_finite (xorb s1 s2) (Z.to_N coeff) exp) as [->|(c' & e' & Hfix & Hin)];
    [discriminate|].
  rewrite Hfix. intros [= <-]. exists c', e'.
  split; [reflexivity|]. split; [assumption|].
  apply fix_rounds in Hfix; [|lia]. rewrite Z2N.id in Hfix by lia.
  destruct Hq as [Hexact|(-> & Hlo & H5 & HN & _)].
  - destruct Hfix as [(-> & -> & _)|(k & _ & Hk & Hke & Hv)].
    + split; [assumption|]. split; [assumption|].
      rewrite Z2N.id by lia. rewrite Hexact, Z.sub_diag. cbn.
      assert (0 < 10 ^ (exp - exp0)) by (apply Z.pow_pos_nonneg; lia). nia.
    + split; [lia|]. split; [assumption|].
      pose proof (rounded_error coeff k ltac:(lia) ltac:(lia)) as Herr.
      replace (e' - exp0) with ((e' - exp) + (exp - exp0)) by lia.
      rewrite Z.pow_add_r by lia.
      replace (Z.of_N c' * (10 ^ (e' - exp) * 10 ^ (exp - exp0)) * D - N)
        with ((rounded coeff k * 10 ^ k - coeff) * (10 ^ (exp - exp0) * D))
        by (rewrite <- Hexact, <- Hv; ring).
      rewrite Z.abs_mul.
      assert (Hj : 0 < 10 ^ (exp - exp0)) by (apply Z.pow_pos_nonneg; lia).
      rewrite (Z.abs_eq (10 ^ (exp - exp0) * D)) by nia.
      assert (Hkk : 10 ^ k <= 10 ^ (e' - exp)) by (apply Z.pow_le_mono_r; lia).
      assert (0 < 10 ^ (exp - exp0) * D) by nia.
      nia.
  - destruct Hfix as [(-> & -> & Hnd')|(k & _ & Hk & Hke & Hv)].
    + exfalso.
      pose proof (ndigits_ge coeff (prec + 1)) as Hge.
      replace (prec + 1 - 1) with prec in Hge by lia.
      specialize (Hge Hlo Hcoeff). lia.
    + split; [lia|]. split; [assumption|].
      pose proof (rounded_sticky_error coeff k N D ltac:(lia) Hk HD H5 HN) as Herr.
      rewrite Hv.
      assert (Hkk : 10 ^ k <= 10 ^ (e' - exp0)) by (apply Z.pow_le_mono_r; lia).
      nia.
Qed.

Lemma pow10_pos (e : Z) : (0 < inject_Z 10 ^ e)%Q.
Proof. apply Qpower_0_lt. reflexivity. Qed.

Lemma pow10_split (e s : Z) :
  0 <= s -> (inject_Z 10 ^ (e + s) == inject_Z 10 ^ e * inject_Z (10 ^ s))%Q.
Proof.
  intros Hs. rewrite Qpower_plus by apply ten_nonzero.
  now rewrite <- (Zpower_Qpower 10 s) by assumption.
Qed.

(** The exact quotient of two finite numbers, over the integers [N] and
    [D] of [div_core]. *)
Lemma quotient_value s1 c1 e1 s2 c2 e2 (sp sn exp0 : Z) :
  0 < c2 -> 0 <= sp -> 0 <= sn -> exp0 + sp = e1 - e2 + sn ->
  (inject_Z (signed s1 c1) * inject_Z 10 ^ e1
   / (inject_Z (signed s2 c2) * inject_Z 10 ^ e2)
   == inject_Z (signed (xorb s1 s2) (c1 * 10 ^ sp)) / inject_Z (c2 * 10 ^ sn)
      * inject_Z 10 ^ exp0)%Q.
Proof.
  intros Hc2 Hsp Hsn Hexp.
  assert (He1 : (inject_Z 10 ^ e1 * inject_Z (10 ^ sn)
                 == inject_Z 10 ^ exp0 * inject_Z 10 ^ e2 * inject_Z (10 ^ sp))%Q).
  { rewrite <- pow10_split by assumption.
    rewrite <- Qpower_plus by apply ten_nonzero.
    rewrite <- pow10_split by assumption.
    replace (exp0 + e2 + sp) with (e1 + sn) by lia. reflexivity. }
  pose proof (pow10_pos e2) as H2. pose proof (pow10_pos exp0) as H0.
  pose proof (pow10_pos e1) as H1.
  assert (Hsn' : (0 < inject_Z (10 ^ sn))%Q).
  { rewrite Zpower_Qpower by assumption. apply pow10_pos. }
  assert (Hc2' : (0 < inject_Z c2)%Q).
  { change 0%Q with (inject_Z 0). now rewrite <- Zlt_Qlt. }
  remember (inject_Z 10 ^ e1)%Q as T1. remember (inject_Z 10 ^ e2)%Q as T2.
  remember (inject_Z 10 ^ exp0)%Q as T0.
  remember (inject_Z (10 ^ sn)) as M. remember (inject_Z (10 ^ sp)) as P.
  assert (HT1 : (T1 == T0 * T2 * P / M)%Q).
  { rewrite <- He1. field. lra. }
  destruct s1, s2; cbn [xorb signed];
    rewrite ?inject_Z_opp, ?inject_Z_mult, <- ?HeqM, <- ?HeqP, HT1;
    field; repeat split; lra.
Qed.

(** The error of a quotient, as a rational number. *)
Lemma truediv_value_error s1 c1 e1 s2 c2 e2 r :
  (0 < c1)%N -> (0 < c2)%N ->
  Dec.truediv (Finite s1 c1 e1) (Finite s2 c2 e2) = Ok r ->
  in_context r /\
  (Qabs (value r - value (Finite s1 c1 e1) / value (Finite s2 c2 e2))
   <= (1 # 2) * inject_Z 10 ^ exponent r)%Q.
Proof.
  intros Hc1 Hc2 Hr.
  destruct (truediv_finite_error s1 c1 e1 s2 c2 e2 r Hc1 Hc2 Hr)
    as (c' & e' & -> & Hin & He' & HD & Herr).
  split; [assumption|]. clear Hr Hin.
  cbn [value exponent].
  remember (ndigits (Z.of_N c2) - ndigits (Z.of_N c1) + prec + 1) as shift.
  rewrite (quotient_value s1 (Z.of_N c1) e1 s2 (Z.of_N c2) e2
             (Z.max shift 0) (Z.max (- shift) 0) (e1 - e2 - shift))
    by lia.
  remember (e1 - e2 - shift) as exp0.
  remember (Z.of_N c1 * 10 ^ Z.max shift 0) as N.
  remember (Z.of_N c2 * 10 ^ Z.max (- shift) 0) as D.
  replace e' with (exp0 + (e' - exp0)) at 1 2 by lia.
  rewrite !pow10_split by lia.
  remember (10 ^ (e' - exp0)) as J.
  pose proof (pow10_pos exp0) as HT0.
  remember (inject_Z 10 ^ exp0)%Q as T0.
  assert (Hd : (0 < inject_Z D)%Q).
  { change 0%Q with (inject_Z 0). now rewrite <- Zlt_Qlt. }
  assert (Hbound : (- (inject_Z J * inject_Z D)
                    <= 2 * inject_Z (Z.of_N c' * J * D - N)
                    <= inject_Z J * inject_Z D)%Q).
  { rewrite <- inject_Z_mult, <- inject_Z_opp.
    change 2%Q with (inject_Z 2). rewrite <- inject_Z_mult.
    rewrite <- !Zle_Qle. lia. }
  assert (Hdiff :
    (inject_Z (signed (xorb s1 s2) (Z.of_N c')) * (T0 * inject_Z J)
     - inject_Z (signed (xorb s1 s2) N) / inject_Z D * T0
     == (if xorb s1 s2 then -1 else 1)
        * (inject_Z (Z.of_N c' * J * D - N) / inject_Z D * T0))%Q).
  { unfold Z.sub at 1. rewrite inject_Z_plus, inject_Z_opp, !inject_Z_mult.
    destruct (xorb s1 s2); cbn [signed]; rewrite ?inject_Z_opp; field; lra. }
  remember (inject_Z J) as Jq. remember (inject_Z D) as d.
  remember (inject_Z (Z.of_N c' * J * D - N)) as Y.
  assert (Hy : (- ((1 # 2) * Jq) <= Y / d <= (1 # 2) * Jq)%Q).
  { split; [apply Qle_shift_div_l|apply Qle_shift_div_r]; try assumption; lra. }
  rewrite Hdiff. clear Hdiff.
  remember (Y / d)%Q as W.
  apply Qabs_Qle_condition.
  destruct (xorb s1 s2); split; nra.
Qed.

Lemma rounded_multiple c k :
  0 <= k -> c mod 10 ^ k = 0 -> rounded c k * 10 ^ k = c.
Proof.
  intros Hk Hm. unfold rounded, Dec.round_half_even_up. rewrite Hm.
  assert (0 < 10 ^ k) by (apply Z.pow_pos_nonneg; lia).
  destruct (Z.ltb_spec (10 ^ k) (2 * 0)); [lia|].
  destruct (Z.eqb_spec (10 ^ k) (2 * 0)); [lia|]. cbn [orb andb].
  pose proof (Z.div_mod c (10 ^ k) ltac:(lia)). lia.
Qed.


Lemma inject_Z_pos (z : Z) : 0 < z -> (0 < inject_Z z)%Q.
Proof. intros H. change 0%Q with (inject_Z 0). now rewrite <- Zlt_Qlt. Qed.

Lemma Qabs_signed s (z : Z) (T : Q) :
  0 <= z -> (0 < T)%Q ->
  (Qabs (inject_Z (signed s z) * T) == inject_Z z * T)%Q.
Proof.
  intros Hz HT. rewrite Qabs_Qmult, (Qabs_pos T) by lra.
  assert (Ha : Qabs (inject_Z (signed s z)) = inject_Z z).
  { unfold Qabs, inject_Z. f_equal. destruct s; simpl; lia. }
  now rewrite Ha.
Qed.


Lemma nonzero_not_eq_zero s c e :
  (0 < c)%N -> Dec.eq (Finite s c e) Dec.zero = Ok false.
Proof.
  intros Hc. unfold Dec.eq, Dec.zero. cbn [Dec.check_nans Dec._cmp signed]. run.
  rewrite Z.mul_0_l.
  assert (0 < Z.of_N c * 10 ^ (e - Z.min e 0)).
  { apply Z.mul_pos_pos; [lia|apply Z.pow_pos_nonneg; lia]. }
  destruct s; cbn [signed];
    match goal with |- context [?x ?= 0] => destruct (Z.compare_spec x 0) end;
    (reflexivity || lia).
Qed.

Lemma not_zero_coefficient s c e : ~ is_zero (Finite s c e) -> (0 < c)%N.
Proof.
  intros H. destruct c as [|p]; [|lia]. exfalso. apply H. apply eq_zero_of_zero.
Qed.

Lemma truediv_succeeds s1 c1 e1 s2 c2 e2 :
  (0 < c2)%N ->
  adjusted (Finite s1 c1 e1) - adjusted (Finite s2 c2 e2) < Emax ->
  succeeds (Dec.truediv (Finite s1 c1 e1) (Finite s2 c2 e2)).
Proof.
  intros Hc2 Hadj. unfold Dec.truediv. cbn [adjusted] in Hadj.
  destruct (N.eqb_spec c2 0) as [|_]; [lia|].
  destruct (N.eqb_spec c1 0) as [|Hc1]; [apply fix_succeeds; now left|].
  pose proof (div_core_spec (Z.of_N c1) e1 (Z.of_N c2) e2 ltac:(lia) ltac:(lia)) as Hd.
  cbv zeta in Hd. destruct (Dec.div_core _ _ _ _) as [coeff exp].
  destruct Hd as (_ & _ & Hcoeff & _ & Hnd & _).
  apply fix_succeeds. right. rewrite Z2N.id by lia. lia.
Qed.




(** ** IntegerDivision and Modulus *)

(** C4.  IntegerDivision floors the quotient of the operands' floats: -10
    by 3 gives -4.  The floats are not the operands: 0.3 by 0.1 gives 2,
    while the floor of the exact quotient is 3. *)
Theorem integer_division_through_floats :
  IntegerDivision.execute (Finite true 10 0) (Finite false 3 0)
    = Ok (Finite true 4 0) /\
  IntegerDivision.execute (Finite false 3 (-1)) (Finite false 1 (-1))
    = Ok (Finite false 2 0) /\
  exact_floor_quotient (Finite false 3 (-1)) (Finite false 1 (-1)) = Some 3.
Proof. repeat split; vm_compute; reflexivity. Qed.

(** C5.  Modulus takes the remainder of the operands' floats, with the
    sign of the divisor: 10 by -3 gives -2.  The floats are not the
    operands: 0.1 by 1 gives the 55-digit expansion of the float nearest
    to 0.1, while the remainder of the exact division is 0.1. *)
Theorem modulus_through_floats :
  Modulus.execute (Finite false 10 0) (Finite true 3 0) = Ok (Finite true 2 0) /\
  Modulus.execute (Finite false 1 (-1)) (Finite false 1 0)
    = Ok (Finite false 1000000000000000055511151231257827021181583404541015625 (-55)) /\
  exact_floored_remainder (Finite false 1 (-1)) (Finite false 1 0)
    = Some (Finite false 1 (-1)) /\
  ~ (value (Finite false 1000000000000000055511151231257827021181583404541015625 (-55))
     == value (Finite false 1 (-1)))%Q.
Proof.
  split; [vm_compute; reflexivity|]. split; [vm_compute; reflexivity|].
  split; [vm_compute; reflexivity|]. vm_compute. discriminate.
Qed.

(** ** The factory *)









(** C10.  A failed registration is atomic.  Registering a class that does
    not inherit from Operation raises the TypeError and leaves the mapping
    as it was, so every later [create_operation] gives what it gave
    before. *)
Theorem register_failure_atomic ops name cls :
  issubclass_Operation cls = false ->
  OperationFactory.register_operation ops name cls
    = (Raise (TypeError "Operation class must inherit from Operation"), ops) /\
  forall key,
    OperationFactory.create_operation
      (snd (OperationFactory.register_operation ops name cls)) key
    = OperationFactory.create_operation ops key.
Proof.
  intros H. unfold OperationFactory.register_operation. rewrite H. simpl.
  split; reflexivity.
Qed.

Lemma register_failure_atomic_witness :
  OperationFactory.register_operation OperationFactory._operations
    "invalid" (UserClass "InvalidOperation" false false)
    = (Raise (TypeError "Operation class must inherit from Operation"),
       OperationFactory._operations) /\
  forall key,
    OperationFactory.create_operation
      (snd (OperationFactory.register_operation OperationFactory._operations
              "invalid" (UserClass "InvalidOperation" false false))) key
    = OperationFactory.create_operation OperationFactory._operations key.
Proof.
  apply (register_failure_atomic OperationFactory._operations "invalid"
           (UserClass "InvalidOperation" false false)).
  reflexivity.
Defined.
(** ** Rounding, as rational numbers *)

(** Two scaled integers that stand for the same rational number agree
    once both are written at the smaller exponent. *)
Lemma scaled_eq_aligned (a b e1 e2 : Z) :
  (inject_Z a * inject_Z 10 ^ e1 == inject_Z b * inject_Z 10 ^ e2)%Q ->
  a * 10 ^ (e1 - Z.min e1 e2) = b * 10 ^ (e2 - Z.min e1 e2).
Proof.
  intros H. remember (Z.min e1 e2) as m.
  apply inject_Z_injective. rewrite !inject_Z_mult.
  replace e1 with (m + (e1 - m)) in H at 1 by lia.
  replace e2 with (m + (e2 - m)) in H at 1 by lia.
  rewrite !pow10_split in H by lia.
  pose proof (pow10_pos m) as HTm.
  remember (inject_Z 10 ^ m)%Q as Tm.
  remember (inject_Z (10 ^ (e1 - m))) as I1.
  remember (inject_Z (10 ^ (e2 - m))) as I2.
  remember (inject_Z a) as A. remember (inject_Z b) as B.
  assert (H1 : (A * I1 == A * (Tm * I1) / Tm)%Q) by (field; lra).
  rewrite H1, H. field. lra.
Qed.

Lemma value_zero_coefficient s e : (value (Finite s 0 e) == 0)%Q.
Proof.
  cbn [value]. replace (signed s (Z.of_N 0)) with 0 by (now destruct s).
  apply Qmult_0_l.
Qed.

(** [_fix] moves a number by at most half a unit of the last digit it
    keeps. *)
Lemma fix_value_error s c e r :
  Dec._fix (Finite s c e) = Ok r ->
  in_context r /\
  (Qabs (value r - value (Finite s c e)) <= (1 # 2) * inject_Z 10 ^ exponent r)%Q.
Proof.
  pose proof context_values as (Hp & HM & Ht & HT).
  intros Hr. destruct (N.eq_dec c 0%N) as [->|Hc].
  - cbn in Hr. injection Hr as <-. split.
    + cbn. rewrite Ht, HM. lia.
    + rewrite !value_zero_coefficient. cbn [exponent].
      pose proof (pow10_pos (Z.min (Z.max e Etiny) Emax)).
      assert (Hz : (0 - 0 == 0)%Q) by ring. rewrite Hz.
      change (Qabs 0) with 0%Q. lra.
  - destruct (fix_finite s c e) as [Ho|(c' & e' & Hf & Hin)]; [congruence|].
    rewrite Hf in Hr. injection Hr as <-. split; [assumption|].
    cbn [value exponent].
    assert (He : e <= e' /\
                 2 * Z.abs (Z.of_N c' * 10 ^ (e' - e) - Z.of_N c) <= 10 ^ (e' - e)).
    { destruct (fix_rounds s c e c' e' ltac:(lia) Hf) as [(-> & -> & _)|(k & Hk & Hk1 & Hke & Hv)].
      - split; [lia|]. rewrite Z.sub_diag. cbn. lia.
      - split; [lia|]. rewrite Hv.
        pose proof (rounded_error (Z.of_N c) k ltac:(lia) ltac:(lia)).
        pose proof (Z.pow_le_mono_r 10 k (e' - e) ltac:(lia) ltac:(lia)). lia. }
    destruct He as [He Herr].
    replace e' with (e + (e' - e)) at 1 2 by lia.
    rewrite !pow10_split by lia.
    remember (10 ^ (e' - e)) as J.
    pose proof (pow10_pos e) as HT0. remember (inject_Z 10 ^ e)%Q as T0.
    assert (Hbound : (- inject_Z J <= 2 * inject_Z (Z.of_N c' * J - Z.of_N c)
                      <= inject_Z J)%Q).
    { rewrite <- inject_Z_opp. change 2%Q with (inject_Z 2).
      rewrite <- inject_Z_mult, <- !Zle_Qle. lia. }
    assert (Hdiff :
      (inject_Z (signed s (Z.of_N c')) * (T0 * inject_Z J)
       - inject_Z (signed s (Z.of_N c)) * T0
       == (if s then -1 else 1) * (inject_Z (Z.of_N c' * J - Z.of_N c) * T0))%Q).
    { unfold Z.sub at 1. rewrite inject_Z_plus, inject_Z_opp, !inject_Z_mult.
      destruct s; cbn [signed]; rewrite ?inject_Z_opp; ring. }
    rewrite Hdiff. clear Hdiff.
    remember (inject_Z J) as Jq.
    remember (inject_Z (Z.of_N c' * J - Z.of_N c)) as Y.
    apply Qabs_Qle_condition.
    destruct s; split; nra.
Qed.

(** [_fix] keeps the value of a number that some Decimal of the context
    has. *)
Lemma fix_value_exact s c e r q :
  Dec._fix (Finite s c e) = Ok r ->
  in_context q -> (value q == value (Finite s c e))%Q ->
  (value r == value (Finite s c e))%Q.
Proof.
  pose proof context_values as (Hp & HM & Ht & HT).
  intros Hr Hq Hv. destruct (N.eq_dec c 0%N) as [->|Hc].
  - cbn in Hr. injection Hr as <-. now rewrite !value_zero_coefficient.
  - destruct (fix_finite s c e) as [Ho|(c' & e' & Hf & Hin)]; [congruence|].
    rewrite Hf in Hr. injection Hr as <-.
    destruct q as [sq cq eq| | |]; try contradiction.
    cbn [value] in *.
    pose proof (pow10_pos e) as HTe. pose proof (pow10_pos eq) as HTq.
    (* the magnitudes agree *)
    assert (Hmag : (inject_Z (Z.of_N cq) * inject_Z 10 ^ eq
                    == inject_Z (Z.of_N c) * inject_Z 10 ^ e)%Q).
    { rewrite <- (Qabs_signed sq (Z.of_N cq) (inject_Z 10 ^ eq)) by (lia || assumption).
      rewrite Hv. apply Qabs_signed; [lia|assumption]. }
    apply scaled_eq_aligned in Hmag.
    assert (Hcq : (0 < cq)%N).
    { destruct cq; [|lia]. exfalso. cbn in Hmag.
      assert (0 < 10 ^ (e - Z.min eq e)) by (apply Z.pow_pos_nonneg; lia). nia. }
    destruct Hq as [Heq Hq]. destruct (N.eqb_spec cq 0) as [|_]; [lia|].
    destruct Hq as [Hndq _].
    destruct (fix_rounds s c e c' e' ltac:(lia) Hf)
      as [(-> & -> & _)|(k & Hk & Hk1 & Hke & Hval)]; [reflexivity|].
    assert (Hdiv : Z.of_N c mod 10 ^ k = 0).
    { destruct (Z.le_gt_cases (e + k) eq) as [Hge|Hlt].
      - rewrite Z.min_r in Hmag by lia. rewrite Z.sub_diag, Z.mul_1_r in Hmag.
        rewrite <- Hmag.
        replace (eq - e) with ((eq - e - k) + k) by lia.
        rewrite Z.pow_add_r by lia. rewrite Z.mul_assoc. apply Z.mod_mul.
        apply Z.pow_nonzero; lia.
      - exfalso. destruct (Z.le_gt_cases e eq) as [Hle|Hgt].
        + rewrite Z.min_r in Hmag by lia. rewrite Z.sub_diag, Z.mul_1_r in Hmag.
          pose proof (ndigits_mul_pow10 (Z.of_N cq) (eq - e) ltac:(lia) ltac:(lia)) as Hn.
          rewrite Hmag in Hn. lia.
        + rewrite Z.min_l in Hmag by lia. rewrite Z.sub_diag, Z.mul_1_r in Hmag.
          pose proof (ndigits_mul_pow10 (Z.of_N c) (e - eq) ltac:(lia) ltac:(lia)) as Hn.
          rewrite <- Hmag in Hn. lia. }
    rewrite (rounded_multiple (Z.of_N c) k ltac:(lia) Hdiv) in Hval.
    replace e' with (e + (e' - e)) by lia.
    rewrite pow10_split by lia. rewrite <- Hval.
    remember (10 ^ (e' - e)) as J.
    destruct s; cbn [signed]; rewrite ?inject_Z_opp, !inject_Z_mult; ring.
Qed.
(** The exact sum, difference and product that [_fix] then rounds. *)
Lemma signed_sign_abs z : signed (z <? 0) (Z.of_N (Z.to_N (Z.abs z))) = z.
Proof. rewrite Z2N.id by lia. unfold signed. destruct (Z.ltb_spec z 0); lia. Qed.

Lemma add_exact a b :
  Dec.is_finite a = true -> Dec.is_finite b = true ->
  exists s c e, Dec.add a b = Dec._fix (Finite s c e)
                /\ (value (Finite s c e) == value a + value b)%Q.
Proof.
  destruct a as [s1 c1 e1| | |], b as [s2 c2 e2| | |]; try discriminate. intros _ _.
  rewrite add_finite. cbv zeta.
  remember (Z.min e1 e2) as e.
  assert (Hv : (inject_Z (signed s1 (Z.of_N c1 * 10 ^ (e1 - e))
                          + signed s2 (Z.of_N c2 * 10 ^ (e2 - e))) * inject_Z 10 ^ e
                == value (Finite s1 c1 e1) + value (Finite s2 c2 e2))%Q).
  { cbn [value]. rewrite inject_Z_plus, Qmult_plus_distr_l.
    rewrite !value_aligned by lia. reflexivity. }
  remember (signed s1 (Z.of_N c1 * 10 ^ (e1 - e))
            + signed s2 (Z.of_N c2 * 10 ^ (e2 - e))) as z.
  destruct (Z.eqb_spec z 0) as [Hz|Hz].
  - exists (s1 && s2), 0%N, e. split; [reflexivity|].
    rewrite value_zero_coefficient, <- Hv, Hz. ring.
  - exists (z <? 0), (Z.to_N (Z.abs z)), e. split; [reflexivity|].
    rewrite <- Hv. cbn [value]. now rewrite signed_sign_abs.
Qed.

Lemma value_copy_negate d : (value (Dec.copy_negate d) == - value d)%Q.
Proof.
  destruct d as [s c e| | |]; cbn [Dec.copy_negate value]; try reflexivity.
  rewrite signed_negb, inject_Z_opp. ring.
Qed.

Lemma sub_exact a b :
  Dec.is_finite a = true -> Dec.is_finite b = true ->
  exists s c e, Dec.sub a b = Dec._fix (Finite s c e)
                /\ (value (Finite s c e) == value a - value b)%Q.
Proof.
  intros Ha Hb. rewrite sub_finite by assumption.
  destruct (add_exact a (Dec.copy_negate b) Ha) as (s & c & e & Hf & Hv).
  { now destruct b. }
  exists s, c, e. split; [assumption|]. rewrite Hv, value_copy_negate. ring.
Qed.

Lemma signed_xorb_mul s1 s2 c1 c2 :
  signed (xorb s1 s2) (c1 * c2) = signed s1 c1 * signed s2 c2.
Proof. destruct s1, s2; cbn; lia. Qed.

Lemma mul_exact a b :
  Dec.is_finite a = true -> Dec.is_finite b = true ->
  exists s c e, Dec.mul a b = Dec._fix (Finite s c e)
                /\ (value (Finite s c e) == value a * value b)%Q.
Proof.
  destruct a as [s1 c1 e1| | |], b as [s2 c2 e2| | |]; try discriminate. intros _ _.
  exists (xorb s1 s2), (c1 * c2)%N, (e1 + e2). split; [reflexivity|].
  cbn [value]. rewrite N2Z.inj_mul, signed_xorb_mul, inject_Z_mult.
  rewrite Qpower_plus by apply ten_nonzero. ring.
Qed.

(** What rounding an exact result [x] to the context gives. *)
Lemma fix_correctly_rounded s c e r (x : Q) :
  Dec._fix (Finite s c e) = Ok r -> (value (Finite s c e) == x)%Q ->
  in_context r /\
  (Qabs (value r - x) <= (1 # 2) * inject_Z 10 ^ exponent r)%Q /\
  (forall q, in_context q -> (value q == x)%Q -> (value r == x)%Q).
Proof.
  intros Hr Hx.
  destruct (fix_value_error s c e r Hr) as [Hin Herr].
  split; [assumption|]. split.
  - now rewrite <- Hx.
  - intros q Hq Hqv. rewrite <- Hx. apply (fix_value_exact s c e r q Hr Hq).
    now rewrite Hqv, Hx.
Qed.
(** X1.  Addition rounds correctly.  The sum of two numbers that
    [Addition.execute] returns is a Decimal of the context (at most 28
    digits) within half a unit of its last digit of the exact sum, and is
    the exact sum whenever some Decimal of the context is. *)
Theorem addition_correctly_rounded (a b r : Decimal) :
  Dec.is_finite a = true -> Dec.is_finite b = true ->
  Addition.execute a b = Ok r ->
  in_context r /\
  (Qabs (value r - (value a + value b)) <= (1 # 2) * inject_Z 10 ^ exponent r)%Q /\
  (forall q, in_context q -> (value q == value a + value b)%Q ->
     (value r == value a + value b)%Q).
Proof.
  intros Ha Hb. unfold Addition.execute. run.
  destruct (add_exact a b Ha Hb) as (s & c & e & -> & Hv).
  intros Hr. exact (fix_correctly_rounded s c e r _ Hr Hv).
Qed.

Lemma addition_correctly_rounded_witness :
  in_context (Finite false 88 (-1)) /\
  (Qabs (value (Finite false 88 (-1))
         - (value (Finite false 55 (-1)) + value (Finite false 33 (-1))))
   <= (1 # 2) * inject_Z 10 ^ exponent (Finite false 88 (-1)))%Q /\
  (forall q, in_context q ->
     (value q == value (Finite false 55 (-1)) + value (Finite false 33 (-1)))%Q ->
     (value (Finite false 88 (-1))
      == value (Finite false 55 (-1)) + value (Finite false 33 (-1)))%Q).
Proof.
  apply (addition_correctly_rounded (Finite false 55 (-1)) (Finite false 33 (-1))
           (Finite false 88 (-1))); reflexivity.
Defined.

(** X2.  Subtraction rounds correctly: the same for the difference. *)
Theorem subtraction_correctly_rounded (a b r : Decimal) :
  Dec.is_finite a = true -> Dec.is_finite b = true ->
  Subtraction.execute a b = Ok r ->
  in_context r /\
  (Qabs (value r - (value a - value b)) <= (1 # 2) * inject_Z 10 ^ exponent r)%Q /\
  (forall q, in_context q -> (value q == value a - value b)%Q ->
     (value r == value a - value b)%Q).
Proof.
  intros Ha Hb. unfold Subtraction.execute. run.
  destruct (sub_exact a b Ha Hb) as (s & c & e & -> & Hv).
  intros Hr. exact (fix_correctly_rounded s c e r _ Hr Hv).
Qed.

Lemma subtraction_correctly_rounded_witness :
  in_context (Finite false 22 (-1)) /\
  (Qabs (value (Finite false 22 (-1))
         - (value (Finite false 55 (-1)) - value (Finite false 33 (-1))))
   <= (1 # 2) * inject_Z 10 ^ exponent (Finite false 22 (-1)))%Q /\
  (forall q, in_context q ->
     (value q == value (Finite false 55 (-1)) - value (Finite false 33 (-1)))%Q ->
     (value (Finite false 22 (-1))
      == value (Finite false 55 (-1)) - value (Finite false 33 (-1)))%Q).
Proof.
  apply (subtraction_correctly_rounded (Finite false 55 (-1)) (Finite false 33 (-1))
           (Finite false 22 (-1))); reflexivity.
Defined.

(** X3.  Multiplication rounds correctly: the same for the product. *)
Theorem multiplication_correctly_rounded (a b r : Decimal) :
  Dec.is_finite a = true -> Dec.is_finite b = true ->
  Multiplication.execute a b = Ok r ->
  in_context r /\
  (Qabs (value r - value a * value b) <= (1 # 2) * inject_Z 10 ^ exponent r)%Q /\
  (forall q, in_context q -> (value q == value a * value b)%Q ->
     (value r == value a * value b)%Q).
Proof.
  intros Ha Hb. unfold Multiplication.execute. run.
  destruct (mul_exact a b Ha Hb) as (s & c & e & -> & Hv).
  intros Hr. exact (fix_correctly_rounded s c e r _ Hr Hv).
Qed.

Lemma multiplication_correctly_rounded_witness :
  in_context (Finite false 1815 (-2)) /\
  (Qabs (value (Finite false 1815 (-2))
         - value (Finite false 55 (-1)) * value (Finite false 33 (-1)))
   <= (1 # 2) * inject_Z 10 ^ exponent (Finite false 1815 (-2)))%Q /\
  (forall q, in_context q ->
     (value q == value (Finite false 55 (-1)) * value (Finite false 33 (-1)))%Q ->
     (value (Finite false 1815 (-2))
      == value (Finite false 55 (-1)) * value (Finite false 33 (-1)))%Q).
Proof.
  apply (multiplication_correctly_rounded (Finite false 55 (-1)) (Finite false 33 (-1))
           (Finite false 1815 (-2))); reflexivity.
Defined.
(** ** How the decimal operations behave on their operands *)

Lemma add_comm a b :
  Dec.is_nan a && Dec.is_nan b = false -> Dec.add a b = Dec.add b a.
Proof.
  destruct a as [s1 c1 e1|s1|s1 p1|s1 p1], b as [s2 c2 e2|s2|s2 p2|s2 p2];
    try discriminate; try reflexivity; intros _.
  - rewrite !add_finite. cbv zeta.
    rewrite (Z.min_comm e2 e1), (andb_comm s2 s1).
    rewrite (Z.add_comm (signed s2 _)). reflexivity.
  - cbn. destruct s1, s2; reflexivity.
Qed.

Lemma mul_comm a b :
  Dec.is_nan a && Dec.is_nan b = false -> Dec.mul a b = Dec.mul b a.
Proof.
  destruct a as [s1 c1 e1|s1|s1 p1|s1 p1], b as [s2 c2 e2|s2|s2 p2|s2 p2];
    try discriminate; try reflexivity; intros _; cbn [Dec.mul];
    rewrite (xorb_comm s2 s1); try reflexivity.
  now rewrite (N.mul_comm c2 c1), (Z.add_comm e2 e1).
Qed.

(** X4.  Addition and Multiplication commute.  When at most one operand
    is a NaN, swapping the operands changes nothing: the same result, or
    the same exception. *)
Theorem addition_multiplication_commute (a b : Decimal) :
  Dec.is_nan a && Dec.is_nan b = false ->
  Addition.execute a b = Addition.execute b a /\
  Multiplication.execute a b = Multiplication.execute b a.
Proof.
  intros H. unfold Addition.execute, Multiplication.execute. run.
  split; [now apply add_comm | now apply mul_comm].
Qed.

Lemma addition_multiplication_commute_witness :
  Addition.execute (Finite true 5 0) (Finite false 33 (-1))
    = Addition.execute (Finite false 33 (-1)) (Finite true 5 0) /\
  Multiplication.execute (Finite true 5 0) (Finite false 33 (-1))
    = Multiplication.execute (Finite false 33 (-1)) (Finite true 5 0).
Proof.
  apply (addition_multiplication_commute (Finite true 5 0) (Finite false 33 (-1))).
  reflexivity.
Defined.

Lemma exact_abs_difference_sym a b :
  exact_abs_difference a b = exact_abs_difference b a.
Proof.
  destruct a as [s1 c1 e1|s1|s1 p1|s1 p1], b as [s2 c2 e2|s2|s2 p2|s2 p2];
    try reflexivity.
  cbn [exact_abs_difference]. cbv zeta. rewrite (Z.min_comm e2 e1).
  f_equal. f_equal. lia.
Qed.

(** X5.  AbsoluteDifference is symmetric.  When at most one operand is a
    NaN, [execute(a, b)] and [execute(b, a)] are the same result or the
    same exception. *)
Theorem absolute_difference_symmetric (a b : Decimal) :
  Dec.is_nan a && Dec.is_nan b = false ->
  AbsoluteDifference.execute a b = AbsoluteDifference.execute b a.
Proof.
  destruct a as [s1 c1 e1|s1|s1 p1|s1 p1], b as [s2 c2 e2|s2|s2 p2|s2 p2];
    try discriminate; try reflexivity; intros _.
  - rewrite !absolute_difference_rounds by reflexivity.
    now rewrite exact_abs_difference_sym.
  - destruct s1, s2; reflexivity.
Qed.

Lemma absolute_difference_symmetric_witness :
  AbsoluteDifference.execute (Finite false 43 (-1)) (Finite false 51 (-1))
  = AbsoluteDifference.execute (Finite false 51 (-1)) (Finite false 43 (-1)).
Proof.
  apply (absolute_difference_symmetric (Finite false 43 (-1)) (Finite false 51 (-1))).
  reflexivity.
Defined.

(** X6.  A number minus itself.  For every number [a], however large,
    Subtraction and AbsoluteDifference of [a] and [a] return the positive
    zero at the exponent of [a] (brought into the context's range); no
    Overflow can occur. *)
Theorem difference_with_itself (a : Decimal) :
  Dec.is_finite a = true ->
  let zero := Finite false 0 (Z.min (Z.max (exponent a) Etiny) Emax) in
  Subtraction.execute a a = Ok zero /\
  AbsoluteDifference.execute a a = Ok zero /\
  in_context zero.
Proof.
  pose proof context_values as (Hp & HM & Ht & HT).
  destruct a as [s c e| | |]; try discriminate. intros _. cbv zeta. cbn [exponent].
  assert (Hs : Dec.sub (Finite s c e) (Finite s c e)
               = Ok (Finite false 0 (Z.min (Z.max e Etiny) Emax))).
  { rewrite sub_finite by reflexivity. cbn [Dec.copy_negate]. rewrite add_finite.
    cbv zeta. rewrite signed_negb, Z.add_opp_diag_r. cbn [Z.eqb].
    rewrite andb_negb_r, Z.min_id. reflexivity. }
  split; [exact Hs|]. split.
  - unfold AbsoluteDifference.execute. run. rewrite Hs. run.
    apply abs_in_context. cbn. lia.
  - cbn. lia.
Qed.

Lemma difference_with_itself_witness :
  Subtraction.execute (Finite true 75 (-1)) (Finite true 75 (-1))
    = Ok (Finite false 0 (-1)) /\
  AbsoluteDifference.execute (Finite true 75 (-1)) (Finite true 75 (-1))
    = Ok (Finite false 0 (-1)) /\
  in_context (Finite false 0 (-1)).
Proof.
  apply (difference_with_itself (Finite true 75 (-1))). reflexivity.
Defined.
(** ** Quotients *)

(** A number divided by itself: the coefficient 1 at exponent 0. *)
Lemma div_core_self c e : 0 < c -> Dec.div_core c e c e = (1, 0).
Proof.
  pose proof context_values as (Hp & _).
  intros Hc. unfold Dec.div_core. cbv zeta.
  replace (ndigits c - ndigits c + prec + 1) with 29 by lia.
  change (0 <=? 29) with true. cbv iota.
  replace (c * 10 ^ 29) with (10 ^ 29 * c) by ring.
  pose proof (Z.div_eucl_eq (10 ^ 29 * c) c ltac:(lia)) as Heq.
  pose proof (Z.mod_pos_bound (10 ^ 29 * c) c Hc) as Hb.
  unfold Z.modulo in Hb.
  destruct (Z.div_eucl (10 ^ 29 * c) c) as [q r] eqn:Hqr.
  assert (Hr : r = 0).
  { assert (Hm : (10 ^ 29 * c) mod c = 0) by (apply Z.mod_mul; lia).
    unfold Z.modulo in Hm. now rewrite Hqr in Hm. }
  assert (Hq : q = 10 ^ 29) by nia.
  subst q r. cbn [Z.eqb].
  replace (e - e - (e - e - 29)) with 29 by lia.
  replace (e - e - 29) with (-29) by lia. replace (e - e) with 0 by lia.
  vm_compute. reflexivity.
Qed.

Lemma is_zero_finite s c e : is_zero (Finite s c e) <-> c = 0%N.
Proof.
  split.
  - intros H. destruct (N.eq_dec c 0%N) as [|Hc]; [assumption|].
    unfold is_zero in H. rewrite nonzero_not_eq_zero in H by lia. discriminate.
  - intros ->. apply eq_zero_of_zero.
Qed.

(** X7.  A number divided by itself.  For every number [a] other than
    zero, Division of [a] by [a] returns exactly 1 and Percentage exactly
    100, whatever the size or the number of digits of [a]. *)
Theorem quotient_with_itself (a : Decimal) :
  Dec.is_finite a = true -> ~ is_zero a ->
  Division.execute a a = Ok (Finite false 1 0) /\
  Percentage.execute a a = Ok (Finite false 100 0).
Proof.
  destruct a as [s c e| | |]; try discriminate. intros _ Hz.
  assert (Hc : (0 < c)%N) by (now apply not_zero_coefficient in Hz).
  assert (Hq : Dec.truediv (Finite s c e) (Finite s c e) = Ok (Finite false 1 0)).
  { cbn [Dec.truediv]. destruct (N.eqb_spec c 0) as [|_]; [lia|].
    rewrite div_core_self by lia. rewrite xorb_nilpotent. reflexivity. }
  unfold Division.execute, Division.validate_operands,
    Percentage.execute, Percentage.validate_operands. run.
  rewrite nonzero_not_eq_zero by assumption. run. rewrite Hq. run.
  split; reflexivity.
Qed.

Lemma quotient_with_itself_witness :
  Division.execute (Finite true 125 (-1)) (Finite true 125 (-1)) = Ok (Finite false 1 0) /\
  Percentage.execute (Finite true 125 (-1)) (Finite true 125 (-1))
    = Ok (Finite false 100 0).
Proof.
  apply (quotient_with_itself (Finite true 125 (-1))); [reflexivity|].
  intros H. discriminate H.
Defined.
(** Rounding raises the leading digit by at most one place. *)
Lemma fix_adjusted s c e c' e' :
  (0 < c)%N ->
  Dec._fix (Finite s c e) = Ok (Finite s c' e') ->
  c' = 0%N \/ ndigits (Z.of_N c') + e' <= ndigits (Z.of_N c) + e + 1.
Proof.
  intros Hc Hf.
  destruct (fix_rounds s c e c' e' Hc Hf)
    as [(-> & -> & _)|(k & Hk & Hk1 & Hke & Hval)]; [right; lia|].
  destruct (N.eq_dec c' 0%N) as [|Hc']; [now left|right].
  pose proof (rounded_error (Z.of_N c) k ltac:(lia) ltac:(lia)) as Herr.
  pose proof (ndigits_spec (Z.of_N c) ltac:(lia)) as [_ Hhi].
  pose proof (ndigits_pos (Z.of_N c)) as Hnd.
  remember (ndigits (Z.of_N c)) as nd.
  assert (HJ : 0 < 10 ^ (e' - e)) by (apply Z.pow_pos_nonneg; lia).
  assert (HX : Z.of_N c' * 10 ^ (e' - e) < 10 ^ (nd + 1)).
  { rewrite Hval in *. rewrite Z.pow_add_r, Z.pow_1_r by lia.
    destruct (Z.le_gt_cases k nd) as [Hle|Hgt].
    - pose proof (Z.pow_le_mono_r 10 k nd ltac:(lia) Hle). lia.
    - exfalso.
      pose proof (Z.pow_le_mono_r 10 (nd + 1) k ltac:(lia) ltac:(lia)) as Hp.
      rewrite Z.pow_add_r, Z.pow_1_r in Hp by lia.
      assert (HP : 0 < 10 ^ k) by (apply Z.pow_pos_nonneg; lia).
      assert (Hr0 : 0 <= rounded (Z.of_N c) k).
      { unfold rounded. pose proof (Z.div_pos (Z.of_N c) (10 ^ k) ltac:(lia) HP).
        destruct (Dec.round_half_even_up _ _); lia. }
      assert (rounded (Z.of_N c) k = 0) by nia.
      nia. }
  pose proof (ndigits_mul_pow10 (Z.of_N c') (e' - e) ltac:(lia) ltac:(lia)) as Hn.
  pose proof (ndigits_le (Z.of_N c' * 10 ^ (e' - e)) (nd + 1) ltac:(nia)). lia.
Qed.

(** A result of [_fix] has its leading digit at Emax or below. *)
Lemma fix_ok_adjusted s c e r :
  (0 < c)%N -> Dec._fix (Finite s c e) = Ok r -> ndigits (Z.of_N c) + e - 1 <= Emax.
Proof.
  pose proof context_values as (Hp & HM & Ht & HT).
  intros Hc. unfold Dec._fix. cbv zeta.
  destruct (Z.eqb_spec (Z.of_N c) 0) as [|_]; [lia|].
  destruct (Z.ltb_spec Etop (ndigits (Z.of_N c) + e - prec)); [discriminate|].
  intros _. lia.
Qed.

(** The quotient of two numbers, the dividend zero or not. *)
Lemma truediv_value_error_all s1 c1 e1 s2 c2 e2 q :
  (0 < c2)%N ->
  Dec.truediv (Finite s1 c1 e1) (Finite s2 c2 e2) = Ok q ->
  in_context q /\
  (Qabs (value q - value (Finite s1 c1 e1) / value (Finite s2 c2 e2))
   <= (1 # 2) * inject_Z 10 ^ exponent q)%Q.
Proof.
  intros Hc2 Hq. destruct (N.eq_dec c1 0%N) as [->|Hc1].
  - cbn [Dec.truediv] in Hq. destruct (N.eqb_spec c2 0) as [|_]; [lia|].
    cbn [N.eqb] in Hq.
    destruct (fix_value_error _ _ _ _ Hq) as [Hin Herr].
    split; [assumption|].
    assert (Hz : (value (Finite s1 0 e1) / value (Finite s2 c2 e2) == 0)%Q).
    { rewrite value_zero_coefficient. unfold Qdiv. apply Qmult_0_l. }
    rewrite Hz. now rewrite value_zero_coefficient in Herr.
  - apply truediv_value_error; [lia|assumption|assumption].
Qed.

Lemma truediv_adjusted s1 c1 e1 s2 c2 e2 sq cq eq :
  (0 < c1)%N -> (0 < c2)%N ->
  Dec.truediv (Finite s1 c1 e1) (Finite s2 c2 e2) = Ok (Finite sq cq eq) ->
  cq = 0%N \/
  adjusted (Finite sq cq eq)
  <= adjusted (Finite s1 c1 e1) - adjusted (Finite s2 c2 e2) + 1.
Proof.
  intros Hc1 Hc2. cbn [Dec.truediv adjusted].
  destruct (N.eqb_spec c2 0) as [|_]; [lia|].
  destruct (N.eqb_spec c1 0) as [|_]; [lia|].
  pose proof (div_core_spec (Z.of_N c1) e1 (Z.of_N c2) e2 ltac:(lia) ltac:(lia)) as Hs.
  cbv zeta in Hs.
  destruct (Dec.div_core (Z.of_N c1) e1 (Z.of_N c2) e2) as [coeff exp].
  destruct Hs as (_ & _ & Hco & _ & Hnd & _).
  intros Hf.
  assert (sq = xorb s1 s2).
  { destruct (fix_finite (xorb s1 s2) (Z.to_N coeff) exp) as [Ho|(c' & e' & Hf' & _)];
      congruence. }
  subst sq.
  destruct (fix_adjusted (xorb s1 s2) (Z.to_N coeff) exp cq eq ltac:(lia) Hf)
    as [|Ha]; [now left|right].
  rewrite Z2N.id in Ha by lia. lia.
Qed.

(** ** Percentage *)

Lemma hundred_times s c e :
  (inject_Z (signed s (Z.of_N (c * 100))) * inject_Z 10 ^ e
   == 100 * value (Finite s c e))%Q.
Proof.
  cbn [value]. rewrite N2Z.inj_mul. change (Z.of_N 100) with 100.
  destruct s; cbn [signed]; rewrite ?inject_Z_opp, inject_Z_mult;
    change (inject_Z 100) with 100%Q; ring.
Qed.

(** Multiplying a Decimal of the context by 100 is exact. *)
Lemma mul_hundred_exact q r :
  in_context q -> Dec.mul q Dec.hundred = Ok r ->
  in_context r /\ (value r == 100 * value q)%Q.
Proof.
  pose proof context_values as (Hp & HM & Ht & HT).
  destruct q as [s c e| | |]; try contradiction. intros Hq Hr.
  assert (Hm : Dec.mul (Finite s c e) Dec.hundred = Dec._fix (Finite s (c * 100) e)).
  { cbn [Dec.mul Dec.hundred]. now rewrite xorb_false_r, Z.add_0_r. }
  rewrite Hm in Hr.
  destruct (fix_correctly_rounded s (c * 100) e r (100 * value (Finite s c e)) Hr
              (hundred_times s c e)) as (Hin & _ & Hex).
  split; [assumption|].
  destruct (N.eq_dec c 0%N) as [->|Hc].
  - cbn in Hr. injection Hr as <-. rewrite !value_zero_coefficient. ring.
  - apply (Hex (Finite s c (e + 2))).
    + pose proof (fix_ok_adjusted s (c * 100) e r ltac:(lia) Hr) as Ha.
      rewrite N2Z.inj_mul in Ha. change (Z.of_N 100) with (10 ^ 2) in Ha.
      rewrite ndigits_mul_pow10 in Ha by lia.
      destruct Hq as [He Hq]. cbn [in_context].
      destruct (N.eqb_spec c 0) as [|_]; [lia|]. lia.
    + cbn [value]. rewrite (pow10_split e 2) by lia.
      change (inject_Z (10 ^ 2)) with 100%Q. ring.
Qed.

(** X8.  Percentage is a hundred times the rounded quotient.  For a
    number [a] and a number [b] other than zero, the result of Percentage
    is exactly 100 times what Division returns for the same operands (the
    multiplication by 100 adds no rounding error of its own), so it is
    within 50 units of the quotient's last digit of the exact [100*a/b];
    and a result is returned whenever the leading digit of [a] is fewer
    than 999996 places above that of [b]. *)
Theorem percentage_scales_quotient (a b : Decimal) :
  Dec.is_finite a = true -> Dec.is_finite b = true -> ~ is_zero b ->
  (forall r, Percentage.execute a b = Ok r ->
     exists q, Division.execute a b = Ok q /\ in_context r /\
       (value r == 100 * value q)%Q /\
       (Qabs (value r - 100 * (value a / value b))
        <= 50 * inject_Z 10 ^ exponent q)%Q) /\
  (adjusted a - adjusted b < Emax - 3 -> succeeds (Percentage.execute a b)).
Proof.
  pose proof context_values as (Hp & HM & Ht & HT).
  destruct a as [s1 c1 e1| | |]; try discriminate.
  destruct b as [s2 c2 e2| | |]; try discriminate. intros _ _ Hz.
  assert (Hc2 : (0 < c2)%N) by (now apply not_zero_coefficient in Hz).
  unfold Percentage.execute, Percentage.validate_operands,
    Division.execute, Division.validate_operands. run.
  rewrite nonzero_not_eq_zero by assumption. run. split.
  - intros r Hr.
    destruct (Dec.truediv (Finite s1 c1 e1) (Finite s2 c2 e2)) as [q|] eqn:Hq;
      [|discriminate].
    run. cbn [mbind result_bind] in Hr.
    exists q. split; [reflexivity|].
    destruct (truediv_value_error_all _ _ _ _ _ _ _ Hc2 Hq) as [Hinq Herr].
    destruct (mul_hundred_exact q r Hinq Hr) as [Hin Hv].
    split; [assumption|]. split; [assumption|].
    rewrite Hv.
    remember (value (Finite s1 c1 e1) / value (Finite s2 c2 e2))%Q as x.
    remember (value q) as v.
    pose proof (pow10_pos (exponent q)) as HT0.
    remember (inject_Z 10 ^ exponent q)%Q as T.
    apply Qabs_Qle_condition in Herr. apply Qabs_Qle_condition.
    split; lra.
  - intros Hadj.
    destruct (truediv_succeeds s1 c1 e1 s2 c2 e2 Hc2 ltac:(lia)) as [q Hq].
    rewrite Hq. run.
    destruct (truediv_value_error_all _ _ _ _ _ _ _ Hc2 Hq) as [Hinq _].
    destruct q as [sq cq eq| | |]; try contradiction.
    cbn [Dec.mul Dec.hundred]. apply fix_succeeds.
    destruct (N.eq_dec cq 0%N) as [->|Hcq]; [now left|right].
    destruct (N.eq_dec c1 0%N) as [->|Hc1].
    + exfalso. cbn [Dec.truediv] in Hq.
      destruct (N.eqb_spec c2 0) as [|_]; [lia|]. cbn in Hq. congruence.
    + destruct (truediv_adjusted s1 c1 e1 s2 c2 e2 sq cq eq ltac:(lia) Hc2 Hq) as [|Ha];
        [contradiction|].
      rewrite N2Z.inj_mul. change (Z.of_N 100) with (10 ^ 2).
      rewrite ndigits_mul_pow10 by lia.
      cbn [adjusted] in Ha, Hadj. lia.
Qed.

Lemma percentage_scales_quotient_witness :
  succeeds (Percentage.execute (Finite false 1 0) (Finite false 3 0)).
Proof.
  apply (proj2 (percentage_scales_quotient (Finite false 1 0) (Finite false 3 0)
                  ltac:(reflexivity) ltac:(reflexivity)
                  ltac:(intros H; discriminate H))).
  vm_compute. reflexivity.
Defined.
(** ** More on the factory *)



Lemma instantiate_ok cls i :
  instantiate cls = Ok i -> i = Instance cls /\ is_concrete cls = true.
Proof.
  destruct cls as [v| |name inherits []]; cbn; intros [= <-]; eauto.
Qed.






(** X11.  A registration touches one key.  Whether it succeeds or
    raises, [register_operation(name, cls)] leaves [create_operation]
    as it was for every key that differs from [name] in more than the
    case of its letters. *)
Theorem register_leaves_other_keys (ops : gmap string py_class)
    (name : string) (cls : py_class) (s : string) :
  ~ same_letters s name ->
  OperationFactory.create_operation
    (snd (OperationFactory.register_operation ops name cls)) s
  = OperationFactory.create_operation ops s.
Proof.
  intros Hs. unfold OperationFactory.register_operation, OperationFactory.create_operation.
  destruct (issubclass_Operation cls); cbn [negb snd]; [|reflexivity].
  rewrite lookup_insert_ne; [reflexivity|]. intros H. apply Hs. now symmetry.
Qed.

Lemma register_leaves_other_keys_witness :
  OperationFactory.create_operation
    (snd (OperationFactory.register_operation OperationFactory._operations
            "ADD" (OperationClass Subtraction))) "Subtract"
  = OperationFactory.create_operation OperationFactory._operations "Subtract".
Proof.
  apply (register_leaves_other_keys OperationFactory._operations "ADD"
           (OperationClass Subtraction) "Subtract").
  intros H. discriminate H.
Defined.


(** X13.  How registrations compose.  Registering the same class under
    the same name twice is the same as once; registrations under names
    with different letters can be swapped; and of two successful
    registrations under names with the same letters the later one wins. *)
Theorem registrations_compose (ops : gmap string py_class)
    (n1 n2 : string) (c1 c2 : py_class) :
  let register ops name cls := snd (OperationFactory.register_operation ops name cls) in
  register (register ops n1 c1) n1 c1 = register ops n1 c1 /\
  (~ same_letters n1 n2 ->
   register (register ops n1 c1) n2 c2 = register (register ops n2 c2) n1 c1) /\
  (same_letters n1 n2 -> issubclass_Operation c2 = true ->
   register (register ops n1 c1) n2 c2 = register ops n2 c2).
Proof.
  cbv zeta. unfold OperationFactory.register_operation, same_letters.
  split; [|split].
  - destruct (issubclass_Operation c1); cbn [negb snd]; [|reflexivity].
    apply insert_insert_eq.
  - intros Hn.
    destruct (issubclass_Operation c1), (issubclass_Operation c2); cbn [negb snd];
      try reflexivity.
    apply insert_insert_ne. intros H. apply Hn. now symmetry.
  - intros Hn ->. cbn [negb snd]. rewrite <- Hn.
    destruct (issubclass_Operation c1); cbn [negb snd]; [|reflexivity].
    apply insert_insert_eq.
Qed.
Lemma create_builtin s i :
  OperationFactory.create_operation OperationFactory._operations s = Ok i ->
  exists v, i = Instance (OperationClass v) /\
    OperationFactory._operations !! lower s = Some (OperationClass v).
Proof.
  unfold OperationFactory.create_operation.
  destruct (OperationFactory._operations !! lower s) as [cls|] eqn:Hl; [|discriminate].
  intros Hi. apply instantiate_ok in Hi as [-> _].
  unfold OperationFactory._operations in Hl.
  repeat (apply lookup_insert_Some in Hl as [[_ <-] | [_ Hl]]; [eauto|]).
  rewrite lookup_empty in Hl. discriminate.
Qed.

Lemma builtin_key_of_class k v :
  OperationFactory._operations !! k = Some (OperationClass v) ->
  k = match v with
      | Addition => "add" | Subtraction => "subtract"
      | Multiplication => "multiply" | Division => "divide"
      | Power => "power" | Root => "root" | Modulus => "modulus"
      | IntegerDivision => "integer_division" | Percentage => "percentage"
      | AbsoluteDifference => "absolute_difference"
      end.
Proof.
  unfold OperationFactory._operations. intros H.
  repeat (apply lookup_insert_Some in H as [[<- H] | [_ H]];
          [destruct v; (reflexivity || discriminate)|]).
  rewrite lookup_empty in H. discriminate.
Qed.

(** X14.  [str] tells the built-in operations apart.  With the mapping as
    the module initialises it, the operations created for two keys have
    the same display name ([str(operation)], the class name) exactly when
    the keys differ at most in the case of their letters. *)
Theorem str_identifies_operation (s1 s2 : string) (i1 i2 : instance) :
  OperationFactory.create_operation OperationFactory._operations s1 = Ok i1 ->
  OperationFactory.create_operation OperationFactory._operations s2 = Ok i2 ->
  (__str__ i1 = __str__ i2 <-> same_letters s1 s2).
Proof.
  intros (v1 & -> & H1)%create_builtin (v2 & -> & H2)%create_builtin.
  apply builtin_key_of_class in H1, H2. unfold same_letters. rewrite H1, H2.
  destruct v1, v2; cbn [__str__ __name__]; split; intros H;
    (reflexivity || discriminate H).
Qed.

Lemma str_identifies_operation_witness :
  __str__ (Instance (OperationClass Power)) = __str__ (Instance (OperationClass Power))
  <-> same_letters "POWER" "Power".
Proof.
  apply (str_identifies_operation "POWER" "Power"); reflexivity.
Defined.
(** ** The operations that go through floats *)

(** [float(d)] succeeds on every number. *)
Lemma of_decimal_finite s c e : exists x, Float.of_decimal (Finite s c e) = Ok x.
Proof.
  cbn [Float.of_decimal]. destruct c as [|p]; [eauto|].
  destruct (0 <=? e); [eauto|].
  destruct (SFdiv_core_binary Float.prec Float.emax (Z.pos p) 0 (10 ^ (- e)) 0)
    as [[mz ez] lz].
  eauto.
Qed.

Lemma of_decimal_zero s e : Float.of_decimal (Finite s 0 e) = Ok (S754_zero s).
Proof. reflexivity. Qed.

Lemma validate_zero_divisor b :
  Dec.is_finite b = true ->
  (is_zero b /\
   Division.validate_operands b b = Raise (ValidationError "Division by zero is not allowed"))
  \/ (~ is_zero b /\ Dec.eq b Dec.zero = Ok false).
Proof.
  destruct b as [s c e| | |]; try discriminate. intros _.
  destruct (N.eq_dec c 0%N) as [->|Hc].
  - left. split; [apply eq_zero_of_zero|].
    unfold Division.validate_operands. run. now rewrite eq_zero_of_zero.
  - right. split.
    + rewrite is_zero_finite. assumption.
    + apply nonzero_not_eq_zero. lia.
Qed.

(** X15.  When Modulus fails.  For two numbers, [Modulus.execute]
    raises the ValidationError exactly when [b == 0]; it raises
    ZeroDivisionError("float modulo") exactly when [b] is not zero but
    [float(b)] is (a [b] too small for a float, such as 1E-400, passes
    the validation); and it returns a result in every other case. *)
Theorem modulus_outcomes (a b : Decimal) (y : float) :
  Dec.is_finite a = true -> Dec.is_finite b = true ->
  Float.of_decimal b = Ok y ->
  (Modulus.execute a b = Raise (ValidationError "Division by zero is not allowed")
   <-> is_zero b) /\
  (Modulus.execute a b = Raise (ZeroDivisionError "float modulo")
   <-> ~ is_zero b /\ Float.eqb y Float.zero = true) /\
  (succeeds (Modulus.execute a b) <-> Float.eqb y Float.zero = false).
Proof.
  destruct a as [s1 c1 e1| | |]; try discriminate.
  destruct b as [s2 c2 e2| | |]; try discriminate. intros _ _ Hy.
  destruct (of_decimal_finite s1 c1 e1) as [x Hx].
  unfold Modulus.execute, Modulus.validate_operands. run.
  destruct (N.eq_dec c2 0%N) as [->|Hc].
  - rewrite eq_zero_of_zero. run.
    rewrite of_decimal_zero in Hy. injection Hy as <-.
    pose proof (eq_zero_of_zero s2 e2) as Hz. fold (is_zero (Finite s2 0 e2)) in Hz.
    split; [tauto|]. split.
    + split; [discriminate|]. intros [Hn _]. contradiction.
    + split; [intros [v Hv]; discriminate|]. destruct s2; discriminate.
  - assert (Hnz : ~ is_zero (Finite s2 c2 e2)) by (now rewrite is_zero_finite).
    rewrite nonzero_not_eq_zero by lia. run. rewrite Hx, Hy. run.
    unfold Float.rem. destruct (Float.eqb y Float.zero) eqn:Hy0; run.
    + split; [split; [discriminate|contradiction]|].
      split; [tauto|]. split; [intros [v Hv]; discriminate|discriminate].
    + split; [split; [|contradiction]|split; [split; [|intros [_ H]; discriminate]|]].
      * destruct (Float.nonzero (Float.fmod x y));
          [destruct (xorb _ _)|]; discriminate.
      * destruct (Float.nonzero (Float.fmod x y));
          [destruct (xorb _ _)|]; discriminate.
      * split; [reflexivity|]. intros _.
        destruct (Float.nonzero (Float.fmod x y));
          [destruct (xorb _ _)|]; run; eexists; reflexivity.
Qed.

Lemma modulus_outcomes_witness :
  Modulus.execute (Finite false 10 0) (Finite false 1 (-400))
  = Raise (ZeroDivisionError "float modulo").
Proof.
  apply (proj2 (proj1 (proj2 (modulus_outcomes (Finite false 10 0) (Finite false 1 (-400))
                                (S754_zero false) ltac:(reflexivity) ltac:(reflexivity)
                                ltac:(vm_compute; reflexivity))))).
  split; [intros H; discriminate H | reflexivity].
Defined.

(** X16.  When IntegerDivision fails.  The same for the floor division:
    the ValidationError exactly when [b == 0],
    ZeroDivisionError("float floor division by zero") exactly when [b] is
    not zero but [float(b)] is, a result in every other case. *)
Theorem integer_division_outcomes (a b : Decimal) (y : float) :
  Dec.is_finite a = true -> Dec.is_finite b = true ->
  Float.of_decimal b = Ok y ->
  (IntegerDivision.execute a b
     = Raise (ValidationError "Division by zero is not allowed")
   <-> is_zero b) /\
  (IntegerDivision.execute a b
     = Raise (ZeroDivisionError "float floor division by zero")
   <-> ~ is_zero b /\ Float.eqb y Float.zero = true) /\
  (succeeds (IntegerDivision.execute a b) <-> Float.eqb y Float.zero = false).
Proof.
  destruct a as [s1 c1 e1| | |]; try discriminate.
  destruct b as [s2 c2 e2| | |]; try discriminate. intros _ _ Hy.
  destruct (of_decimal_finite s1 c1 e1) as [x Hx].
  unfold IntegerDivision.execute, IntegerDivision.validate_operands. run.
  destruct (N.eq_dec c2 0%N) as [->|Hc].
  - rewrite eq_zero_of_zero. run.
    rewrite of_decimal_zero in Hy. injection Hy as <-.
    pose proof (eq_zero_of_zero s2 e2) as Hz. fold (is_zero (Finite s2 0 e2)) in Hz.
    split; [tauto|]. split.
    + split; [discriminate|]. intros [Hn _]. contradiction.
    + split; [intros [v Hv]; discriminate|]. destruct s2; discriminate.
  - assert (Hnz : ~ is_zero (Finite s2 c2 e2)) by (now rewrite is_zero_finite).
    rewrite nonzero_not_eq_zero by lia. run. rewrite Hx, Hy. run.
    unfold Float.floor_div. destruct (Float.eqb y Float.zero) eqn:Hy0; run.
    + split; [split; [discriminate|contradiction]|].
      split; [tauto|]. split; [intros [v Hv]; discriminate|discriminate].
    + cbv zeta.
      split; [split; [|contradiction]|split; [split; [|intros [_ H]; discriminate]|]].
      * destruct (Float.nonzero _); [destruct (Float.ltb Float.half _)|]; discriminate.
      * destruct (Float.nonzero _); [destruct (Float.ltb Float.half _)|]; discriminate.
      * split; [reflexivity|]. intros _.
        destruct (Float.nonzero _); [destruct (Float.ltb Float.half _)|]; run;
          eexists; reflexivity.
Qed.

Lemma integer_division_outcomes_witness :
  IntegerDivision.execute (Finite false 10 0) (Finite false 1 (-400))
  = Raise (ZeroDivisionError "float floor division by zero").
Proof.
  apply (proj2 (proj1 (proj2 (integer_division_outcomes
                                (Finite false 10 0) (Finite false 1 (-400))
                                (S754_zero false) ltac:(reflexivity) ltac:(reflexivity)
                                ltac:(vm_compute; reflexivity))))).
  split; [intros H; discriminate H | reflexivity].
Defined.
(** ** Powers that need no C library *)

Lemma decimal_of_one : Decimal_new (PyFloat Float.one) = Ok (Finite false 1 0).
Proof. reflexivity. Qed.

Lemma eqb_one_positive x :
  Float.eqb x Float.one = true -> exists m e, x = S754_finite false m e.
Proof.
  destruct x as [s|s| |s m e]; try discriminate; try (destruct s; discriminate).
  destruct s; [discriminate|]. eauto.
Qed.

Lemma nonnegative_of_decimal b :
  nonnegative b -> exists y, Float.of_decimal b = Ok y.
Proof.
  destruct b as [s c e|s|s p|s p]; try discriminate; intros _.
  - apply of_decimal_finite.
  - cbn. eauto.
Qed.

(** [pow(1.0, y)] is 1.0 for every [y], a NaN included. *)
Lemma pow_one `{Libm} x y :
  Float.eqb x Float.one = true -> Float.pow x y = Ok (PyFloat Float.one).
Proof.
  intros Hx. destruct (eqb_one_positive x Hx) as (m & e & ->).
  unfold Float.pow.
  destruct (Float.eqb y Float.zero); [reflexivity|].
  cbn [Float.is_nan]. destruct (Float.is_nan y); [now rewrite Hx|].
  destruct (Float.is_infinity y).
  { cbn [Float.fabs SFabs]. change (SFabs (S754_finite false m e)) with (S754_finite false m e).
    now rewrite Hx. }
  cbn [Float.is_infinity Float.ltb SFltb SFcompare Float.zero andb].
  change (Float.eqb (S754_finite false m e) (S754_zero false)) with false.
  cbv iota. now rewrite Hx.
Qed.

(** X17.  A zero exponent.  For every first operand that converts to a
    float (every Decimal but a signaling NaN: zero, negative numbers,
    infinities and NaN included) and every zero [b] of any sign and
    exponent, [Power.execute(a, b)] is exactly 1. *)
Theorem power_zero_exponent `{Libm} (a : Decimal) (x : float) (s : bool) (e : Z) :
  Float.of_decimal a = Ok x ->
  Power.execute a (Finite s 0 e) = Ok (Finite false 1 0).
Proof.
  intros Hx. unfold Power.execute, Power.validate_operands. run.
  assert (Hlt : Dec.lt (Finite s 0 e) Dec.zero = Ok false) by (destruct s; reflexivity).
  rewrite Hlt. run. rewrite Hx, of_decimal_zero. run.
  unfold Float.pow.
  assert (Hz : Float.eqb (S754_zero s) Float.zero = true) by (destruct s; reflexivity).
  rewrite Hz. reflexivity.
Qed.

Lemma power_zero_exponent_witness :
  @Power.execute sample_libm (NaN false 0) (Finite true 0 (-2)) = Ok (Finite false 1 0).
Proof.
  apply (@power_zero_exponent sample_libm (NaN false 0) S754_nan true (-2)).
  reflexivity.
Defined.

(** X18.  The bases 0 and 1.  When [float(a)] is 1.0,
    [Power.execute(a, b)] is exactly 1 for every [b >= 0], the infinity
    included; when [a] is a zero, [Power.execute(a, b)] is a zero for
    every [b >= 0] with [float(b) > 0].  Neither result depends on the
    C library. *)
Theorem power_of_zero_and_one `{Libm} (a b : Decimal) :
  nonnegative b ->
  (forall x, Float.of_decimal a = Ok x -> Float.eqb x Float.one = true ->
     Power.execute a b = Ok (Finite false 1 0)) /\
  (forall y, is_zero a -> Dec.is_finite a = true ->
     Float.of_decimal b = Ok y -> Float.ltb Float.zero y = true ->
     exists s, Power.execute a b = Ok (Finite s 0 0)).
Proof.
  intros Hb. unfold Power.execute, Power.validate_operands. run.
  unfold nonnegative in Hb. rewrite Hb. run. split.
  - intros x Hx Hx1. rewrite Hx. run.
    destruct (nonnegative_of_decimal b Hb) as [y ->]. run.
    rewrite (pow_one x y Hx1). reflexivity.
  - intros y Hz Hfin Hy Hy0.
    destruct a as [sa ca ea| | |]; try discriminate.
    apply is_zero_finite in Hz. subst ca.
    rewrite of_decimal_zero, Hy. run.
    unfold Float.pow.
    destruct y as [sy|sy| |sy my ey]; try discriminate;
      try (destruct sy; discriminate).
    + destruct sy; [discriminate|]. destruct sa; cbn; eauto.
    + destruct sy; [discriminate|].
      cbn [Float.eqb SFeqb SFcompare Float.zero Float.is_nan Float.is_infinity
           Float.ltb SFltb].
      destruct sa; cbn [Float.eqb SFeqb SFcompare Float.zero Float.ltb SFltb andb];
        destruct (Float.is_odd_integer (S754_finite false my ey)); run;
        cbn [Decimal_new Float.to_decimal]; eauto.
Qed.

Lemma power_of_zero_and_one_witness :
  exists s, @Power.execute sample_libm (Finite true 0 3) (Finite false 25 (-1))
            = Ok (Finite s 0 0).
Proof.
  apply (proj2 (@power_of_zero_and_one sample_libm (Finite true 0 3) (Finite false 25 (-1))
                  ltac:(reflexivity))
           (S754_finite false 5629499534213120 (-51))).
  - reflexivity.
  - reflexivity.
  - vm_compute. reflexivity.
  - reflexivity.
Defined.
(** X19.  Roots that need no C library.  For [a >= 0] and [b != 0],
    [Root.execute(a, b)] is exactly 1 when [float(a)] is 1.0 and
    [float(b)] is not zero, and also, whatever [a] is, when [float(b)] is
    infinite ([b] an infinity, or a number beyond the largest float, such
    as 1E+400): [1 / float(b)] is then 0.0, and any float to the power
    0.0 is 1.0. *)
Theorem root_degenerate_cases `{Libm} (a b : Decimal) (x y : float) :
  nonnegative a -> Dec.eq b Dec.zero = Ok false ->
  Float.of_decimal a = Ok x -> Float.of_decimal b = Ok y ->
  (Float.eqb y Float.zero = false -> Float.eqb x Float.one = true ->
   Root.execute a b = Ok (Finite false 1 0)) /\
  (Float.is_infinity y = true -> Root.execute a b = Ok (Finite false 1 0)).
Proof.
  intros Ha Hb Hx Hy. unfold Root.execute, Root.validate_operands. run.
  unfold nonnegative in Ha. rewrite Ha. run. rewrite Hb. run.
  rewrite Hx, Hy. run. unfold Float.true_div. split.
  - intros Hy0 Hx1. rewrite Hy0. run. rewrite (pow_one x _ Hx1). reflexivity.
  - intros Hinf. destruct y as [sy|sy| |sy my ey]; try discriminate.
    cbn [Float.eqb SFeqb SFcompare Float.zero]. destruct sy; run;
      unfold Float.pow; reflexivity.
Qed.

Lemma root_degenerate_cases_witness :
  @Root.execute sample_libm (Finite false 5 0) (Finite false 1 400)
  = Ok (Finite false 1 0).
Proof.
  apply (proj2 (@root_degenerate_cases sample_libm (Finite false 5 0) (Finite false 1 400)
                  (S754_finite false 5629499534213120 (-50)) (S754_infinity false)
                  ltac:(reflexivity) ltac:(reflexivity)
                  ltac:(vm_compute; reflexivity) ltac:(vm_compute; reflexivity))).
  reflexivity.
Defined.
(** ** From a float back to a Decimal *)

Lemma trailing_zeros_nonneg m : 0 <= Float.trailing_zeros m.
Proof. induction m; cbn [Float.trailing_zeros]; lia. Qed.

Lemma trailing_zeros_divide m t :
  0 <= t <= Float.trailing_zeros m -> Zpos m mod 2 ^ t = 0.
Proof.
  revert t. induction m as [m IH|m IH|]; intros t; cbn [Float.trailing_zeros]; intros Ht.
  - replace t with 0 by lia. apply Z.mod_1_r.
  - destruct (Z.eq_dec t 0) as [->|Hne]; [apply Z.mod_1_r|].
    replace t with (Z.succ (t - 1)) by lia. rewrite Z.pow_succ_r by lia.
    change (Z.pos m~0) with (2 * Z.pos m).
    rewrite Z.mul_mod_distr_l; [|apply Z.pow_nonzero; lia|lia].
    rewrite IH by lia. reflexivity.
  - replace t with 0 by lia. apply Z.mod_1_r.
Qed.

Lemma two_nonzero : ~ (inject_Z 2 == 0)%Q.
Proof. discriminate. Qed.

Lemma pow2_pos (e : Z) : (0 < inject_Z 2 ^ e)%Q.
Proof. apply Qpower_0_lt. reflexivity. Qed.

Lemma pow5_pos (e : Z) : (0 < inject_Z 5 ^ e)%Q.
Proof. apply Qpower_0_lt. reflexivity. Qed.

(** [Decimal.from_float] is exact on a finite float. *)
Lemma to_decimal_value s m e :
  (value (Float.to_decimal (S754_finite s m e)) == float_value (S754_finite s m e))%Q.
Proof.
  cbn [Float.to_decimal float_value]. destruct (Z.leb_spec 0 e) as [He|He].
  - cbn [value]. rewrite Z2N.id by (apply Z.mul_nonneg_nonneg; [lia|apply Z.pow_nonneg; lia]).
    change (inject_Z 10 ^ 0)%Q with 1%Q. rewrite Qmult_1_r.
    rewrite <- (Zpower_Qpower 2 e) by lia.
    destruct s; cbn [signed]; rewrite ?inject_Z_opp, inject_Z_mult; ring.
  - pose proof (trailing_zeros_nonneg m) as Htz.
    remember (Z.min (Float.trailing_zeros m) (- e)) as t.
    remember (- e - t) as k.
    pose proof (trailing_zeros_divide m t ltac:(lia)) as Hdiv.
    assert (H2t : 0 < 2 ^ t) by (apply Z.pow_pos_nonneg; lia).
    pose proof (Z.div_mod (Z.pos m) (2 ^ t) ltac:(lia)) as Hm. rewrite Hdiv, Z.add_0_r in Hm.
    remember (Z.pos m / 2 ^ t) as n.
    assert (Hn : 0 < n) by nia.
    assert (H5k : 0 < 5 ^ k) by (apply Z.pow_pos_nonneg; lia).
    cbn [value]. rewrite Z2N.id by nia.
    assert (H10 : (inject_Z 10 ^ (- k) == / (inject_Z 2 ^ k * inject_Z 5 ^ k))%Q).
    { rewrite Qpower_opp. apply Qinv_comp.
      change (inject_Z 10) with (inject_Z 2 * inject_Z 5)%Q. apply Qmult_power. }
    assert (H2e : (inject_Z 2 ^ e == / (inject_Z 2 ^ k * inject_Z 2 ^ t))%Q).
    { replace e with (- (k + t)) by lia. rewrite Qpower_opp. apply Qinv_comp.
      apply Qpower_plus. apply two_nonzero. }
    rewrite H10, H2e, Hm.
    rewrite <- (Zpower_Qpower 5 k), <- (Zpower_Qpower 2 t) by lia.
    pose proof (pow2_pos k) as HA.
    pose proof (inject_Z_pos (5 ^ k) H5k) as HB.
    pose proof (inject_Z_pos (2 ^ t) H2t) as HT.
    remember (inject_Z 2 ^ k)%Q as A. remember (inject_Z (5 ^ k)) as B.
    remember (inject_Z (2 ^ t)) as T.
    destruct s; cbn [signed]; rewrite ?inject_Z_opp, !inject_Z_mult, <- ?HeqB, <- ?HeqT;
      field; split; lra.
Qed.

(** X20.  Converting the float result back is exact.  [Decimal(x)] on a
    float, the last step of Power, Root, Modulus and IntegerDivision,
    never fails and never rounds: the Decimal has exactly the value of
    the float (with as many digits as that takes), an infinity gives the
    infinity of the same sign, a NaN gives a NaN, and a zero keeps its
    sign. *)
Theorem decimal_of_float_exact (x : float) :
  exists d, Decimal_new (PyFloat x) = Ok d /\
    (value d == float_value x)%Q /\
    match x with
    | S754_finite s _ _ => exists c e, d = Finite s c e /\ (0 < c)%N /\ e <= 0
    | S754_zero s => d = Finite s 0 0
    | S754_infinity s => d = Infinity s
    | S754_nan => d = NaN false 0
    end.
Proof.
  exists (Float.to_decimal x). split; [reflexivity|]. split.
  - destruct x as [s|s| |s m e]; try reflexivity.
    + apply value_zero_coefficient.
    + apply to_decimal_value.
  - destruct x as [s|s| |s m e]; try reflexivity.
    cbn [Float.to_decimal]. destruct (Z.leb_spec 0 e) as [He|He].
    + assert (0 < 2 ^ e) by (apply Z.pow_pos_nonneg; lia).
      eexists _, _. split; [reflexivity|]. split; [|lia]. nia.
    + pose proof (trailing_zeros_nonneg m) as Htz.
      remember (Z.min (Float.trailing_zeros m) (- e)) as t.
      pose proof (trailing_zeros_divide m t ltac:(lia)) as Hdiv.
      assert (H2t : 0 < 2 ^ t) by (apply Z.pow_pos_nonneg; lia).
      pose proof (Z.div_mod (Z.pos m) (2 ^ t) ltac:(lia)) as Hm.
      rewrite Hdiv, Z.add_0_r in Hm.
      assert (H5k : 0 < 5 ^ (- e - t)) by (apply Z.pow_pos_nonneg; lia).
      eexists _, _. split; [reflexivity|]. split; [|lia]. nia.
Qed.
(** ** Floats that are whole numbers *)

(** The number of bits of a positive number. *)
Lemma digits2_spec p :
  2 ^ (Zpos (digits2_pos p) - 1) <= Zpos p < 2 ^ Zpos (digits2_pos p).
Proof.
  induction p as [p IH|p IH|]; cbn [digits2_pos]; rewrite ?Pos2Z.inj_succ.
  - replace (Z.succ (Z.pos (digits2_pos p)) - 1) with (Z.succ (Z.pos (digits2_pos p) - 1))
      by lia.
    rewrite !Z.pow_succ_r by lia. lia.
  - replace (Z.succ (Z.pos (digits2_pos p)) - 1) with (Z.succ (Z.pos (digits2_pos p) - 1))
      by lia.
    rewrite !Z.pow_succ_r by lia. lia.
  - cbn. lia.
Qed.

Lemma Zdigits2_spec z :
  0 < z -> 2 ^ (Zdigits2 z - 1) <= z < 2 ^ Zdigits2 z.
Proof. destruct z as [|p|p]; try lia. intros _. apply digits2_spec. Qed.

Lemma Zdigits2_pos z : 0 < z -> 1 <= Zdigits2 z.
Proof. destruct z as [|p|p]; cbn; lia. Qed.

Lemma Zdigits2_unique z d :
  0 < z -> 2 ^ (d - 1) <= z < 2 ^ d -> Zdigits2 z = d.
Proof.
  intros Hz [Hlo Hhi]. pose proof (Zdigits2_spec z Hz) as [Hlo' Hhi'].
  pose proof (Zdigits2_pos z Hz).
  destruct (Z.lt_trichotomy (Zdigits2 z) d) as [Hlt|[Heq|Hgt]]; [|assumption|].
  - pose proof (Z.pow_le_mono_r 2 (Zdigits2 z) (d - 1) ltac:(lia) ltac:(lia)). lia.
  - assert (0 <= d).
    { destruct (Z.le_gt_cases 0 d); [assumption|].
      rewrite (Z.pow_neg_r 2 d) in Hhi by lia. lia. }
    pose proof (Z.pow_le_mono_r 2 d (Zdigits2 z - 1) ltac:(lia) ltac:(lia)). lia.
Qed.

Lemma Zdigits2_mul_pow2 z j :
  0 < z -> 0 <= j -> Zdigits2 (z * 2 ^ j) = Zdigits2 z + j.
Proof.
  intros Hz Hj. pose proof (Zdigits2_spec z Hz) as [Hlo Hhi].
  pose proof (Zdigits2_pos z Hz).
  assert (Hp : 0 < 2 ^ j) by (apply Z.pow_pos_nonneg; lia).
  apply Zdigits2_unique; [nia|].
  replace (Zdigits2 z + j - 1) with ((Zdigits2 z - 1) + j) by lia.
  rewrite !Z.pow_add_r by lia. nia.
Qed.

Lemma Zdigits2_abs z : Zdigits2 (Z.abs z) = Zdigits2 z.
Proof. now destruct z. Qed.

Lemma Zdigits2_bound z : 0 < z < 2 ^ 53 -> Zdigits2 z <= 53.
Proof.
  intros [Hz Hlt]. pose proof (Zdigits2_spec z Hz) as [Hlo _].
  destruct (Z.le_gt_cases (Zdigits2 z) 53); [assumption|].
  pose proof (Z.pow_le_mono_r 2 53 (Zdigits2 z - 1) ltac:(lia) ltac:(lia)). lia.
Qed.

(** Shifting zeros out of a mantissa is exact. *)
Lemma iter_pos_nat {A} (f : A -> A) n x :
  SpecFloat.iter_pos f n x = Nat.iter (Pos.to_nat n) f x.
Proof.
  revert x. induction n as [n IH|n IH|]; intros x; cbn [SpecFloat.iter_pos].
  - rewrite !IH, Pos2Nat.inj_xI, Nat.iter_succ_r.
    replace (2 * Pos.to_nat n)%nat with (Pos.to_nat n + Pos.to_nat n)%nat by lia.
    now rewrite Nat.iter_add.
  - rewrite !IH, Pos2Nat.inj_xO.
    replace (2 * Pos.to_nat n)%nat with (Pos.to_nat n + Pos.to_nat n)%nat by lia.
    now rewrite Nat.iter_add.
  - reflexivity.
Qed.

Lemma shr_1_even z :
  0 < z ->
  shr_1 {| shr_m := 2 * z; shr_r := false; shr_s := false |}
  = {| shr_m := z; shr_r := false; shr_s := false |}.
Proof. destruct z as [|p|p]; try lia. reflexivity. Qed.

Lemma shr_zeros (k : nat) z :
  0 < z ->
  Nat.iter k shr_1 {| shr_m := z * 2 ^ Z.of_nat k; shr_r := false; shr_s := false |}
  = {| shr_m := z; shr_r := false; shr_s := false |}.
Proof.
  intros Hz. induction k as [|k IH].
  - cbn [Nat.iter]. now rewrite Z.pow_0_r, Z.mul_1_r.
  - rewrite Nat.iter_succ_r, Nat2Z.inj_succ, Z.pow_succ_r by lia.
    replace (z * (2 * 2 ^ Z.of_nat k)) with (2 * (z * 2 ^ Z.of_nat k)) by ring.
    rewrite shr_1_even; [exact IH|].
    apply Z.mul_pos_pos; [assumption|apply Z.pow_pos_nonneg; lia].
Qed.

Lemma fexp_whole d : -1021 <= d -> fexp Float.prec Float.emax d = d - 53.
Proof. intros H. unfold fexp, emin, Float.prec, Float.emax. lia. Qed.

(** Rounding a mantissa of at least 53 bits, of which all but the
    leading 53 are zero, keeps the number. *)
Lemma round_aux_exact s (a J : Z) :
  0 < a < 2 ^ 53 -> 0 <= J -> 53 <= Zdigits2 a + J ->
  binary_round_aux Float.prec Float.emax s (a * 2 ^ J) (- J) loc_Exact
  = S754_finite s (Z.to_pos (a * 2 ^ (53 - Zdigits2 a))) (Zdigits2 a - 53).
Proof.
  intros Ha HJ Hd.
  pose proof (Zdigits2_bound a Ha) as Hda. pose proof (Zdigits2_pos a ltac:(lia)) as Hda1.
  assert (HP : 0 < 2 ^ (53 - Zdigits2 a)) by (apply Z.pow_pos_nonneg; lia).
  unfold binary_round_aux, shr_fexp.
  rewrite Zdigits2_mul_pow2 by lia.
  replace (Zdigits2 a + J + - J) with (Zdigits2 a) by lia.
  rewrite fexp_whole by lia.
  cbn [shr_record_of_loc].
  remember (Zdigits2 a - 53 - - J) as n eqn:Hn.
  assert (Hfin : forall q,
    0 < q -> Zdigits2 q = 53 ->
    (let '(mrs'', e'') :=
       shr (shr_record_of_loc q loc_Exact) (Zdigits2 a - 53)
         (fexp Float.prec Float.emax (Zdigits2 q + (Zdigits2 a - 53)) - (Zdigits2 a - 53)) in
     match shr_m mrs'' with
     | 0 => S754_zero s
     | Z.pos m => if e'' <=? Float.emax - Float.prec then S754_finite s m e''
                  else S754_infinity s
     | Z.neg _ => S754_nan
     end) = S754_finite s (Z.to_pos q) (Zdigits2 a - 53)).
  { intros q Hq Hdq. rewrite Hdq.
    replace (53 + (Zdigits2 a - 53)) with (Zdigits2 a) by lia.
    rewrite fexp_whole, Z.sub_diag by lia. cbn [shr shr_record_of_loc shr_m].
    destruct q as [|q|q]; try lia.
    destruct (Z.leb_spec (Zdigits2 a - 53) (Float.emax - Float.prec)) as [|Hgt];
      [reflexivity|]. unfold Float.emax, Float.prec in Hgt. lia. }
  destruct n as [|n|n]; [| |lia].
  - (* no shift *)
    cbn [shr shr_m loc_of_shr_record round_nearest_even].
    assert (HJe : J = 53 - Zdigits2 a) by lia.
    replace (- J) with (Zdigits2 a - 53) by lia. rewrite HJe.
    apply Hfin; [nia|]. rewrite Zdigits2_mul_pow2 by lia. lia.
  - (* the low [n] bits, all zero, are shifted out *)
    cbn [shr]. rewrite iter_pos_nat.
    replace (a * 2 ^ J) with (a * 2 ^ (53 - Zdigits2 a) * 2 ^ Z.of_nat (Pos.to_nat n)).
    2:{ rewrite positive_nat_Z, <- Z.mul_assoc, <- Z.pow_add_r by lia. f_equal. f_equal. lia. }
    rewrite shr_zeros by nia.
    cbn [shr_m loc_of_shr_record round_nearest_even].
    replace (- J + Z.pos n) with (Zdigits2 a - 53) by lia.
    apply Hfin; [nia|]. rewrite Zdigits2_mul_pow2 by lia. lia.
Qed.
Lemma iter_xO q d : Zpos (Pos.iter xO q d) = Zpos q * 2 ^ Zpos d.
Proof.
  induction d as [|d IH] using Pos.peano_ind.
  - cbn [Pos.iter]. rewrite Pos2Z.inj_xO. change (2 ^ 1) with 2. lia.
  - rewrite Pos.iter_succ, Pos2Z.inj_xO, IH, Pos2Z.inj_succ, Z.pow_succ_r by lia. ring.
Qed.

(** Normalising a whole number below [2^53], however it is scaled. *)
Lemma round_whole s (a j : Z) :
  0 < a < 2 ^ 53 -> 0 <= j ->
  binary_round Float.prec Float.emax s (Z.to_pos (a * 2 ^ j)) (- j)
  = S754_finite s (Z.to_pos (a * 2 ^ (53 - Zdigits2 a))) (Zdigits2 a - 53).
Proof.
  intros Ha Hj.
  pose proof (Zdigits2_bound a Ha) as Hda. pose proof (Zdigits2_pos a ltac:(lia)) as Hda1.
  assert (Hp : 0 < 2 ^ j) by (apply Z.pow_pos_nonneg; lia).
  assert (Hq : Zpos (Z.to_pos (a * 2 ^ j)) = a * 2 ^ j) by (apply Z2Pos.id; nia).
  unfold binary_round.
  change (Z.pos (digits2_pos (Z.to_pos (a * 2 ^ j))))
    with (Zdigits2 (Zpos (Z.to_pos (a * 2 ^ j)))).
  rewrite Hq, Zdigits2_mul_pow2 by lia.
  replace (Zdigits2 a + j + - j) with (Zdigits2 a) by lia.
  rewrite fexp_whole by lia.
  unfold shl_align.
  destruct (Zdigits2 a - 53 - - j) as [|n|n] eqn:Hn.
  - rewrite Hq. apply round_aux_exact; lia.
  - rewrite Hq. apply round_aux_exact; lia.
  - rewrite iter_xO, Hq.
    replace (a * 2 ^ j * 2 ^ Z.pos n) with (a * 2 ^ (53 - Zdigits2 a)).
    2:{ rewrite <- Z.mul_assoc, <- Z.pow_add_r by lia. f_equal. f_equal. lia. }
    replace (Zdigits2 a - 53) with (- (53 - Zdigits2 a)) at 1 by lia.
    apply round_aux_exact; lia.
Qed.

Lemma normalize_whole (z j : Z) (szero : bool) :
  z <> 0 -> Z.abs z < 2 ^ 53 -> 0 <= j ->
  binary_normalize Float.prec Float.emax (z * 2 ^ j) (- j) szero = whole_float z.
Proof.
  intros Hz Hlt Hj.
  assert (Hp : 0 < 2 ^ j) by (apply Z.pow_pos_nonneg; lia).
  unfold whole_float, Float.prec.
  destruct z as [|p|p]; [lia| |].
  - rewrite <- (Z2Pos.id (Z.pos p * 2 ^ j)) by nia. cbn [binary_normalize].
    rewrite round_whole by lia. reflexivity.
  - replace (Z.neg p * 2 ^ j) with (Z.neg (Z.to_pos (Z.pos p * 2 ^ j))).
    2:{ rewrite <- Pos2Z.opp_pos, Z2Pos.id by nia. change (Z.neg p) with (- Z.pos p). ring. }
    cbn [binary_normalize]. rewrite round_whole by lia. reflexivity.
Qed.

Lemma normalize_whole_0 (z : Z) (szero : bool) :
  z <> 0 -> Z.abs z < 2 ^ 53 ->
  binary_normalize Float.prec Float.emax z 0 szero = whole_float z.
Proof.
  intros Hz Hlt. rewrite <- (normalize_whole z 0 szero Hz Hlt ltac:(lia)).
  now rewrite Z.pow_0_r, Z.mul_1_r.
Qed.

(** ** Whole numbers through [float] and back *)

Lemma of_decimal_whole z :
  z <> 0 -> Z.abs z < 2 ^ 53 ->
  Float.of_decimal (Decimal_of_Z z) = Ok (whole_float z).
Proof.
  intros Hz Hlt. unfold Decimal_of_Z, Float.of_decimal.
  destruct (Z.to_N (Z.abs z)) as [|p] eqn:Hp; [lia|].
  cbn [Z.leb Z.compare]. rewrite Z.pow_0_r, Z.mul_1_r.
  replace (signed (z <? 0) (Z.pos p)) with z.
  2:{ unfold signed. destruct (Z.ltb_spec z 0); lia. }
  now rewrite normalize_whole_0.
Qed.

Lemma trailing_zeros_shift (a i : Z) :
  0 < a -> 0 <= i -> i <= Float.trailing_zeros (Z.to_pos (a * 2 ^ i)).
Proof.
  intros Ha Hi. rewrite <- (Z2Nat.id i Hi). clear Hi.
  induction (Z.to_nat i) as [|k IH].
  - apply trailing_zeros_nonneg.
  - rewrite Nat2Z.inj_succ, Z.pow_succ_r by lia.
    assert (Hk : 0 < a * 2 ^ Z.of_nat k).
    { apply Z.mul_pos_pos; [lia|apply Z.pow_pos_nonneg; lia]. }
    replace (a * (2 * 2 ^ Z.of_nat k)) with (2 * (a * 2 ^ Z.of_nat k)) by ring.
    destruct (a * 2 ^ Z.of_nat k) as [|q|q]; try lia.
    cbn [Z.to_pos] in IH. change (Z.to_pos (2 * Z.pos q)) with (xO q).
    cbn [Float.trailing_zeros]. lia.
Qed.

Lemma to_decimal_whole z :
  z <> 0 -> Z.abs z < 2 ^ 53 ->
  Float.to_decimal (whole_float z) = Decimal_of_Z z.
Proof.
  intros Hz Hlt.
  assert (Ha : 0 < Z.abs z < 2 ^ 53) by lia.
  pose proof (Zdigits2_bound _ Ha) as Hd. pose proof (Zdigits2_pos _ (proj1 Ha)) as Hd1.
  rewrite Zdigits2_abs in Hd, Hd1.
  unfold whole_float, Float.to_decimal, Decimal_of_Z, Float.prec.
  remember (53 - Zdigits2 z) as i.
  assert (HP : 0 < 2 ^ i) by (apply Z.pow_pos_nonneg; lia).
  assert (Hm : Z.pos (Z.to_pos (Z.abs z * 2 ^ i)) = Z.abs z * 2 ^ i)
    by (apply Z2Pos.id; nia).
  destruct (Z.leb_spec 0 (Zdigits2 z - 53)) as [Hge|Hlt0].
  - rewrite Hm. replace (Zdigits2 z - 53) with 0 by lia. replace i with 0 by lia.
    now rewrite !Z.pow_0_r, !Z.mul_1_r.
  - pose proof (trailing_zeros_shift (Z.abs z) i ltac:(lia) ltac:(lia)) as Htz.
    replace (- (Zdigits2 z - 53)) with i by lia.
    rewrite Z.min_r by lia. rewrite Hm, Z.sub_diag, Z.pow_0_r, Z.mul_1_r.
    rewrite Z.div_mul by lia. reflexivity.
Qed.

Lemma whole_float_sign z :
  Float.ltb (whole_float z) Float.zero = (z <? 0) /\
  Float.eqb (whole_float z) Float.zero = false /\
  Float.nonzero (whole_float z) = true.
Proof. unfold whole_float. destruct (z <? 0); repeat split. Qed.
(** ** Arithmetic on whole floats *)

Lemma whole_float_mantissa z :
  z <> 0 -> Z.abs z < 2 ^ 53 ->
  Zpos (Z.to_pos (Z.abs z * 2 ^ (Float.prec - Zdigits2 z)))
  = Z.abs z * 2 ^ (53 - Zdigits2 z)
  /\ 1 <= Zdigits2 z <= 53.
Proof.
  intros Hz Hlt. assert (Ha : 0 < Z.abs z < 2 ^ 53) by lia.
  pose proof (Zdigits2_bound _ Ha) as Hd. pose proof (Zdigits2_pos _ (proj1 Ha)) as Hd1.
  rewrite Zdigits2_abs in Hd, Hd1. split; [|lia].
  unfold Float.prec. apply Z2Pos.id.
  apply Z.mul_pos_pos; [lia|apply Z.pow_pos_nonneg; lia].
Qed.

Lemma signed_lt0_abs z : signed (z <? 0) (Z.abs z) = z.
Proof. unfold signed. destruct (Z.ltb_spec z 0); lia. Qed.

Lemma signed_mul s a b : signed s (a * b) = signed s a * b.
Proof. destruct s; cbn [signed]; ring. Qed.

(** [fmod] of two whole floats is the float of the truncated remainder. *)
Lemma fmod_whole u v :
  u <> 0 -> Z.abs u < 2 ^ 53 -> v <> 0 -> Z.abs v < 2 ^ 53 ->
  Float.fmod (whole_float u) (whole_float v)
  = if Z.rem u v =? 0 then S754_zero (u <? 0) else whole_float (Z.rem u v).
Proof.
  intros Hu Hul Hv Hvl.
  destruct (whole_float_mantissa u Hu Hul) as [Hmu Hdu].
  destruct (whole_float_mantissa v Hv Hvl) as [Hmv Hdv].
  unfold whole_float at 1 2. cbn [Float.fmod]. rewrite Hmu, Hmv. unfold Float.prec.
  remember (Z.min (Zdigits2 u - 53) (Zdigits2 v - 53)) as e.
  remember (- e) as j.
  assert (Hj : 0 <= j) by lia.
  assert (HP : 0 < 2 ^ j) by (apply Z.pow_pos_nonneg; lia).
  assert (HX : Z.abs u * 2 ^ (53 - Zdigits2 u) * 2 ^ (Zdigits2 u - 53 - e) = Z.abs u * 2 ^ j).
  { rewrite <- Z.mul_assoc, <- Z.pow_add_r by lia. f_equal. f_equal. lia. }
  assert (HY : Z.abs v * 2 ^ (53 - Zdigits2 v) * 2 ^ (Zdigits2 v - 53 - e) = Z.abs v * 2 ^ j).
  { rewrite <- Z.mul_assoc, <- Z.pow_add_r by lia. f_equal. f_equal. lia. }
  rewrite HX, HY.
  rewrite Z.mul_mod_distr_r by lia.
  rewrite signed_mul.
  assert (Hr : signed (u <? 0) (Z.abs u mod Z.abs v) = Z.rem u v).
  { rewrite Z.rem_mod by assumption. unfold signed.
    destruct (Z.ltb_spec u 0); [rewrite Z.sgn_neg by lia|rewrite Z.sgn_pos by lia]; lia. }
  rewrite Hr. replace e with (- j) by lia.
  pose proof (Z.rem_bound_abs u v Hv) as Hb.
  destruct (Z.eqb_spec (Z.rem u v) 0) as [->|Hne].
  - reflexivity.
  - apply normalize_whole; lia.
Qed.

Lemma shl_align_value mx ex ez :
  ez <= ex -> Zpos (fst (shl_align mx ex ez)) = Zpos mx * 2 ^ (ex - ez).
Proof.
  intros H. unfold shl_align. destruct (ez - ex) as [|d|d] eqn:Hd; cbn [fst].
  - replace (ex - ez) with 0 by lia. now rewrite Z.pow_0_r, Z.mul_1_r.
  - lia.
  - rewrite iter_xO. f_equal. f_equal. lia.
Qed.

Lemma cond_Zopp_signed s z : cond_Zopp s z = signed s z.
Proof. reflexivity. Qed.

(** The sum and the difference of two whole floats are exact as long as
    they stay below [2^53]. *)
Lemma aligned_whole u v :
  u <> 0 -> Z.abs u < 2 ^ 53 -> v <> 0 -> Z.abs v < 2 ^ 53 ->
  let ez := Z.min (Zdigits2 u - Float.prec) (Zdigits2 v - Float.prec) in
  0 <= - ez /\
  cond_Zopp (u <? 0)
    (Zpos (fst (shl_align (Z.to_pos (Z.abs u * 2 ^ (Float.prec - Zdigits2 u)))
                  (Zdigits2 u - Float.prec) ez)))
  = u * 2 ^ (- ez).
Proof.
  intros Hu Hul Hv Hvl ez.
  destruct (whole_float_mantissa u Hu Hul) as [Hmu Hdu].
  destruct (whole_float_mantissa v Hv Hvl) as [Hmv Hdv].
  unfold Float.prec in *. split; [lia|].
  rewrite shl_align_value, Hmu by lia.
  rewrite <- Z.mul_assoc, <- Z.pow_add_r by lia.
  replace (53 - Zdigits2 u + (Zdigits2 u - 53 - ez)) with (- ez) by lia.
  rewrite cond_Zopp_signed, signed_mul, signed_lt0_abs. reflexivity.
Qed.

Lemma add_whole u v :
  u <> 0 -> Z.abs u < 2 ^ 53 -> v <> 0 -> Z.abs v < 2 ^ 53 ->
  Z.abs (u + v) < 2 ^ 53 ->
  Float.add (whole_float u) (whole_float v)
  = if u + v =? 0 then S754_zero false else whole_float (u + v).
Proof.
  intros Hu Hul Hv Hvl Hs.
  destruct (aligned_whole u v Hu Hul Hv Hvl) as [Hj Hau].
  destruct (aligned_whole v u Hv Hvl Hu Hul) as [_ Hav].
  cbv zeta in Hau, Hav. rewrite (Z.min_comm (Zdigits2 v - _)) in Hav.
  unfold Float.add, whole_float at 1 2. cbn [SFadd]. cbv zeta.
  fold Float.prec Float.emax.
  rewrite Hau, Hav, <- Z.mul_add_distr_r.
  remember (- Z.min (Zdigits2 u - Float.prec) (Zdigits2 v - Float.prec)) as j.
  replace (Z.min (Zdigits2 u - Float.prec) (Zdigits2 v - Float.prec)) with (- j) by lia.
  destruct (Z.eqb_spec (u + v) 0) as [->|Hne]; [reflexivity|].
  apply normalize_whole; lia.
Qed.

Lemma sub_whole u v :
  u <> 0 -> Z.abs u < 2 ^ 53 -> v <> 0 -> Z.abs v < 2 ^ 53 ->
  Z.abs (u - v) < 2 ^ 53 ->
  Float.sub (whole_float u) (whole_float v)
  = if u - v =? 0 then S754_zero false else whole_float (u - v).
Proof.
  intros Hu Hul Hv Hvl Hs.
  destruct (aligned_whole u v Hu Hul Hv Hvl) as [Hj Hau].
  destruct (aligned_whole v u Hv Hvl Hu Hul) as [_ Hav].
  cbv zeta in Hau, Hav. rewrite (Z.min_comm (Zdigits2 v - _)) in Hav.
  unfold Float.sub, whole_float at 1 2. cbn [SFsub]. cbv zeta.
  fold Float.prec Float.emax.
  rewrite Hau, Hav, <- Z.mul_sub_distr_r.
  remember (- Z.min (Zdigits2 u - Float.prec) (Zdigits2 v - Float.prec)) as j.
  replace (Z.min (Zdigits2 u - Float.prec) (Zdigits2 v - Float.prec)) with (- j) by lia.
  destruct (Z.eqb_spec (u - v) 0) as [->|Hne]; [reflexivity|].
  apply normalize_whole; lia.
Qed.

(** ** Modulus on whole numbers *)

(** The floored remainder from the truncated one. *)
Lemma modulo_of_rem m n :
  n <> 0 ->
  m mod n = if (Z.rem m n =? 0) || Bool.eqb (n <? 0) (Z.rem m n <? 0)
            then Z.rem m n else Z.rem m n + n.
Proof.
  intros Hn.
  pose proof (Z.quot_rem' m n) as Hqr. pose proof (Z.rem_bound_abs m n Hn) as Hb.
  remember (Z.rem m n) as r. remember (Z.quot m n) as q.
  destruct (Z.eqb_spec r 0) as [H0|H0]; cbn [orb].
  - symmetry. apply (Z.mod_unique m n q r); lia.
  - destruct (Z.ltb_spec n 0), (Z.ltb_spec r 0); cbn [Bool.eqb]; symmetry.
    + apply (Z.mod_unique m n q r); lia.
    + apply (Z.mod_unique m n (q - 1) (r + n)); lia.
    + apply (Z.mod_unique m n (q - 1) (r + n)); lia.
    + apply (Z.mod_unique m n q r); lia.
Qed.

Lemma decimal_of_Z_nonzero n : n <> 0 -> Dec.eq (Decimal_of_Z n) Dec.zero = Ok false.
Proof. intros Hn. unfold Decimal_of_Z. apply nonzero_not_eq_zero. lia. Qed.

Lemma rem_whole m n :
  m <> 0 -> Z.abs m < 2 ^ 53 -> n <> 0 -> Z.abs n < 2 ^ 53 ->
  Float.rem (whole_float m) (whole_float n)
  = Ok (if m mod n =? 0 then S754_zero (n <? 0) else whole_float (m mod n)).
Proof.
  intros Hm Hml Hn Hnl. unfold Float.rem.
  destruct (whole_float_sign n) as (Hlt & Heq & _). rewrite Heq, Hlt.
  rewrite fmod_whole by assumption.
  rewrite (modulo_of_rem m n Hn).
  pose proof (Z.rem_bound_abs m n Hn) as Hb.
  destruct (Z.eqb_spec (Z.rem m n) 0) as [H0|H0].
  - rewrite H0. cbn [orb Z.eqb]. now destruct (m <? 0).
  - cbn [orb].
    destruct (whole_float_sign (Z.rem m n)) as (Hlt' & _ & Hnz'). rewrite Hnz', Hlt'.
    destruct (Z.ltb_spec n 0) as [Hn0|Hn0], (Z.ltb_spec (Z.rem m n) 0) as [Hr0|Hr0];
      cbn [xorb Bool.eqb].
    + destruct (Z.eqb_spec (Z.rem m n) 0); [lia|reflexivity].
    + assert (Z.rem m n + n <> 0 /\ Z.abs (Z.rem m n + n) < 2 ^ 53) as [Hs Hsl] by lia.
      rewrite add_whole by lia.
      destruct (Z.eqb_spec (Z.rem m n + n) 0); [lia|reflexivity].
    + assert (Z.rem m n + n <> 0 /\ Z.abs (Z.rem m n + n) < 2 ^ 53) as [Hs Hsl] by lia.
      rewrite add_whole by lia.
      destruct (Z.eqb_spec (Z.rem m n + n) 0); [lia|reflexivity].
    + destruct (Z.eqb_spec (Z.rem m n) 0); [lia|reflexivity].
Qed.

(** X21.  Modulus is exact on whole numbers.  For whole numbers [m] and
    [n <> 0] of magnitude below [2^53], [Modulus.execute] returns exactly
    the remainder of the floored division, the one with the sign of the
    divisor; a zero remainder is the zero with the sign of the divisor
    ([Decimal('-0')] for a negative [n]). *)
Theorem modulus_whole_numbers (m n : Z) :
  Z.abs m < 2 ^ 53 -> n <> 0 -> Z.abs n < 2 ^ 53 ->
  Modulus.execute (Decimal_of_Z m) (Decimal_of_Z n)
  = Ok (if m mod n =? 0 then Finite (n <? 0) 0 0 else Decimal_of_Z (m mod n)).
Proof.
  intros Hml Hn Hnl. unfold Modulus.execute, Modulus.validate_operands. run.
  rewrite decimal_of_Z_nonzero by assumption. run.
  rewrite (of_decimal_whole n) by assumption.
  destruct (Z.eq_dec m 0) as [->|Hm].
  - cbn [Decimal_of_Z Z.ltb Z.compare Z.abs Z.to_N Float.of_decimal]. run.
    unfold Float.rem. destruct (whole_float_sign n) as (Hlt & Heq & _). rewrite Heq.
    unfold whole_float at 1. cbn [Float.fmod Float.nonzero Float.eqb SFeqb SFcompare
                                  Float.zero negb]. run.
    rewrite Z.mod_0_l by assumption. cbn [Z.eqb].
    unfold Float.copysign_zero, whole_float. reflexivity.
  - rewrite (of_decimal_whole m) by assumption. run.
    rewrite rem_whole by assumption. run.
    pose proof (Z.mod_bound_or m n Hn) as Hb.
    destruct (Z.eqb_spec (m mod n) 0) as [H0|H0]; [reflexivity|].
    rewrite to_decimal_whole by lia. reflexivity.
Qed.

Lemma modulus_whole_numbers_witness :
  Modulus.execute (Decimal_of_Z (-7)) (Decimal_of_Z 2)
  = Ok (if (-7) mod 2 =? 0 then Finite (2 <? 0) 0 0 else Decimal_of_Z ((-7) mod 2)).
Proof.
  apply (modulus_whole_numbers (-7) 2); [reflexivity|discriminate|reflexivity].
Defined.
(** ** IntegerDivision on whole numbers *)

Lemma Zdigits2_mul_le a b :
  0 < a -> 0 < b -> Zdigits2 (a * b) <= Zdigits2 a + Zdigits2 b.
Proof.
  intros Ha Hb.
  pose proof (Zdigits2_spec a Ha) as [_ Hha]. pose proof (Zdigits2_spec b Hb) as [_ Hhb].
  pose proof (Zdigits2_spec (a * b) ltac:(nia)) as [Hlo _].
  pose proof (Zdigits2_pos a Ha). pose proof (Zdigits2_pos b Hb).
  destruct (Z.le_gt_cases (Zdigits2 (a * b)) (Zdigits2 a + Zdigits2 b)); [assumption|].
  pose proof (Z.pow_le_mono_r 2 (Zdigits2 a + Zdigits2 b) (Zdigits2 (a * b) - 1)
                ltac:(lia) ltac:(lia)) as Hp.
  rewrite Z.pow_add_r in Hp by lia. nia.
Qed.

Lemma Zdigits2_le a b : 0 < a <= b -> Zdigits2 a <= Zdigits2 b.
Proof.
  intros [Ha Hab].
  pose proof (Zdigits2_spec a Ha) as [Hlo _].
  pose proof (Zdigits2_spec b ltac:(lia)) as [_ Hhi].
  pose proof (Zdigits2_pos b ltac:(lia)).
  destruct (Z.le_gt_cases (Zdigits2 a) (Zdigits2 b)); [assumption|].
  pose proof (Z.pow_le_mono_r 2 (Zdigits2 b) (Zdigits2 a - 1) ltac:(lia) ltac:(lia)). lia.
Qed.

Lemma new_location_exact m : new_location m 0 = loc_Exact.
Proof.
  unfold new_location, new_location_even, new_location_odd.
  destruct (Z.even m); reflexivity.
Qed.

Lemma div_eucl_exact a b : 0 < b -> Z.div_eucl (a * b) b = (a, 0).
Proof.
  intros Hb.
  pose proof (Z.div_mul a b ltac:(lia)) as Hd. pose proof (Z.mod_mul a b ltac:(lia)) as Hm.
  unfold Z.div, Z.modulo in Hd, Hm.
  destruct (Z.div_eucl (a * b) b) as [q r]. cbn in Hd, Hm. congruence.
Qed.

(** The quotient of two whole floats, when it is a whole number. *)
Lemma div_whole n q :
  n <> 0 -> q <> 0 -> Z.abs (n * q) < 2 ^ 53 ->
  Float.div (whole_float (n * q)) (whole_float n) = whole_float q.
Proof.
  intros Hn Hq Hw.
  assert (Hnl : Z.abs n < 2 ^ 53) by nia.
  assert (Hql : Z.abs q < 2 ^ 53) by nia.
  assert (Hw0 : n * q <> 0) by nia.
  destruct (whole_float_mantissa (n * q) Hw0 Hw) as [Hmw Hdw].
  destruct (whole_float_mantissa n Hn Hnl) as [Hmn Hdn].
  destruct (whole_float_mantissa q Hq Hql) as [Hmq Hdq].
  pose proof (Zdigits2_mul_le (Z.abs n) (Z.abs q) ltac:(lia) ltac:(lia)) as Hle.
  rewrite <- Z.abs_mul, !Zdigits2_abs in Hle.
  pose proof (Zdigits2_le (Z.abs n) (Z.abs (n * q)) ltac:(nia)) as Hge.
  rewrite !Zdigits2_abs in Hge.
  remember (Zdigits2 (n * q)) as dw. remember (Zdigits2 n) as dn.
  remember (Zdigits2 q) as dq.
  unfold Float.div, whole_float at 1 2. rewrite <- Heqdw, <- Heqdn.
  cbn [SFdiv]. fold Float.prec Float.emax.
  unfold SFdiv_core_binary. rewrite Hmw, Hmn.
  assert (HPw : 0 < 2 ^ (53 - dw)) by (apply Z.pow_pos_nonneg; lia).
  assert (HPn : 0 < 2 ^ (53 - dn)) by (apply Z.pow_pos_nonneg; lia).
  rewrite !Zdigits2_mul_pow2 by lia. rewrite !Zdigits2_abs, <- Heqdw, <- Heqdn.
  replace (dw + (53 - dw) + (dw - Float.prec) - (dn + (53 - dn) + (dn - Float.prec)))
    with (dw - dn) by (unfold Float.prec; lia).
  rewrite fexp_whole by lia.
  replace (dw - Float.prec - (dn - Float.prec)) with (dw - dn) by lia.
  rewrite Z.min_l by lia.
  replace (dw - dn - (dw - dn - 53)) with 53 by lia.
  rewrite Z.shiftl_mul_pow2 by lia.
  remember (53 - dw + dn) as J.
  assert (HJ : 0 <= J) by lia.
  assert (HPJ : 0 < 2 ^ J) by (apply Z.pow_pos_nonneg; lia).
  replace (Z.abs (n * q) * 2 ^ (53 - dw) * 2 ^ 53)
    with (Z.abs q * 2 ^ J * (Z.abs n * 2 ^ (53 - dn))).
  2:{ rewrite Z.abs_mul.
      replace (2 ^ 53) with (2 ^ J * 2 ^ (dw - dn)).
      2:{ rewrite <- Z.pow_add_r by lia. f_equal. lia. }
      assert (Hs : 2 ^ (53 - dn) = 2 ^ (53 - dw) * 2 ^ (dw - dn)).
      { rewrite <- Z.pow_add_r by lia. f_equal. lia. }
      rewrite Hs. ring. }
  rewrite div_eucl_exact by nia.
  rewrite new_location_exact.
  replace (dw - dn - 53) with (- J) by lia.
  rewrite round_aux_exact by (rewrite ?Zdigits2_abs; lia).
  rewrite Zdigits2_abs, <- Heqdq. unfold whole_float, Float.prec. rewrite <- Heqdq.
  f_equal.
  destruct (Z.ltb_spec (n * q) 0), (Z.ltb_spec n 0), (Z.ltb_spec q 0);
    cbn [xorb]; try reflexivity; nia.
Qed.

Lemma floor_whole k :
  k <> 0 -> Z.abs k < 2 ^ 53 -> Float.floor (whole_float k) = whole_float k.
Proof.
  intros Hk Hkl. destruct (whole_float_mantissa k Hk Hkl) as [Hm Hd].
  pose proof (normalize_whole_0 k (k <? 0) Hk Hkl) as Hn.
  unfold whole_float, Float.floor in *. unfold Float.prec in *.
  destruct (Z.leb_spec 0 (Zdigits2 k - 53)) as [|Hlt]; [reflexivity|].
  rewrite Hm, signed_mul, signed_lt0_abs.
  replace (- (Zdigits2 k - 53)) with (53 - Zdigits2 k) by lia.
  rewrite Z.div_mul by (apply Z.pow_nonzero; lia).
  exact Hn.
Qed.

Lemma round_aux_signbit m e l :
  Float.signbit (binary_round_aux Float.prec Float.emax false m e l) = false.
Proof.
  unfold binary_round_aux.
  destruct (shr_fexp _ _ _ _ _) as [mrs' e'].
  destruct (shr_fexp _ _ _ _ _) as [mrs'' e''].
  destruct (shr_m mrs''); [reflexivity| |reflexivity].
  destruct (e'' <=? _); reflexivity.
Qed.

Lemma one_whole : Float.one = whole_float 1.
Proof. reflexivity. Qed.

(** The floored quotient from the truncated one. *)
Lemma div_of_quot m n :
  n <> 0 ->
  m / n = if (Z.rem m n =? 0) || Bool.eqb (n <? 0) (Z.rem m n <? 0)
          then Z.quot m n else Z.quot m n - 1.
Proof.
  intros Hn.
  pose proof (Z.quot_rem' m n) as Hqr. pose proof (Z.rem_bound_abs m n Hn) as Hb.
  remember (Z.rem m n) as r. remember (Z.quot m n) as q.
  destruct (Z.eqb_spec r 0) as [H0|H0]; cbn [orb].
  - symmetry. apply (Z.div_unique m n q r); lia.
  - destruct (Z.ltb_spec n 0), (Z.ltb_spec r 0); cbn [Bool.eqb]; symmetry.
    + apply (Z.div_unique m n q r); lia.
    + apply (Z.div_unique m n (q - 1) (r + n)); lia.
    + apply (Z.div_unique m n (q - 1) (r + n)); lia.
    + apply (Z.div_unique m n q r); lia.
Qed.

(** What the floor division does once the quotient [div_] is there. *)
Lemma floor_div_tail k (otherwise : result float) :
  k <> 0 -> Z.abs k < 2 ^ 53 ->
  (if Float.nonzero (whole_float k)
   then if Float.ltb Float.half (Float.sub (whole_float k) (Float.floor (whole_float k)))
        then Ok (Float.add (Float.floor (whole_float k)) Float.one)
        else Ok (Float.floor (whole_float k))
   else otherwise)
  = Ok (whole_float k).
Proof.
  intros Hk Hkl. destruct (whole_float_sign k) as (_ & _ & ->).
  rewrite floor_whole by assumption.
  rewrite sub_whole by (rewrite ?Z.sub_diag; cbn; lia).
  rewrite Z.sub_diag. reflexivity.
Qed.

Lemma floor_div_whole m n :
  m <> 0 -> Z.abs m < 2 ^ 53 -> n <> 0 -> Z.abs n < 2 ^ 53 ->
  Float.floor_div (whole_float m) (whole_float n)
  = Ok (if m / n =? 0 then S754_zero false else whole_float (m / n)).
Proof.
  intros Hm Hml Hn Hnl. unfold Float.floor_div.
  destruct (whole_float_sign n) as (Hlt & Heq & _). rewrite Heq, Hlt.
  rewrite fmod_whole by assumption.
  rewrite (div_of_quot m n Hn).
  pose proof (Z.quot_rem' m n) as Hqr. pose proof (Z.rem_bound_abs m n Hn) as Hb.
  pose proof (Z.rem_sign_mul m n Hn) as Hsg.
  remember (Z.rem m n) as r. remember (Z.quot m n) as q.
  assert (Hrm : Z.abs r <= Z.abs m).
  { subst r. rewrite <- Z.rem_abs by assumption. apply Z.rem_le; lia. }
  assert (Hsame : 0 <= r /\ 0 < m \/ r <= 0 /\ m < 0) by nia.
  assert (Hnq : Z.abs (n * q) <= Z.abs m) by lia.
  cbv zeta.
  destruct (Z.eqb_spec r 0) as [H0|H0]; cbn [orb].
  - (* the division is exact *)
    assert (Hq0 : q <> 0) by nia.
    cbn [Float.nonzero Float.eqb SFeqb SFcompare Float.zero negb andb].
    assert (Hs : Float.sub (whole_float m) (S754_zero (m <? 0)) = whole_float m)
      by reflexivity.
    rewrite Hs.
    assert (Hdiv : Float.div (whole_float m) (whole_float n) = whole_float q).
    { rewrite <- (div_whole n q) by lia. f_equal. f_equal. lia. }
    rewrite Hdiv, floor_div_tail by nia.
    destruct (Z.eqb_spec q 0); [lia|reflexivity].
  - destruct (whole_float_sign r) as (Hlt' & _ & Hnz'). rewrite Hnz', Hlt'.
    cbn [andb].
    assert (Hsub : Float.sub (whole_float m) (whole_float r)
                   = if n * q =? 0 then S754_zero false else whole_float (n * q)).
    { rewrite sub_whole by nia. now replace (m - r) with (n * q) by lia. }
    rewrite Hsub. clear Hsub.
    destruct (Z.eqb_spec (n * q) 0) as [Hz|Hz].
    + (* the truncated quotient is zero *)
      assert (Hq0 : q = 0) by nia. subst q.
      assert (Hd : Float.div (S754_zero false) (whole_float n) = S754_zero (n <? 0))
        by (unfold whole_float; now destruct (n <? 0)).
      rewrite Hd.
      destruct (Z.ltb_spec n 0) as [Hn0|Hn0], (Z.ltb_spec r 0) as [Hr0|Hr0];
        cbn [xorb Bool.eqb Z.eqb Z.sub Z.opp Z.add].
      * cbn [Float.nonzero Float.eqb SFeqb SFcompare Float.zero negb].
        unfold whole_float at 1 2. cbn [Float.div SFdiv Float.copysign_zero].
        replace (m <? 0) with true by (symmetry; apply Z.ltb_lt; lia).
        replace (n <? 0) with true by (symmetry; apply Z.ltb_lt; lia).
        cbn [xorb].
        destruct (SFdiv_core_binary _ _ _ _ _ _) as [[mz ez] lz].
        unfold Float.copysign_zero. rewrite round_aux_signbit, Hq0. reflexivity.
      * rewrite Hq0. change (0 - 1) with (-1). change (-1 =? 0) with false. cbv iota.
        change (Float.sub (S754_zero true) Float.one) with (whole_float (-1)).
        apply floor_div_tail; [lia|reflexivity].
      * rewrite Hq0. change (0 - 1) with (-1). change (-1 =? 0) with false. cbv iota.
        change (Float.sub (S754_zero false) Float.one) with (whole_float (-1)).
        apply floor_div_tail; [lia|reflexivity].
      * cbn [Float.nonzero Float.eqb SFeqb SFcompare Float.zero negb].
        unfold whole_float at 1 2. cbn [Float.div SFdiv Float.copysign_zero].
        replace (m <? 0) with false by (symmetry; apply Z.ltb_ge; lia).
        replace (n <? 0) with false by (symmetry; apply Z.ltb_ge; lia).
        cbn [xorb].
        destruct (SFdiv_core_binary _ _ _ _ _ _) as [[mz ez] lz].
        unfold Float.copysign_zero. rewrite round_aux_signbit, Hq0. reflexivity.
    + assert (Hq0 : q <> 0) by nia.
      rewrite div_whole by lia.
      destruct (Z.ltb_spec n 0) as [Hn0|Hn0], (Z.ltb_spec r 0) as [Hr0|Hr0];
        cbn [xorb Bool.eqb].
      * rewrite floor_div_tail by nia.
        destruct (Z.eqb_spec q 0); [lia|reflexivity].
      * rewrite one_whole, sub_whole by nia.
        assert (q - 1 <> 0) by nia.
        destruct (Z.eqb_spec (q - 1) 0); [lia|].
        apply floor_div_tail; nia.
      * rewrite one_whole, sub_whole by nia.
        assert (q - 1 <> 0) by nia.
        destruct (Z.eqb_spec (q - 1) 0); [lia|].
        apply floor_div_tail; nia.
      * rewrite floor_div_tail by nia.
        destruct (Z.eqb_spec q 0); [lia|reflexivity].
Qed.

(** X22.  IntegerDivision is exact on whole numbers.  For whole
    numbers [m] and [n <> 0] of magnitude below [2^53],
    [IntegerDivision.execute] returns exactly the floor of [m / n]; a
    zero quotient is [Decimal('0')], except that 0 divided by a negative
    number gives [Decimal('-0')]. *)
Theorem integer_division_whole_numbers (m n : Z) :
  Z.abs m < 2 ^ 53 -> n <> 0 -> Z.abs n < 2 ^ 53 ->
  IntegerDivision.execute (Decimal_of_Z m) (Decimal_of_Z n)
  = Ok (if m / n =? 0 then Finite ((m =? 0) && (n <? 0)) 0 0
        else Decimal_of_Z (m / n)).
Proof.
  intros Hml Hn Hnl.
  unfold IntegerDivision.execute, IntegerDivision.validate_operands. run.
  rewrite decimal_of_Z_nonzero by assumption. run.
  rewrite (of_decimal_whole n) by assumption.
  destruct (Z.eq_dec m 0) as [->|Hm].
  - cbn [Decimal_of_Z Z.ltb Z.compare Z.abs Z.to_N Float.of_decimal]. run.
    unfold Float.floor_div. destruct (whole_float_sign n) as (Hlt & Heq & _). rewrite Heq.
    rewrite Z.div_0_l by assumption. cbn [Z.eqb andb].
    unfold whole_float. destruct (n <? 0); reflexivity.
  - rewrite (of_decimal_whole m) by assumption. run.
    rewrite floor_div_whole by assumption. run.
    destruct (Z.eqb_spec m 0) as [|_]; [contradiction|]. cbn [andb].
    destruct (Z.eqb_spec (m / n) 0) as [H0|H0]; [reflexivity|].
    rewrite to_decimal_whole; [reflexivity|assumption|].
    assert (Z.abs (m / n) <= Z.abs m); [|lia].
    destruct (Z.lt_trichotomy n 0) as [Hneg|[|Hpos]]; [|contradiction|].
    + rewrite <- (Z.div_opp_opp m n) by assumption.
      destruct (Z.le_gt_cases 0 (- m)).
      * pose proof (Z.div_le_upper_bound (- m) (- n) (- m) ltac:(lia) ltac:(nia)).
        pose proof (Z.div_pos (- m) (- n) ltac:(lia) ltac:(lia)). lia.
      * pose proof (Z.div_le_lower_bound (- m) (- n) (- m) ltac:(lia) ltac:(nia)).
        pose proof (Z.div_lt_upper_bound (- m) (- n) 0 ltac:(lia) ltac:(lia)). lia.
    + destruct (Z.le_gt_cases 0 m).
      * pose proof (Z.div_le_upper_bound m n m ltac:(lia) ltac:(nia)).
        pose proof (Z.div_pos m n ltac:(lia) ltac:(lia)). lia.
      * pose proof (Z.div_le_lower_bound m n m ltac:(lia) ltac:(nia)).
        pose proof (Z.div_lt_upper_bound m n 0 ltac:(lia) ltac:(lia)). lia.
Qed.

Lemma integer_division_whole_numbers_witness :
  IntegerDivision.execute (Decimal_of_Z (-7)) (Decimal_of_Z 2)
  = Ok (if (-7) / 2 =? 0 then Finite ((-7 =? 0) && (2 <? 0)) 0 0
        else Decimal_of_Z ((-7) / 2)).
Proof.
  apply (integer_division_whole_numbers (-7) 2); [reflexivity|discriminate|reflexivity].
Defined.
(** ** Validation and execution *)

Lemma truediv_raise a b e :
  Dec.truediv a b = Raise e ->
  e = Overflow \/ e = InvalidOperation
  \/ e = DivisionByZero /\ exists s ex, b = Finite s 0 ex.
Proof.
  destruct a as [s1 c1 e1|s1|s1 p1|s1 p1], b as [s2 c2 e2|s2|s2 p2|s2 p2];
    cbn [Dec.truediv]; try discriminate; try (intros [= <-]; auto).
  destruct (N.eqb_spec c2 0) as [->|Hc2].
  - destruct (c1 =? 0)%N; intros [= <-]; eauto 6.
  - destruct (c1 =? 0)%N.
    + intros H%fix_raise. auto.
    + destruct (Dec.div_core _ _ _ _) as [coeff exp]. intros H%fix_raise. auto.
Qed.

Lemma rem_raise x y e :
  Float.rem x y = Raise e -> is_validation_error e = false.
Proof.
  unfold Float.rem. destruct (Float.eqb y Float.zero); [now intros [= <-]|].
  destruct (Float.nonzero _); [destruct (xorb _ _)|]; discriminate.
Qed.

Lemma floor_div_raise x y e :
  Float.floor_div x y = Raise e -> is_validation_error e = false.
Proof.
  unfold Float.floor_div. destruct (Float.eqb y Float.zero); [now intros [= <-]|].
  cbv zeta. destruct (Float.nonzero _); [destruct (Float.ltb _ _)|]; discriminate.
Qed.

Lemma decimal_raise_not_validation e :
  e = Overflow \/ e = InvalidOperation \/ e = DivisionByZero ->
  is_validation_error e = false.
Proof. intros [->|[->| ->]]; reflexivity. Qed.

(** What follows the validation in each [execute] never raises a
    ValidationError. *)
Lemma computation_raise `{Libm} (v : variant) a b e :
  match v with
  | Addition => Dec.add a b
  | Subtraction => Dec.sub a b
  | Multiplication => Dec.mul a b
  | Division => Dec.truediv a b
  | Power =>
      x ← Float.of_decimal a; y ← Float.of_decimal b; r ← Float.pow x y; Decimal_new r
  | Root =>
      x ← Float.of_decimal a; y ← Float.of_decimal b;
      y' ← Float.true_div Float.one y; r ← Float.pow x y'; Decimal_new r
  | Modulus =>
      x ← Float.of_decimal a; y ← Float.of_decimal b; result ← Float.rem x y;
      Ok (Float.to_decimal result)
  | IntegerDivision =>
      x ← Float.of_decimal a; y ← Float.of_decimal b; result ← Float.floor_div x y;
      Ok (Float.to_decimal result)
  | Percentage => q ← Dec.truediv a b; Dec.mul q Dec.hundred
  | AbsoluteDifference => d ← Dec.sub a b; Dec.abs d
  end = Raise e ->
  is_validation_error e = false.
Proof.
  destruct v.
  - intros [[-> _]|[-> _]]%add_raise; reflexivity.
  - intros [[-> _]|[-> _]]%sub_raise; reflexivity.
  - intros [[-> _]|[-> _]]%mul_raise; reflexivity.
  - intros [->|[->|[-> _]]]%truediv_raise; reflexivity.
  - apply power_float_part_raise.
  - apply root_float_part_raise.
  - destruct (Float.of_decimal a) as [x|] eqn:Ha; run;
      [|intros [= <-]; eapply of_decimal_raise; eauto].
    destruct (Float.of_decimal b) as [y|] eqn:Hb; run;
      [|intros [= <-]; eapply of_decimal_raise; eauto].
    destruct (Float.rem x y) as [r|] eqn:Hr; run;
      [discriminate|intros [= <-]; eapply rem_raise; eauto].
  - destruct (Float.of_decimal a) as [x|] eqn:Ha; run;
      [|intros [= <-]; eapply of_decimal_raise; eauto].
    destruct (Float.of_decimal b) as [y|] eqn:Hb; run;
      [|intros [= <-]; eapply of_decimal_raise; eauto].
    destruct (Float.floor_div x y) as [r|] eqn:Hr; run;
      [discriminate|intros [= <-]; eapply floor_div_raise; eauto].
  - destruct (Dec.truediv a b) as [q|] eqn:Hq; run.
    + intros [[-> _]|[-> _]]%mul_raise; reflexivity.
    + intros [= <-]. apply truediv_raise in Hq as [->|[->|[-> _]]]; reflexivity.
  - destruct (Dec.sub a b) as [d|] eqn:Hd; run.
    + intros [[-> _]|[-> _]]%abs_raise; reflexivity.
    + intros [= <-]. apply sub_raise in Hd as [[-> _]|[-> _]]; reflexivity.
Qed.

(** X23.  Validation comes first, and is the only source of
    ValidationErrors.  For each of the ten classes, an exception that
    [validate_operands] raises is what [execute] raises, nothing being
    computed; and whenever [execute] raises a ValidationError,
    [validate_operands] raises that very error: the arithmetic that
    follows the validation raises other exceptions only. *)
Theorem execute_validates `{Libm} (v : variant) (a b : Decimal) :
  (forall e, validate_operands v a b = Raise e -> execute v a b = Raise e) /\
  (forall msg, execute v a b = Raise (ValidationError msg) ->
     validate_operands v a b = Raise (ValidationError msg)).
Proof.
  pose proof (computation_raise v a b) as Hc.
  split.
  - intros e He.
    destruct v; cbn [validate_operands execute] in *;
      unfold Addition.execute, Subtraction.execute, Multiplication.execute,
        Division.execute, Power.execute, Root.execute, Modulus.execute,
        IntegerDivision.execute, Percentage.execute, AbsoluteDifference.execute;
      rewrite He; reflexivity.
  - intros msg.
    destruct v; cbn [validate_operands execute] in *;
      unfold Addition.execute, Subtraction.execute, Multiplication.execute,
        Division.execute, Power.execute, Root.execute, Modulus.execute,
        IntegerDivision.execute, Percentage.execute, AbsoluteDifference.execute;
      match goal with
      | |- (?val;; _) = _ -> _ => destruct val as [[]|e'] eqn:Hv
      end;
      cbn [mbind result_bind]; intros Hx;
      try (apply Hc in Hx; discriminate Hx); now injection Hx as ->.
Qed.
(** [pow] divides by zero only for a negative exponent. *)
Lemma pow_zero_division `{Libm} x y msg :
  Float.pow x y = Raise (ZeroDivisionError msg) -> Float.ltb y Float.zero = true.
Proof.
  unfold Float.pow.
  destruct (Float.eqb y Float.zero); [discriminate|].
  destruct (Float.is_nan x); [discriminate|].
  destruct (Float.is_nan y); [discriminate|].
  destruct (Float.is_infinity y).
  { cbv zeta. destruct (Float.eqb _ _); [discriminate|].
    destruct (Bool.eqb _ _); discriminate. }
  destruct (Float.is_infinity x).
  { cbv zeta. destruct (Float.ltb Float.zero y); discriminate. }
  destruct (Float.eqb x Float.zero).
  { cbv zeta. destruct (Float.ltb y Float.zero); [reflexivity|discriminate]. }
  destruct (Float.ltb x Float.zero && negb (Float.eqb y (Float.floor y))).
  { destruct (complex_pow x y) as [[re im]|]; discriminate. }
  cbv zeta. destruct (Float.eqb _ Float.one); [discriminate|].
  destruct (c_pow _ _) as [ix errno].
  destruct (_ =? 0); [discriminate|]. destruct (_ =? ERANGE); discriminate.
Qed.

(** X24.  What the validation rules out.  Because a zero divisor is
    rejected first, Division and Percentage never raise the decimal
    signal DivisionByZero, whatever the operands; because a negative
    exponent is rejected first, Power never raises a ZeroDivisionError
    (the float power [0.0 ** negative] cannot be reached). *)
Theorem guarded_errors_unreachable `{Libm} (a b : Decimal) :
  Division.execute a b <> Raise DivisionByZero /\
  Percentage.execute a b <> Raise DivisionByZero /\
  (forall msg, Power.execute a b <> Raise (ZeroDivisionError msg)).
Proof.
  assert (Hdiv : Dec.eq b Dec.zero = Ok false -> Dec.truediv a b <> Raise DivisionByZero).
  { intros Hb Hq. apply truediv_raise in Hq as [Hq|[Hq|[_ (s & ex & ->)]]];
      try discriminate Hq.
    rewrite eq_zero_of_zero in Hb. discriminate. }
  split; [|split].
  - unfold Division.execute, Division.validate_operands. run.
    destruct (Dec.eq b Dec.zero) as [[]|e] eqn:Hb; run; try discriminate.
    + now apply Hdiv.
    + intros [= ->]. destruct (eq_zero_cases b) as [Hz|[Hz|Hz]];
        unfold is_zero in *; congruence.
  - unfold Percentage.execute, Percentage.validate_operands. run.
    destruct (Dec.eq b Dec.zero) as [[]|e] eqn:Hb; run; try discriminate.
    + destruct (Dec.truediv a b) as [q|e] eqn:Hq; run.
      * intros [[Hm _]|[Hm _]]%mul_raise; discriminate.
      * intros [= ->]. exact (Hdiv eq_refl eq_refl).
    + intros [= ->]. destruct (eq_zero_cases b) as [Hz|[Hz|Hz]];
        unfold is_zero in *; congruence.
  - intros msg. unfold Power.execute.
    destruct (power_validate_cases a b) as [[Hb Hv]|[[Hb Hv]|[Hb Hv]]]; rewrite Hv; run;
      try discriminate.
    destruct (Float.of_decimal a) as [x|e] eqn:Ha; run.
    2:{ intros [= ->]. destruct a; try discriminate Ha. cbn in Ha.
        destruct coeff; [discriminate|]. destruct (0 <=? exp); [discriminate|].
        destruct (SFdiv_core_binary _ _ _ _ _ _) as [[? ?] ?]. discriminate. }
    destruct (nonnegative_of_decimal b Hb) as [y Hy]. rewrite Hy. run.
    pose proof (of_decimal_not_negative b y Hb Hy) as Hneg.
    destruct (Float.pow x y) as [r|e] eqn:Hp; run.
    + destruct r; discriminate.
    + intros [= ->]. apply pow_zero_division in Hp. congruence.
Qed.
(** ** Neutral elements *)

(** A number that some Decimal of the context equals loses only zeros
    when it is rounded, and does not overflow. *)
Lemma representable_multiple q s c e :
  in_context q -> (0 < c)%N -> (value q == value (Finite s c e))%Q ->
  let k := Z.max (ndigits (Z.of_N c) + e - prec) Etiny - e in
  (k <= 0 \/ Z.of_N c mod 10 ^ k = 0) /\ ndigits (Z.of_N c) + e - 1 <= Emax.
Proof.
  intros Hq Hc Hv. cbv zeta.
  destruct q as [sq cq eq| | |]; try contradiction.
  cbn [value] in Hv.
  pose proof (pow10_pos e) as HTe. pose proof (pow10_pos eq) as HTq.
  assert (Hmag : (inject_Z (Z.of_N cq) * inject_Z 10 ^ eq
                  == inject_Z (Z.of_N c) * inject_Z 10 ^ e)%Q).
  { rewrite <- (Qabs_signed sq (Z.of_N cq) (inject_Z 10 ^ eq)) by (lia || assumption).
    rewrite Hv. apply Qabs_signed; [lia|assumption]. }
  apply scaled_eq_aligned in Hmag.
  assert (Hcq : (0 < cq)%N).
  { destruct cq; [|lia]. exfalso. cbn in Hmag.
    assert (0 < 10 ^ (e - Z.min eq e)) by (apply Z.pow_pos_nonneg; lia). nia. }
  destruct Hq as [Heq Hq]. destruct (N.eqb_spec cq 0) as [|_]; [lia|].
  destruct Hq as [Hndq Hadj].
  assert (Hnd : ndigits (Z.of_N c) + e = ndigits (Z.of_N cq) + eq).
  { destruct (Z.le_gt_cases e eq) as [Hle|Hgt].
    - rewrite Z.min_r in Hmag by lia. rewrite Z.sub_diag, Z.mul_1_r in Hmag.
      pose proof (ndigits_mul_pow10 (Z.of_N cq) (eq - e) ltac:(lia) ltac:(lia)) as Hn.
      rewrite Hmag in Hn. lia.
    - rewrite Z.min_l in Hmag by lia. rewrite Z.sub_diag, Z.mul_1_r in Hmag.
      pose proof (ndigits_mul_pow10 (Z.of_N c) (e - eq) ltac:(lia) ltac:(lia)) as Hn.
      rewrite <- Hmag in Hn. lia. }
  split; [|lia].
  remember (Z.max (ndigits (Z.of_N c) + e - prec) Etiny - e) as k.
  destruct (Z.le_gt_cases k 0) as [|Hk]; [now left|right].
  assert (Hke : e + k <= eq) by lia.
  rewrite Z.min_r in Hmag by lia. rewrite Z.sub_diag, Z.mul_1_r in Hmag.
  rewrite <- Hmag.
  replace (eq - e) with ((eq - e - k) + k) by lia.
  rewrite Z.pow_add_r by lia. rewrite Z.mul_assoc. apply Z.mod_mul.
  apply Z.pow_nonzero; lia.
Qed.

Lemma fix_succeeds_exact q s c e :
  in_context q -> (value q == value (Finite s c e))%Q ->
  succeeds (Dec._fix (Finite s c e)).
Proof.
  pose proof context_values as (Hp & HM & Ht & HT).
  intros Hq Hv. destruct (N.eq_dec c 0%N) as [->|Hc]; [eexists; reflexivity|].
  destruct (representable_multiple q s c e Hq ltac:(lia) Hv) as [Hk Hadj].
  cbv zeta in Hk. unfold Dec._fix. cbv zeta.
  destruct (Z.eqb_spec (Z.of_N c) 0) as [|_]; [lia|].
  destruct (Z.ltb_spec Etop (ndigits (Z.of_N c) + e - prec)); [lia|].
  remember (Z.max (ndigits (Z.of_N c) + e - prec) Etiny) as exp_min.
  destruct (Z.ltb_spec e exp_min) as [Hround|]; [|eexists; reflexivity].
  destruct Hk as [Hk|Hk]; [lia|].
  assert (Hup : Dec.round_half_even_up (Z.of_N c) (exp_min - e) = false).
  { unfold Dec.round_half_even_up. rewrite Hk.
    assert (0 < 10 ^ (exp_min - e)) by (apply Z.pow_pos_nonneg; lia).
    destruct (Z.ltb_spec (10 ^ (exp_min - e)) (2 * 0)); [lia|].
    destruct (Z.eqb_spec (10 ^ (exp_min - e)) (2 * 0)); [lia|]. reflexivity. }
  rewrite Hup. eexists; reflexivity.
Qed.

(** Rounding a number that a Decimal of the context equals. *)
Lemma fix_exact q s c e :
  in_context q -> (value q == value (Finite s c e))%Q ->
  exists r, Dec._fix (Finite s c e) = Ok r /\ (value r == value q)%Q.
Proof.
  intros Hq Hv. destruct (fix_succeeds_exact q s c e Hq Hv) as [r Hr].
  exists r. split; [assumption|].
  rewrite Hv. exact (fix_value_exact s c e r q Hr Hq Hv).
Qed.

Lemma ndigits_one : ndigits 1 = 1.
Proof. reflexivity. Qed.

Lemma truediv_one s c e :
  in_context (Finite s c e) ->
  exists r, Dec.truediv (Finite s c e) (Finite false 1 0) = Ok r
            /\ (value r == value (Finite s c e))%Q.
Proof.
  pose proof context_values as (Hp & HM & Ht & HT).
  intros Ha. cbn [Dec.truediv]. change (1 =? 0)%N with false. cbv iota.
  rewrite xorb_false_r.
  destruct (N.eqb_spec c 0) as [->|Hc].
  - rewrite Z.sub_0_r. apply (fix_exact (Finite s 0 e)); [assumption|reflexivity].
  - pose proof (div_core_spec (Z.of_N c) e (Z.of_N 1) 0 ltac:(lia) ltac:(lia)) as Hs.
    cbv zeta in Hs. change (Z.of_N 1) with 1 in *. rewrite ndigits_one in Hs.
    destruct (Dec.div_core (Z.of_N c) e 1 0) as [coeff exp].
    destruct Hs as (_ & _ & Hco & Hexp & _ & Hcase).
    destruct Ha as [He Ha]. destruct (N.eqb_spec c 0) as [|_]; [contradiction|].
    destruct Ha as [Hnd Hadj].
    remember (1 - ndigits (Z.of_N c) + prec + 1) as shift.
    rewrite (Z.max_l shift 0), (Z.max_r (- shift) 0) in Hcase by lia.
    rewrite Z.pow_0_r, Z.mul_1_r in Hcase.
    destruct Hcase as [Hex|(_ & _ & _ & _ & Hmod)];
      [|rewrite Z.mod_1_r in Hmod; contradiction].
    apply (fix_exact (Finite s c e)).
    + cbn [in_context]. destruct (N.eqb_spec c 0) as [|_]; [contradiction|]. lia.
    + cbn [value]. rewrite Z2N.id by lia.
      rewrite <- (value_aligned s coeff exp (e - 0 - shift)) by lia.
      rewrite Hex.
      replace shift with (e - (e - 0 - shift)) at 1 by lia.
      rewrite value_aligned by lia. reflexivity.
Qed.

(** X25.  Neutral elements.  For every Decimal [a] of the context (at
    most 28 digits, exponent in range), multiplying by 1 returns [a]
    itself, and adding 0, subtracting 0 and dividing by 1 return a Decimal
    equal to [a]; multiplying [a] by 0 returns a zero; none of these
    calls can fail. *)
Theorem neutral_elements (a : Decimal) :
  in_context a ->
  Multiplication.execute a (Finite false 1 0) = Ok a /\
  (exists r, Addition.execute a (Finite false 0 0) = Ok r /\ (value r == value a)%Q) /\
  (exists r, Subtraction.execute a (Finite false 0 0) = Ok r /\ (value r == value a)%Q) /\
  (exists r, Division.execute a (Finite false 1 0) = Ok r /\ (value r == value a)%Q) /\
  (exists r, Multiplication.execute a (Finite false 0 0) = Ok r /\ is_zero r).
Proof.
  intros Ha. pose proof (in_context_finite a Ha) as Hfin.
  assert (Hz : (value (Finite false 0 0) == 0)%Q) by reflexivity.
  split; [|split; [|split; [|split]]].
  - destruct a as [s c e| | |]; try contradiction.
    unfold Multiplication.execute. run. cbn [Dec.mul].
    rewrite xorb_false_r, N.mul_1_r, Z.add_0_r. now apply fix_in_context.
  - unfold Addition.execute. run.
    destruct (add_exact a (Finite false 0 0) Hfin eq_refl) as (s & c & e & -> & Hv).
    apply (fix_exact a); [assumption|]. rewrite Hv, Hz. ring.
  - unfold Subtraction.execute. run.
    destruct (sub_exact a (Finite false 0 0) Hfin eq_refl) as (s & c & e & -> & Hv).
    apply (fix_exact a); [assumption|]. rewrite Hv, Hz. ring.
  - destruct a as [s c e| | |]; try contradiction.
    unfold Division.execute, Division.validate_operands. run.
    change (Dec.eq (Finite false 1 0) Dec.zero) with (@Ok bool false). run.
    now apply truediv_one.
  - destruct a as [s c e| | |]; try contradiction.
    unfold Multiplication.execute. run. cbn [Dec.mul].
    rewrite N.mul_0_r. cbn [Dec._fix Z.of_N Z.eqb].
    eexists. split; [reflexivity|]. apply eq_zero_of_zero.
Qed.

Lemma neutral_elements_witness :
  Multiplication.execute (Finite true 125 (-1)) (Finite false 1 0)
  = Ok (Finite true 125 (-1)).
Proof.
  apply (proj1 (neutral_elements (Finite true 125 (-1)) ltac:(vm_compute; repeat split; discriminate))).
Defined.
